(** * Agent-Quota: the aggregation pipeline of the status dashboard

    A shallow embedding of the query fan-out ([app/query.ts]), the section
    parser, health scorer and summary builder ([app/status-model.ts]), the
    one-shot renderer ([app/once.ts]), the entry point, the React hook
    [useStatusData], the keyboard/scroll logic of [App.tsx] and the older
    blessed entry point [index.ts], followed by the properties of the
    specification that concern them.

    Part I holds the definitions, translated function by function from the
    TypeScript sources.  Part II holds the lemmas and theorems. *)

From Stdlib Require Import Ascii String.
From Stdlib Require Import QArith Qround.
From Stdlib Require Import ZArith NArith List Bool Lia Floats.
From Stdlib Require DecimalN.
Import ListNotations.

Close Scope Q_scope.

Set Implicit Arguments.

(* ================================================================== *)
(** * Part I.  Definitions                                             *)
(* ================================================================== *)

(** ** JavaScript strings and the host functions the code calls

    A JavaScript string is a finite sequence of UTF-16 code units; a code
    unit is modelled as a number in [N]. *)

Module JS.

Definition jsstring := list N.

(** An ASCII literal of the source text. *)
Definition lit (s : string) : jsstring :=
  map N_of_ascii (list_ascii_of_string s).

Arguments lit s%_string.

Definition LF : N := 10%N.

Definition eqb (a b : jsstring) : bool :=
  if list_eq_dec N.eq_dec a b then true else false.

(** Truthiness of a string: only the empty string is falsy. *)
Definition truthy (s : jsstring) : bool :=
  match s with [] => false | _ :: _ => true end.

(** [a || b] on strings. *)
Definition orElse (a b : jsstring) : jsstring :=
  if truthy a then a else b.

(** [String.prototype.startsWith]. *)
Fixpoint startsWith (p s : jsstring) : bool :=
  match p, s with
  | [], _ => true
  | _ :: _, [] => false
  | a :: p', b :: s' => N.eqb a b && startsWith p' s'
  end.

(** [String.prototype.includes]. *)
Fixpoint includes (needle s : jsstring) : bool :=
  startsWith needle s ||
  match s with
  | [] => false
  | _ :: s' => includes needle s'
  end.

(** [String.prototype.slice(k)] for [k >= 0]. *)
Definition slice (k : nat) (s : jsstring) : jsstring := skipn k s.

(** [s.split("\n")]: the pieces between line feeds; never empty. *)
Fixpoint split_lines (s : jsstring) : list jsstring :=
  match s with
  | [] => [[]]
  | c :: s' =>
      if N.eqb c LF then [] :: split_lines s'
      else match split_lines s' with
           | [] => [[c]]
           | l :: ls => (c :: l) :: ls
           end
  end.

(** [Array.prototype.join]. *)
Fixpoint join (sep : jsstring) (xs : list jsstring) : jsstring :=
  match xs with
  | [] => []
  | [x] => x
  | x :: rest => x ++ sep ++ join sep rest
  end.

(** White space and line terminators of ECMAScript: what [trim] strips and
    what the regular-expression class [\s] matches. *)
Definition isWhiteSpace (c : N) : bool :=
  existsb (N.eqb c)
    [9; 10; 11; 12; 13; 32; 160; 5760; 8232; 8233; 8239; 8287; 12288; 65279]%N
  || ((8192 <=? c) && (c <=? 8202))%N.

Fixpoint trimStart (s : jsstring) : jsstring :=
  match s with
  | [] => []
  | c :: s' => if isWhiteSpace c then trimStart s' else s
  end.

Definition trimEnd (s : jsstring) : jsstring := rev (trimStart (rev s)).

(** [String.prototype.trim]. *)
Definition trim (s : jsstring) : jsstring := trimEnd (trimStart s).

(** [toUpperCase] on the ASCII range (used on the status literals only). *)
Definition upperChar (c : N) : N :=
  if ((97 <=? c) && (c <=? 122))%N then (c - 32)%N else c.

Definition asciiUpper (s : jsstring) : jsstring := map upperChar s.

(** [toLowerCase] on the ASCII range; an instance for the host function
    that the summary builder takes as a parameter. *)
Definition lowerChar (c : N) : N :=
  if ((65 <=? c) && (c <=? 90))%N then (c + 32)%N else c.

Definition asciiLower (s : jsstring) : jsstring := map lowerChar s.

(** Decimal rendering of an integer, as [String(n)] and template literals
    produce it for integral numbers. *)
Fixpoint digitsOf (u : Decimal.uint) : jsstring :=
  match u with
  | Decimal.Nil => []
  | Decimal.D0 u' => 48%N :: digitsOf u'
  | Decimal.D1 u' => 49%N :: digitsOf u'
  | Decimal.D2 u' => 50%N :: digitsOf u'
  | Decimal.D3 u' => 51%N :: digitsOf u'
  | Decimal.D4 u' => 52%N :: digitsOf u'
  | Decimal.D5 u' => 53%N :: digitsOf u'
  | Decimal.D6 u' => 54%N :: digitsOf u'
  | Decimal.D7 u' => 55%N :: digitsOf u'
  | Decimal.D8 u' => 56%N :: digitsOf u'
  | Decimal.D9 u' => 57%N :: digitsOf u'
  end.

Definition String_of_N (n : N) : jsstring := digitsOf (N.to_uint n).

Definition String_of_Z (z : Z) : jsstring :=
  match z with
  | Zneg p => 45%N :: String_of_N (Npos p)
  | _ => String_of_N (Z.to_N z)
  end.

(** [s.padStart(2, "0")]. *)
Definition padStart2 (s : jsstring) : jsstring :=
  repeat 48%N (2 - length s) ++ s.

(** A [Date]: the epoch instant and the local clock fields the code
    reads. *)
Record Date : Type := mkDate {
  getTime : Z;
  getHours : N;
  getMinutes : N;
  getSeconds : N
}.

(** [Math.round] of a binary64 value: the nearest integer, ties towards
    plus infinity.  The value of a finite double is [m * 2^e]. *)
Definition Math_round (x : float) : Z :=
  match Prim2SF x with
  | S754_finite s m e =>
      let v := if s then Z.neg m else Z.pos m in
      if (0 <=? e)%Z then (v * 2 ^ e)%Z
      else ((2 * v + 2 ^ (- e)) / 2 ^ (1 - e))%Z
  | _ => 0%Z
  end.

(** An array length as a JavaScript number. *)
Definition Number_of_nat (n : nat) : float :=
  PrimFloat.of_uint63 (Uint63.of_Z (Z.of_nat n)).

(** JavaScript [%] on integers: the remainder has the dividend's sign. *)
Definition jsmod (a b : Z) : Z := Z.rem a b.

End JS.

Import JS.

(** ** The provider contract and the snapshot ([types.ts]) *)

Module Types.

(** [QueryResult]: [{success: true, output}] or [{success: false, error}]. *)
Inductive QueryResult : Type :=
| Success (output : jsstring)
| Failure (error : jsstring).

(** A thrown value, as the [catch] clause sees it: an [Error] object with
    its [message], or any other value with its [String(error)] rendering. *)
Inductive Thrown : Type :=
| ErrorObject (message : jsstring)
| OtherValue (rendering : jsstring).

(** How the promise returned by one call of [provider.query()] settles:
    fulfilled with a result, or rejected at some instant with a reason. *)
Inductive Settlement : Type :=
| Fulfilled (result : QueryResult)
| Rejected (at_ : nat) (reason : Thrown).

(** [Provider]: identifier, display label and the query operation.  The
    operation is opaque to the core; it is represented by the settlement
    of the promise it returns in the refresh cycle under consideration. *)
Record Provider : Type := mkProvider {
  id : jsstring;
  label : jsstring;
  query : Settlement
}.

Inductive Status : Type := St_idle | St_loading | St_ok | St_error.

(** [AppState] (and [QuerySnapshot], which extends it with nothing). *)
Record AppState : Type := mkAppState {
  lastUpdated : option Date;
  status : Status;
  content : jsstring;
  message : jsstring
}.

Definition statusText (s : Status) : jsstring :=
  match s with
  | St_idle => lit "idle"
  | St_loading => lit "loading"
  | St_ok => lit "ok"
  | St_error => lit "error"
  end.

Definition isError (s : Status) : bool :=
  match s with St_error => true | _ => false end.

(** What the programs do to the outside world, in order. *)
Inductive Effect : Type :=
| FlagSet (value : bool)
| FanOut (ids : list jsstring)
| StdoutWrite (text : jsstring)
| Exit (code : Z).

End Types.

Import Types.

(** ** [app/query.ts] *)

Module Query.

(** [Promise.all] over the mapped providers: rejects with the reason of the
    promise that rejects first, else resolves with every pair in order. *)
Fixpoint firstRejection (providers : list Provider) : option (nat * Thrown) :=
  match providers with
  | [] => None
  | p :: rest =>
      match query p with
      | Fulfilled _ => firstRejection rest
      | Rejected t e =>
          match firstRejection rest with
          | Some (t', e') => if (t' <? t)%nat then Some (t', e') else Some (t, e)
          | None => Some (t, e)
          end
      end
  end.

Fixpoint fulfilled (providers : list Provider) : list (Provider * QueryResult) :=
  match providers with
  | [] => []
  | p :: rest =>
      match query p with
      | Fulfilled r => (p, r) :: fulfilled rest
      | Rejected _ _ => fulfilled rest
      end
  end.

Definition Promise_all (providers : list Provider)
  : list (Provider * QueryResult) + Thrown :=
  match firstRejection providers with
  | Some (_, e) => inr e
  | None => inl (fulfilled providers)
  end.

(** The body of the [for ... of results] loop: the accumulator is the pair
    of arrays [sections] and [failures]; [push] appends at the end. *)
Definition collect (acc : list jsstring * list jsstring)
           (entry : Provider * QueryResult) : list jsstring * list jsstring :=
  let (sections, failures) := acc in
  let (provider, result) := entry in
  match result with
  | Success output =>
      (sections ++ [lit "## " ++ label provider ++ [LF] ++ output], failures)
  | Failure error =>
      (sections ++ [lit "## " ++ label provider ++ [LF] ++ lit "ERROR: " ++ error],
       failures ++ [label provider ++ lit ": " ++ error])
  end.

(** [error instanceof Error ? error.message : String(error)]. *)
Definition thrownText (e : Thrown) : jsstring :=
  match e with
  | ErrorObject message => message
  | OtherValue rendering => rendering
  end.

(** [queryProviders]; [now] is what [new Date()] reads at completion. *)
Definition queryProviders (now : Date) (providers : list Provider) : AppState :=
  match Promise_all providers with
  | inl results =>
      let (sections, failures) := fold_left collect results ([], []) in
      {| lastUpdated := Some now;
         status := if (length failures =? 0)%nat then St_ok else St_error;
         content := join [LF; LF] sections;
         message := if (length failures =? 0)%nat then []
                    else String_of_N (N.of_nat (length failures))
                           ++ lit " provider(s) failed." |}
  | inr error =>
      {| lastUpdated := None;
         status := St_error;
         content := [];
         message := thrownText error |}
  end.

(** *** Every way the [try] block can end

    [Thrown] holds the thrown values that have a text.  The [catch] clause
    also meets values on which [error.message] or [String(error)] throws
    in turn (an object without a usable [toString], for one): then the
    clause is left by that throw and the promise of [queryProviders] is
    rejected. *)
Inductive Caught : Type :=
| Printable (e : Thrown)
| Unprintable.

(** How the [try] block ends: the loop has collected the results of every
    provider, or something was thrown ([Promise.all] was rejected, or
    [providers.map] threw). *)
Inductive TryBlock : Type :=
| Collected (results : list (Provider * QueryResult))
| Raised (caught : Caught).

(** How the promise that [queryProviders] returns settles. *)
Inductive Awaited : Type :=
| Returned (snapshot : AppState)
| Threw.

(** The [catch] clause. *)
Definition catchClause (caught : Caught) : Awaited :=
  match caught with
  | Printable error =>
      Returned {| lastUpdated := None;
                  status := St_error;
                  content := [];
                  message := thrownText error |}
  | Unprintable => Threw
  end.

(** [queryProviders] from the end of its [try] block on. *)
Definition settle (now : Date) (body : TryBlock) : Awaited :=
  match body with
  | Collected results =>
      let (sections, failures) := fold_left collect results ([], []) in
      Returned {| lastUpdated := Some now;
                  status := if (length failures =? 0)%nat then St_ok else St_error;
                  content := join [LF; LF] sections;
                  message := if (length failures =? 0)%nat then []
                             else String_of_N (N.of_nat (length failures))
                                    ++ lit " provider(s) failed." |}
  | Raised caught => catchClause caught
  end.

(** The [try] block over providers whose rejections have a text. *)
Definition tryBlock (providers : list Provider) : TryBlock :=
  match Promise_all providers with
  | inl results => Collected results
  | inr error => Raised (Printable error)
  end.

End Query.

(** ** [app/status-model.ts] *)

Module StatusModel.

Inductive SectionStatus : Type := Sec_ok | Sec_warning | Sec_error.

Record ParsedSection : Type := mkSection {
  name : jsstring;
  lines : list jsstring;
  status : SectionStatus
}.

Record ProviderSummary : Type := mkSummary {
  provider : Provider;
  section : option ParsedSection;
  avgRemaining : option Z
}.

Definition formatClock (value : option Date) : jsstring :=
  match value with
  | None => lit "never"
  | Some d =>
      let hh := padStart2 (String_of_N (getHours d)) in
      let mm := padStart2 (String_of_N (getMinutes d)) in
      let ss := padStart2 (String_of_N (getSeconds d)) in
      hh ++ lit ":" ++ mm ++ lit ":" ++ ss
  end.

(** The body of the first loop of [parseSections]: the state is the array
    [sections] and the variable [active]. *)
Definition scanLine (st : list ParsedSection * option ParsedSection)
           (line : jsstring) : list ParsedSection * option ParsedSection :=
  let (sections, active) := st in
  if startsWith (lit "## ") line then
    (match active with
     | Some a => sections ++ [a]
     | None => sections
     end,
     Some {| name := trim (slice 3 line); lines := []; status := Sec_ok |})
  else
    let a := match active with
             | Some a => a
             | None => {| name := lit "General"; lines := []; status := Sec_ok |}
             end in
    (sections,
     Some {| name := name a; lines := lines a ++ [line]; status := status a |}).

(** The body of the second loop: the status of one section. *)
Definition classify (section : ParsedSection) : ParsedSection :=
  if existsb (fun line => startsWith (lit "ERROR:") line
                          || includes (lit "unavailable") line)
             (lines section)
  then {| name := name section; lines := lines section; status := Sec_error |}
  else if existsb (fun line => includes (lit "skipped") line) (lines section)
  then {| name := name section; lines := lines section; status := Sec_warning |}
  else section.

Definition parseSections (content : jsstring) : list ParsedSection :=
  if negb (truthy (trim content)) then []
  else
    let (sections, active) :=
      fold_left scanLine (split_lines content) ([], None) in
    let sections := match active with
                    | Some a => sections ++ [a]
                    | None => sections
                    end in
    map classify sections.

(** *** The regular expression [/\b(\d{1,3})%\s+remaining\b/i]

    Matchers take the previous code unit (for [\b]) and the input left. *)

Definition isDigit (c : N) : bool := ((48 <=? c) && (c <=? 57))%N.

Definition isWordChar (c : N) : bool :=
  isDigit c || ((65 <=? c) && (c <=? 90))%N
  || ((97 <=? c) && (c <=? 122))%N || (c =? 95)%N.

Definition isWordAt (c : option N) : bool :=
  match c with Some c => isWordChar c | None => false end.

(** The assertion [\b] between [prev] and the head of the input. *)
Definition wordBoundary (prev : option N) (s : jsstring) : bool :=
  xorb (isWordAt prev) (isWordAt (hd_error s)).

(** A pattern letter under the [i] flag: the letter or its capital. *)
Definition sameLetter (p c : N) : bool := ((c =? p) || (c =? p - 32))%N.

(** [remaining\b] *)
Fixpoint literalThenBoundary (pat : jsstring) (prev : option N)
         (s : jsstring) : bool :=
  match pat with
  | [] => wordBoundary prev s
  | p :: pat' =>
      match s with
      | c :: s' => sameLetter p c && literalThenBoundary pat' (Some c) s'
      | [] => false
      end
  end.

(** [\s+remaining\b]: the greedy [+] takes one more space first and falls
    back to the rest of the pattern. *)
Fixpoint spacesThenLiteral (s : jsstring) : bool :=
  match s with
  | c :: s' =>
      isWhiteSpace c
      && (spacesThenLiteral s'
          || literalThenBoundary (lit "remaining") (Some c) s')
  | [] => false
  end.

(** [%\s+remaining\b] *)
Definition percentThenRest (s : jsstring) : bool :=
  match s with
  | c :: s' => (c =? 37)%N && spacesThenLiteral s'
  | [] => false
  end.

(** One iteration count [k] of [\d{1,3}] followed by the rest. *)
Definition digitsThenRest (k : nat) (s : jsstring) : option jsstring :=
  let d := firstn k s in
  if (length d =? k)%nat && forallb isDigit d && percentThenRest (skipn k s)
  then Some d else None.

(** A match starting at the current position; the greedy [{1,3}] tries
    three digits, then two, then one.  The result is capture group 1. *)
Definition matchHere (prev : option N) (s : jsstring) : option jsstring :=
  if wordBoundary prev s then
    match digitsThenRest 3 s with
    | Some d => Some d
    | None =>
        match digitsThenRest 2 s with
        | Some d => Some d
        | None => digitsThenRest 1 s
        end
    end
  else None.

(** [line.match(re)] without the [g] flag: the leftmost match. *)
Fixpoint matchFrom (prev : option N) (s : jsstring) : option jsstring :=
  match matchHere prev s with
  | Some d => Some d
  | None =>
      match s with
      | [] => None
      | c :: s' => matchFrom (Some c) s'
      end
  end.

Definition matchRemaining (line : jsstring) : option jsstring :=
  matchFrom None line.

(** [Number(match[1])] on a string of decimal digits (always finite, so
    the [Number.isFinite] test of the caller always passes). *)
Definition Number_of_digits (d : jsstring) : Z :=
  fold_left (fun acc c => (10 * acc + (Z.of_N c - 48))%Z) d 0%Z.

Definition extractRemainingPercents (section : option ParsedSection) : list Z :=
  match section with
  | None => []
  | Some section =>
      fold_left
        (fun values line =>
           match matchRemaining line with
           | None => values
           | Some d =>
               let percent := Number_of_digits d in
               values ++ [Z.max 0 (Z.min 100 percent)]
           end)
        (lines section) []
  end.

(** [Math.round(sum / length)] on integers [0 <= sum], [0 < length]: the
    quotient of two integers below 2^53 is correctly rounded, and a
    correctly rounded quotient lies on the same side of every half-integer
    as the exact one for arrays of any admissible length, so the result is
    the exact quotient rounded, ties upwards. *)
Definition roundedQuotient (sum len : Z) : Z :=
  ((2 * sum + len) / (2 * len))%Z.

Definition averageRemaining (section : option ParsedSection) : option Z :=
  let points := extractRemainingPercents section in
  if (length points =? 0)%nat then None
  else Some (roundedQuotient (fold_left (fun sum value => (sum + value)%Z) points 0%Z)
                             (Z.of_nat (length points))).

(** [healthScore], in binary64 arithmetic as the code computes it. *)
Definition healthScore (sections : list ParsedSection) : Z :=
  if (length sections =? 0)%nat then 0%Z
  else
    let points :=
      fold_left
        (fun points section =>
           let points := match status section with
                         | Sec_ok => (points + 1)%float
                         | _ => points
                         end in
           match status section with
           | Sec_warning => (points + 0.5)%float
           | _ => points
           end)
        sections 0%float in
    Math_round ((points / Number_of_nat (length sections)) * 100)%float.

Definition statusLabel (status : option SectionStatus) : jsstring :=
  match status with
  | Some Sec_ok => lit "LIVE"
  | Some Sec_warning => lit "PARTIAL"
  | Some Sec_error => lit "ISSUE"
  | None => lit "IDLE"
  end.

Section Host.

(** [String.prototype.toLowerCase] of the host (Unicode case mapping). *)
Variable toLowerCase : jsstring -> jsstring.

Definition getProviderSection (sections : list ParsedSection)
           (providerLabel : jsstring) : option ParsedSection :=
  let needle := toLowerCase providerLabel in
  find (fun section => JS.eqb (toLowerCase (name section)) needle) sections.

Definition buildProviderSummaries (providers : list Provider)
           (sections : list ParsedSection) : list ProviderSummary :=
  map (fun provider =>
         let section := getProviderSection sections (label provider) in
         {| provider := provider;
            section := section;
            avgRemaining := averageRemaining section |})
      providers.

End Host.

End StatusModel.

(** ** [app/once.ts] and the one-shot branch of the entry point *)

Module Once.

Import StatusModel.

Definition sectionLine (section : ParsedSection) : jsstring :=
  name section ++ lit ": " ++ statusLabel (Some (StatusModel.status section)).

Definition header (snapshot : AppState) (score : Z) : jsstring :=
  join (lit " | ")
    [lit "Quota Status";
     lit "state=" ++ asciiUpper (statusText (Types.status snapshot));
     lit "updated=" ++ formatClock (lastUpdated snapshot);
     lit "health=" ++ String_of_Z score ++ lit "%"].

Definition renderOnce (snapshot : AppState) : jsstring :=
  let sections := parseSections (content snapshot) in
  let score := healthScore sections in
  let summary := join [LF] (map sectionLine sections) in
  join [LF]
    (filter truthy
       [header snapshot score; []; summary; [];
        orElse (content snapshot) (message snapshot)]).

(** [if (onceMode) { ... }] of the entry point: one call of
    [queryProviders], one write, then the exit code. *)
Definition onceMain (now : Date) (providers : list Provider) : list Effect :=
  let snapshot := Query.queryProviders now providers in
  [FanOut (map id providers);
   StdoutWrite (renderOnce snapshot ++ [LF]);
   Exit (if isError (Types.status snapshot) then 1 else 0)%Z].

End Once.

(** ** [ui/hooks/useStatusData.ts] *)

Module Hook.

(** The hook's cells: [state], [selectedIndex] and the ref [inflight]. *)
Record Cells : Type := mkCells {
  state : AppState;
  selectedIndex : Z;
  inflight : bool
}.

Definition initialState : AppState :=
  {| lastUpdated := None;
     status := St_idle;
     content := [];
     message := lit "Press r to refresh." |}.

Definition initial : Cells :=
  {| state := initialState; selectedIndex := 0%Z; inflight := false |}.

Definition count (providers : list Provider) : Z := Z.of_nat (length providers).

(** The index [setSelectedIndex] stores. *)
Definition setSelectedIndex (n index : Z) : Z :=
  if (n =? 0)%Z then 0%Z
  else jsmod (jsmod index n + n) n.

Definition nextProvider (n selected : Z) : Z :=
  setSelectedIndex n (jsmod (selected + 1) (Z.max 1 n)).

Definition prevProvider (n selected : Z) : Z :=
  setSelectedIndex n (jsmod (selected - 1 + Z.max 1 n) (Z.max 1 n)).

Definition loadingMessage (providers : list Provider) : jsstring :=
  lit "Querying " ++ join (lit ", ") (map label providers) ++ lit "...".

(** [refreshNow] up to its [await]: the guard, the flag, the loading
    state and the start of the fan-out. *)
Definition refreshNow_call (providers : list Provider) (c : Cells)
  : Cells * list Effect :=
  if inflight c then (c, [])
  else
    ({| state := {| lastUpdated := lastUpdated (state c);
                    status := St_loading;
                    content := content (state c);
                    message := loadingMessage providers |};
        selectedIndex := selectedIndex c;
        inflight := true |},
     [FlagSet true; FanOut (map id providers)]).

(** [refreshNow] from the [await] on.  When the awaited promise returns,
    the snapshot is stored and the flag is cleared; when it is rejected,
    the rest of the function does not run (there is no [try] around the
    [await]): no cell changes and the promise of [refreshNow] is rejected
    in turn. *)
Definition refreshNow_resume (awaited : Query.Awaited) (c : Cells)
  : Cells * list Effect :=
  match awaited with
  | Query.Returned snapshot =>
      ({| state := snapshot; selectedIndex := selectedIndex c; inflight := false |},
       [FlagSet false])
  | Query.Threw => (c, [])
  end.

(** The events of the hook's life and its step function; the trace of
    effects is returned with the new cells. *)
Inductive Event : Type :=
| RefreshRequested (providers : list Provider)
| FanOutSettled (awaited : Query.Awaited)
| NextProvider (n : Z)
| PrevProvider (n : Z).

Definition step (c : Cells) (e : Event) : Cells * list Effect :=
  match e with
  | RefreshRequested providers => refreshNow_call providers c
  | FanOutSettled awaited => refreshNow_resume awaited c
  | NextProvider n =>
      ({| state := state c;
          selectedIndex := nextProvider n (selectedIndex c);
          inflight := inflight c |}, [])
  | PrevProvider n =>
      ({| state := state c;
          selectedIndex := prevProvider n (selectedIndex c);
          inflight := inflight c |}, [])
  end.

End Hook.

(** ** [ui/App.tsx]: selection, scrolling and the effects that follow a
    render *)

Module AppView.

Import StatusModel.

Record View : Type := mkView {
  cells : Hook.Cells;
  detailOffset : Z
}.

Inductive Key : Type :=
| K_q | K_r | K_left | K_right | K_up | K_down | K_pageup | K_pagedown
| K_other.

Definition clamp (value min max : Z) : Z := Z.min max (Z.max min value).

Section Screen.

Variable toLowerCase : jsstring -> jsstring.
Variable providers : list Provider.
Variables width height : Z.

Definition compact : bool := (width <? 112)%Z.
Definition tiny : bool := (width <? 78)%Z.

Definition detailLines (v : View) : list jsstring :=
  let sections := parseSections (content (Hook.state (cells v))) in
  let summaries := buildProviderSummaries toLowerCase providers sections in
  let selectedSummary :=
    match nth_error summaries (Z.to_nat (Hook.selectedIndex (cells v))) with
    | Some s => Some s
    | None => hd_error summaries
    end in
  let selectedProvider :=
    match selectedSummary with
    | Some s => Some (provider s)
    | None => hd_error providers
    end in
  match selectedProvider with
  | Some p =>
      match getProviderSection toLowerCase sections (label p) with
      | Some s => lines s
      | None => []
      end
  | None => []
  end.

Definition detailHeight : Z :=
  Z.max 5 (height - (if compact then (if tiny then 19 else 22) else 12)).

Definition maxOffset (v : View) : Z :=
  Z.max 0 (Z.of_nat (length (detailLines v)) - detailHeight).

Definition withOffset (v : View) (offset : Z) : View :=
  {| cells := cells v; detailOffset := offset |}.

Definition withSelection (v : View) (index : Z) : View :=
  {| cells := {| Hook.state := Hook.state (cells v);
                 Hook.selectedIndex := index;
                 Hook.inflight := Hook.inflight (cells v) |};
     detailOffset := detailOffset v |}.

Definition pageStep : Z := Z.max 3 (detailHeight / 2).

(** The [useKeyboard] handler. *)
Definition onKey (key : Key) (v : View) : View * list Effect :=
  match key with
  | K_q => (v, [])
  | K_r =>
      let (c, eff) := Hook.refreshNow_call providers (cells v) in
      ({| cells := c; detailOffset := detailOffset v |}, eff)
  | K_left =>
      (withSelection v
         (Hook.prevProvider (Hook.count providers) (Hook.selectedIndex (cells v))),
       [])
  | K_right =>
      (withSelection v
         (Hook.nextProvider (Hook.count providers) (Hook.selectedIndex (cells v))),
       [])
  | K_up => (withOffset v (clamp (detailOffset v - 1) 0 (maxOffset v)), [])
  | K_down => (withOffset v (clamp (detailOffset v + 1) 0 (maxOffset v)), [])
  | K_pageup =>
      (withOffset v (clamp (detailOffset v - pageStep) 0 (maxOffset v)), [])
  | K_pagedown =>
      (withOffset v (clamp (detailOffset v + pageStep) 0 (maxOffset v)), [])
  | K_other => (v, [])
  end.

(** The two effects on [detailOffset] of the render that follows a state
    change: [useEffect(..., [selectedIndex])] and
    [useEffect(..., [maxOffset])], each run when its dependency differs
    from the previous render. *)
Definition runEffects (before after : View) : View :=
  let v1 :=
    if (Hook.selectedIndex (cells before) =? Hook.selectedIndex (cells after))%Z
    then after else withOffset after 0%Z in
  if (maxOffset before =? maxOffset after)%Z then v1
  else withOffset v1 (clamp (detailOffset v1) 0 (maxOffset after)).

Definition press (key : Key) (v : View) : View :=
  runEffects v (fst (onKey key v)).

End Screen.

End AppView.

(** ** The blessed entry point ([index.ts]) *)

Module Legacy.

(** The process-level variables [state] and [inflight]. *)
Record Global : Type := mkGlobal {
  state : AppState;
  inflight : bool
}.

Definition formatTime (d : option Date) : jsstring :=
  match d with
  | None => lit "never"
  | Some d =>
      let hh := padStart2 (String_of_N (getHours d)) in
      let mm := padStart2 (String_of_N (getMinutes d)) in
      let ss := padStart2 (String_of_N (getSeconds d)) in
      hh ++ lit ":" ++ mm ++ lit ":" ++ ss
  end.

Definition buildOutputHeader (g : Global) : jsstring :=
  lit "Agent Status TUI | status=" ++ asciiUpper (statusText (status (state g)))
  ++ lit " | updated=" ++ formatTime (lastUpdated (state g)).

(** [refresh] up to its [await]. *)
Definition refresh_call (providers : list Provider) (g : Global)
  : Global * list Effect :=
  if inflight g then (g, [])
  else
    ({| state := {| lastUpdated := lastUpdated (state g);
                    status := St_loading;
                    content := content (state g);
                    message := lit "Querying "
                               ++ join (lit ", ") (map label providers)
                               ++ lit "..." |};
        inflight := true |},
     [FlagSet true; FanOut (map id providers)]).

(** [refresh] from the [await] on: the [try] body or the [catch] clause,
    then the [finally] clause. *)
Definition refresh_resume (now : Date) (providers : list Provider)
           (g : Global) : Global * list Effect :=
  let st :=
    match Query.Promise_all providers with
    | inl results =>
        let (sections, failures) := fold_left Query.collect results ([], []) in
        {| lastUpdated := Some now;
           content := join [LF; LF] sections;
           status := if (length failures =? 0)%nat then St_ok else St_error;
           message := if (length failures =? 0)%nat then []
                      else String_of_N (N.of_nat (length failures))
                             ++ lit " provider(s) failed." |}
    | inr error =>
        {| lastUpdated := lastUpdated (state g);
           status := St_error;
           content := [];
           message := Query.thrownText error |}
    end in
  ({| state := st; inflight := false |}, [FlagSet false]).

(** [refresh] from the [await] on, for every way its [try] block can end:
    the [catch] clause sets the status and the content and then takes the
    text; when that throws, the message stays as it was, and the [finally]
    clause runs all the same. *)
Definition refresh_settle (now : Date) (body : Query.TryBlock) (g : Global)
  : Global * list Effect :=
  let st :=
    match body with
    | Query.Collected results =>
        let (sections, failures) := fold_left Query.collect results ([], []) in
        {| lastUpdated := Some now;
           content := join [LF; LF] sections;
           status := if (length failures =? 0)%nat then St_ok else St_error;
           message := if (length failures =? 0)%nat then []
                      else String_of_N (N.of_nat (length failures))
                             ++ lit " provider(s) failed." |}
    | Query.Raised (Query.Printable error) =>
        {| lastUpdated := lastUpdated (state g);
           status := St_error;
           content := [];
           message := Query.thrownText error |}
    | Query.Raised Query.Unprintable =>
        {| lastUpdated := lastUpdated (state g);
           status := St_error;
           content := [];
           message := message (state g) |}
    end in
  ({| state := st; inflight := false |}, [FlagSet false]).

(** One whole run of [refresh], from the call to the settled promise. *)
Definition refresh (now : Date) (providers : list Provider) (g : Global)
  : Global * list Effect :=
  if inflight g then (g, [])
  else
    let (g1, eff1) := refresh_call providers g in
    let (g2, eff2) := refresh_resume now providers g1 in
    (g2, eff1 ++ eff2).

Definition runOnce (now : Date) (providers : list Provider) (g : Global)
  : list Effect :=
  let (g', eff) := refresh now providers g in
  eff
  ++ [StdoutWrite
        (join [LF] [buildOutputHeader g'; [];
                    orElse (content (state g')) (message (state g'))]
         ++ [LF]);
      Exit (if isError (status (state g')) then 1 else 0)%Z].

Definition initial : Global :=
  {| state := {| lastUpdated := None;
                 status := St_idle;
                 content := [];
                 message := lit "Press r to refresh." |};
     inflight := false |}.

End Legacy.

(** ** Definitions used to state the properties *)

Module Spec.

Import StatusModel.

(** The block of one provider in the snapshot's content. *)
Definition blockOf (entry : Provider * QueryResult) : jsstring :=
  match snd entry with
  | Success text => lit "## " ++ label (fst entry) ++ [LF] ++ text
  | Failure message =>
      lit "## " ++ label (fst entry) ++ [LF] ++ lit "ERROR: " ++ message
  end.

Definition failed (r : QueryResult) : bool :=
  match r with Success _ => false | Failure _ => true end.

(** The number of failure outcomes. *)
Definition failureCount (results : list QueryResult) : nat :=
  length (filter failed results).

(** The provider's query promise is fulfilled with [r]. *)
Definition settledWith (p : Provider) (r : QueryResult) : Prop :=
  query p = Fulfilled r.

Definition rejects (p : Provider) : Prop :=
  exists t e, query p = Rejected t e.

(** *** The section parser as the specification words it

    A line beginning with the marker opens a section; the lines that
    follow, up to the next marker, are its lines; lines before the first
    marker form the implicit section "General".  The grouping is computed
    from the last line backwards: [grouped] returns the lines not yet
    claimed by a marker and the sections opened so far. *)

Definition isMarker (line : jsstring) : bool := startsWith (lit "## ") line.

Fixpoint grouped (nameOf : jsstring -> jsstring) (ls : list jsstring)
  : list jsstring * list (jsstring * list jsstring) :=
  match ls with
  | [] => ([], [])
  | line :: rest =>
      let (pending, opened) := grouped nameOf rest in
      if isMarker line then ([], (nameOf line, pending) :: opened)
      else (line :: pending, opened)
  end.

Definition sectionsOf (nameOf : jsstring -> jsstring) (ls : list jsstring)
  : list (jsstring * list jsstring) :=
  let (pending, opened) := grouped nameOf ls in
  match pending with
  | [] => opened
  | _ :: _ => (lit "General", pending) :: opened
  end.

(** The remainder of a marker line. *)
Definition remainder (line : jsstring) : jsstring := skipn 3 line.

(** The specification's sentence: sections are named by the remainder of
    the marker line, and only the empty content yields no section. *)
Definition statedSections (content : jsstring) : list (jsstring * list jsstring) :=
  match content with
  | [] => []
  | _ :: _ => sectionsOf remainder (split_lines content)
  end.

(** The sentence as the code has it: sections are named by the remainder
    with surrounding white space removed, and content that is empty or
    only white space yields no section. *)
Definition trimmedSections (content : jsstring) : list (jsstring * list jsstring) :=
  match trim content with
  | [] => []
  | _ :: _ => sectionsOf (fun line => trim (remainder line)) (split_lines content)
  end.

(** The text of an outcome: the output of a success, the error of a
    failure. *)
Definition textOf (r : QueryResult) : jsstring :=
  match r with Success output => output | Failure error => error end.

(** No line of the text starts with the marker. *)
Definition markerFree (text : jsstring) : Prop :=
  Forall (fun l => isMarker l = false) (split_lines text).

(** *** The health score, in the specification's words *)

Definition hasStatus (st : SectionStatus) (s : ParsedSection) : bool :=
  match st, status s with
  | Sec_ok, Sec_ok | Sec_warning, Sec_warning | Sec_error, Sec_error => true
  | _, _ => false
  end.

Definition countOf (st : SectionStatus) (sections : list ParsedSection) : Z :=
  Z.of_nat (length (filter (hasStatus st) sections)).

(** Rounding to the nearest integer, halves upwards, as [Math.round]. *)
Definition roundQ (q : Q) : Z := Qfloor (q + (1 # 2))%Q.

(** round(100 * (ok-count + 0.5 * warning-count) / total-count), and 0 for
    no sections. *)
Definition statedHealth (sections : list ParsedSection) : Z :=
  match sections with
  | [] => 0%Z
  | _ :: _ =>
      roundQ (100 * (inject_Z (countOf Sec_ok sections)
                     + (1 # 2) * inject_Z (countOf Sec_warning sections))
              / inject_Z (Z.of_nat (length sections)))%Q
  end.

(** Every list of at most [n] sections, up to names and lines. *)
Fixpoint statusLists (n : nat) : list (list ParsedSection) :=
  match n with
  | O => [[]]
  | S n' =>
      [] :: flat_map
              (fun l => map (fun st => {| name := []; lines := []; status := st |} :: l)
                            [Sec_ok; Sec_warning; Sec_error])
              (statusLists n')
  end.

(** *** The pattern "<1-3 digits>% remaining" and the average *)

(** The last code unit of [before], or [prev] when [before] is empty. *)
Fixpoint lastOf (prev : option N) (before : jsstring) : option N :=
  match before with
  | [] => prev
  | c :: rest => lastOf (Some c) rest
  end.

(** [w] is the word [pat] up to the case of its letters. *)
Definition ignoringCase (pat w : jsstring) : Prop :=
  Forall2 (fun p c => c = p \/ c = (p - 32)%N) pat w.

(** The pattern occurs in [line] right after [before], with the digits [d]:
    one to three digits, a percent sign, at least one white-space
    character, the word "remaining" in any case, with a word boundary on
    both sides. *)
Definition occursAt (line before d after : jsstring) : Prop :=
  exists ws w,
    line = before ++ d ++ [37%N] ++ ws ++ w ++ after
    /\ 1 <= length d <= 3
    /\ forallb isDigit d = true
    /\ ws <> []
    /\ forallb isWhiteSpace ws = true
    /\ ignoringCase (lit "remaining") w
    /\ isWordAt (lastOf None before) = false
    /\ isWordAt (hd_error after) = false.

(** What the pattern captures on a line: the digits of its leftmost
    occurrence, or nothing when it does not occur. *)
Definition captured (line : jsstring) (capture : option jsstring) : Prop :=
  match capture with
  | Some d =>
      exists before after,
        occursAt line before d after
        /\ forall before' d' after',
             occursAt line before' d' after' -> length before <= length before'
  | None => forall before d after, ~ occursAt line before d after
  end.

Definition clampPercent (percent : Z) : Z := Z.max 0 (Z.min 100 percent).

(** The percentages captured across the lines of a section, each clamped
    to [0, 100], in line order. *)
Inductive percents : list jsstring -> list Z -> Prop :=
| percents_nil : percents [] []
| percents_skip line ls ps :
    captured line None -> percents ls ps -> percents (line :: ls) ps
| percents_take line d ls ps :
    captured line (Some d) -> percents ls ps ->
    percents (line :: ls) (clampPercent (Number_of_digits d) :: ps).

Definition total (ps : list Z) : Z := fold_right Z.add 0%Z ps.

Definition mean (ps : list Z) : Q :=
  (inject_Z (total ps) / inject_Z (Z.of_nat (length ps)))%Q.

(** The average-remaining of a summary whose section is [found]. *)
Definition averageOf (found : option ParsedSection) (avg : option Z) : Prop :=
  match found with
  | None => avg = None
  | Some s =>
      exists ps,
        percents (lines s) ps
        /\ match ps with
           | [] => avg = None
           | _ :: _ => avg = Some (roundQ (mean ps))
           end
  end.

(** [found] is the first section whose name equals the label up to case. *)
Definition firstMatching (toLowerCase : jsstring -> jsstring)
           (sections : list ParsedSection) (providerLabel : jsstring)
           (found : option ParsedSection) : Prop :=
  let differs s := toLowerCase (name s) <> toLowerCase providerLabel in
  match found with
  | Some s =>
      exists before after,
        sections = before ++ s :: after
        /\ toLowerCase (name s) = toLowerCase providerLabel
        /\ Forall differs before
  | None => Forall differs sections
  end.

(** Name and lines of a parsed section. *)
Definition shape (s : ParsedSection) : jsstring * list jsstring :=
  (name s, lines s).

(** *** Classification of a section, in the specification's words *)

Definition beginsWith (p s : jsstring) : Prop := exists rest, s = p ++ rest.

Definition contains (n s : jsstring) : Prop :=
  exists before after, s = before ++ n ++ after.

Definition errorLine (line : jsstring) : Prop :=
  beginsWith (lit "ERROR:") line \/ contains (lit "unavailable") line.

Definition skippedLine (line : jsstring) : Prop :=
  contains (lit "skipped") line.

Definition someLine (P : jsstring -> Prop) (s : ParsedSection) : Prop :=
  exists line, In line (lines s) /\ P line.


(** *** Auxiliary definitions of the proofs *)

(** A section as the first loop of the parser creates it. *)
Definition plain (entry : jsstring * list jsstring) : ParsedSection :=
  {| name := fst entry; lines := snd entry; status := Sec_ok |}.

(** The sections a run of the first loop ends with, given the section
    that is active when the run starts. *)
Definition closing (active : option ParsedSection)
           (g : list jsstring * list (jsstring * list jsstring))
  : list ParsedSection :=
  match active with
  | Some a =>
      {| name := name a; lines := lines a ++ fst g; status := status a |}
      :: map plain (snd g)
  | None =>
      match fst g with
      | [] => map plain (snd g)
      | _ :: _ => plain (lit "General", fst g) :: map plain (snd g)
      end
  end.

Definition finish (st : list ParsedSection * option ParsedSection)
  : list ParsedSection :=
  match snd st with
  | Some a => fst st ++ [a]
  | None => fst st
  end.

(** The marker line of a block, and what the round trip asks of an entry. *)
Definition markerLine (entry : Provider * QueryResult) : jsstring :=
  lit "## " ++ label (fst entry).

Definition wellFormed (entry : Provider * QueryResult) : Prop :=
  ~ In LF (label (fst entry)) /\ markerFree (textOf (snd entry)).

(** What has to follow the digits. *)
Definition tailOk (rest : jsstring) : Prop :=
  exists ws w after,
    rest = [37%N] ++ ws ++ w ++ after /\ ws <> []
    /\ forallb isWhiteSpace ws = true
    /\ ignoringCase (lit "remaining") w
    /\ isWordAt (hd_error after) = false.

(** [Math.round(sum / length)] evaluated in binary64, to compare with
    [roundedQuotient]. *)
Definition binary64Average (sum len : nat) : Z :=
  Math_round (Number_of_nat sum / Number_of_nat len)%float.

(** The percentages of a list of lines, as a function. *)
Definition percentsList (ls : list jsstring) : list Z :=
  flat_map (fun line =>
              match matchRemaining line with
              | Some d => [clampPercent (Number_of_digits d)]
              | None => []
              end) ls.

End Spec.

(** ** Sample data: concrete runs on which the properties are exercised *)

Module Samples.

Import StatusModel.

Definition noon : Date :=
  {| getTime := 1767268800000; getHours := 12; getMinutes := 0; getSeconds := 5 |}.

Definition copilot : Provider :=
  {| id := lit "copilot"; label := lit "Copilot";
     query := Fulfilled (Success (lit "Plan         pro")) |}.

Definition codex : Provider :=
  {| id := lit "codex"; label := lit "Codex";
     query := Fulfilled (Failure (lit "timeout")) |}.

Definition gemini : Provider :=
  {| id := lit "gemini"; label := lit "Gemini";
     query := Fulfilled (Success (lit "Quota        skipped (no token)")) |}.

(** Three providers, one of which returns the failure "timeout". *)
Definition three : list Provider := [copilot; codex; gemini].

Definition threeResults : list QueryResult :=
  [Success (lit "Plan         pro");
   Failure (lit "timeout");
   Success (lit "Quota        skipped (no token)")].

(** A provider whose query promise rejects. *)
Definition amp : Provider :=
  {| id := lit "amp"; label := lit "Amp";
     query := Rejected 7 (ErrorObject (lit "spawn amp ENOENT")) |}.

Definition withThrow : list Provider := [copilot; amp; gemini].

End Samples.


(** ** Sample contents for the parser *)

Module ParserSamples.

(** "intro", then a marker line with white space around the name, then
    three lines of which one is blank. *)
Definition mixed : jsstring :=
  lit "intro" ++ [LF] ++ lit "##  Codex " ++ [LF] ++ lit "5h window"
  ++ [LF] ++ [LF] ++ lit "used 20%".

(** One section whose only marker line contains "skipped". *)
Definition skippedOnly : jsstring :=
  lit "## Gemini" ++ [LF] ++ lit "Plan         free"
  ++ [LF] ++ lit "Quota        skipped (no token)".

(** Twenty blocks: eleven healthy, one with a skipped quota, eight
    failed. *)
Definition twenty : jsstring :=
  join [LF; LF]
    (repeat (lit "## Codex" ++ [LF] ++ lit "5h window   80% remaining") 11
     ++ [lit "## Gemini" ++ [LF] ++ lit "Quota        skipped (no token)"]
     ++ repeat (lit "## Amp" ++ [LF] ++ lit "ERROR: timeout") 8).

End ParserSamples.


(** ** Runs of the hook *)

Module Runs.

(** The hook driven through a list of events; the traces are appended. *)
Fixpoint run (c : Hook.Cells) (events : list Hook.Event)
  : Hook.Cells * list Effect :=
  match events with
  | [] => (c, [])
  | e :: rest =>
      let (c1, t1) := Hook.step c e in
      let (c2, t2) := run c1 rest in
      (c2, t1 ++ t2)
  end.

(** Requests and key presses, as opposed to the settling of a fan-out. *)
Definition isRequest (e : Hook.Event) : bool :=
  match e with
  | Hook.FanOutSettled _ => false
  | _ => true
  end.

Definition fanOuts (trace : list Effect) : nat :=
  length (filter (fun e => match e with FanOut _ => true | _ => false end) trace).

End Runs.


(** ** Sample sections for the summary builder *)

Module SummarySamples.

Import StatusModel.

(** A section whose matching lines carry 80, 60 and 40. *)
Definition codexSection : ParsedSection :=
  {| name := lit "Codex";
     lines := [lit "5h window";
               lit "used         20% [##--------] 80% remaining";
               lit "weekly window";
               lit "used         40% [####------] 60%  Remaining";
               lit "code review  40% remaining";
               lit "1234% remaining (not a percentage)"];
     status := Sec_ok |}.

Definition sections : list ParsedSection :=
  [{| name := lit "Copilot"; lines := [lit "Plan         pro"]; status := Sec_ok |};
   codexSection;
   {| name := lit "CODEX"; lines := [lit "10% remaining"]; status := Sec_ok |}].

End SummarySamples.


(** ** More host functions: numbers, arrays and padding *)

Module JSMore.

(** An integer as a JavaScript number (exact below 2^53). *)
Definition Number_of_Z (z : Z) : float :=
  if (z <? 0)%Z
  then PrimFloat.opp (PrimFloat.of_uint63 (Uint63.of_Z (- z)))
  else PrimFloat.of_uint63 (Uint63.of_Z z).

(** [Math.floor] of a binary64 value. *)
Definition Math_floor (x : float) : Z :=
  match Prim2SF x with
  | S754_finite s m e =>
      let v := if s then Z.neg m else Z.pos m in
      if (0 <=? e)%Z then (v * 2 ^ e)%Z else (v / 2 ^ (- e))%Z
  | _ => 0%Z
  end.

(** A relative index of [slice]: negative indices count from the end, and
    the result is kept inside the array. *)
Definition relativeIndex (len i : Z) : Z :=
  if (i <? 0)%Z then Z.max 0 (len + i) else Z.min i len.

(** [Array.prototype.slice(start, end)] and [String.prototype.slice]. *)
Definition Array_slice {A : Type} (l : list A) (start finish : Z) : list A :=
  let len := Z.of_nat (length l) in
  let k := relativeIndex len start in
  let final := relativeIndex len finish in
  firstn (Z.to_nat (final - k)) (skipn (Z.to_nat k) l).

(** [slice(start)]: up to the end of the array. *)
Definition Array_sliceFrom {A : Type} (l : list A) (start : Z) : list A :=
  Array_slice l start (Z.of_nat (length l)).

(** [c.repeat(n)] for a one-unit string and [n >= 0]. *)
Definition String_repeat (c : N) (n : Z) : jsstring := repeat c (Z.to_nat n).

(** [s.padEnd(width, c)] and [s.padStart(width, c)] with a one-unit fill. *)
Definition padEnd (s : jsstring) (width : Z) (c : N) : jsstring :=
  s ++ String_repeat c (width - Z.of_nat (length s)).

Definition padStart (s : jsstring) (width : Z) (c : N) : jsstring :=
  String_repeat c (width - Z.of_nat (length s)) ++ s.

(** [String.prototype.endsWith]. *)
Definition endsWith (suffix s : jsstring) : bool :=
  startsWith (rev suffix) (rev s).

Definition BLOCK : N := 9608%N.       (* U+2588 *)
Definition MIDDLE_DOT : N := 183%N.   (* U+00B7 *)
Definition LIGHT_SHADE : N := 9617%N. (* U+2591 *)
Definition SPACE : N := 32%N.

End JSMore.

Import JSMore.

(** ** [ui/App.tsx]: the trend line, the visible window and the history *)

Module Trend.

Import StatusModel.

(** [SPARK_CHARS[idx]]: the eight block elements U+2581 .. U+2588. *)
Definition sparkChar (idx : Z) : N := Z.to_N (9601 + idx).

(** The index of the glyph of one sample. *)
Definition sparkIndex (value : Z) : Z :=
  Z.max 0 (Z.min (8 - 1)
             (Math_round ((Number_of_Z value / 100) * Number_of_Z (8 - 1))%float)).

(** [sparkline(points, width)] of [App.tsx] and of [index.ts]; the samples
    are the integers [healthScore] returns. *)
Definition sparkline (points : list Z) (width : Z) : jsstring :=
  if (length points =? 0)%nat then String_repeat MIDDLE_DOT width
  else
    let tail := Array_sliceFrom points (- width) in
    let padded :=
      if (Z.of_nat (length tail) <? width)%Z
      then repeat 0%Z (Z.to_nat (width - Z.of_nat (length tail))) ++ tail
      else tail in
    map (fun value => sparkChar (sparkIndex value)) padded.

(** The key of the history effect:
    [`${state.status}|${state.lastUpdated?.getTime() ?? 0}|${health}`]. *)
Definition historyKey (state : AppState) (health : Z) : jsstring :=
  statusText (Types.status state) ++ lit "|"
  ++ String_of_Z (match lastUpdated state with
                  | Some d => getTime d
                  | None => 0%Z
                  end)
  ++ lit "|" ++ String_of_Z health.

(** [[...current, health]] with the oldest sample shifted out beyond
    [cap]. *)
Definition appendBounded (cap : nat) (current : list Z) (health : Z) : list Z :=
  let next := current ++ [health] in
  if (cap <? length next)%nat then tl next else next.

(** The state the effect keeps: [healthHistory] and the ref
    [lastHistoryKey]. *)
Record History : Type := mkHistory {
  healthHistory : list Z;
  lastHistoryKey : jsstring
}.

Definition noHistory : History :=
  {| healthHistory := []; lastHistoryKey := [] |}.

(** The history effect of [App.tsx] (capacity 200). *)
Definition recordHealth (state : AppState) (health : Z) (h : History) : History :=
  let key := historyKey state health in
  if JS.eqb key (lastHistoryKey h) then h
  else {| healthHistory := appendBounded 200 (healthHistory h) health;
          lastHistoryKey := key |}.

(** The same step in [repaint] of [index.ts] (capacity 120). *)
Definition recordScore (state : AppState) (score : Z) (h : History) : History :=
  let historyKey := historyKey state score in
  if negb (JS.eqb historyKey (lastHistoryKey h))
  then {| healthHistory := appendBounded 120 (healthHistory h) score;
          lastHistoryKey := historyKey |}
  else h.

(** [healthColor] of [App.tsx] ([scoreColor] of [index.ts] has the same
    thresholds). *)
Inductive Tone : Type := good | warn | bad | muted | accent | plain.

Definition healthColor (value : Z) : Tone :=
  if (80 <=? value)%Z then good
  else if (55 <=? value)%Z then warn
  else bad.

End Trend.

(** ** [ui/components/DetailPanel.tsx] and [ui/components/ProviderList.tsx] *)

Module Panels.

Import StatusModel Trend.

Definition lineColor (line : jsstring) : Tone :=
  if startsWith (lit "ERROR:") line then bad
  else if includes (lit "unavailable") line then bad
  else if includes (lit "skipped") line then warn
  else if endsWith (lit "window") line then accent
  else if startsWith (lit "used") line then warn
  else if includes (lit "remaining") line then good
  else plain.

Definition statusColor (status : option SectionStatus) : Tone :=
  match status with
  | Some Sec_ok => good
  | Some Sec_warning => warn
  | Some Sec_error => bad
  | None => muted
  end.

Definition padRight (value : jsstring) (width : Z) : jsstring :=
  if (width <=? Z.of_nat (length value))%Z then Array_slice value 0 width
  else padEnd value width SPACE.

Definition padLeft (value : jsstring) (width : Z) : jsstring :=
  if (width <=? Z.of_nat (length value))%Z then Array_slice value 0 width
  else padStart value width SPACE.

Definition sectionStatusText (s : SectionStatus) : jsstring :=
  match s with
  | Sec_ok => lit "ok"
  | Sec_warning => lit "warning"
  | Sec_error => lit "error"
  end.

Section Columns.

Variables compact tiny : bool.
Variable terminalWidth : Z.
Variable entries : list ProviderSummary.

(** [Math.max(8, ...entries.map(e => e.provider.label.length))]. *)
Definition maxName : Z :=
  fold_left Z.max (map (fun entry => Z.of_nat (length (label (provider entry)))) entries) 8%Z.

Definition nameWidth : Z := if tiny then 8%Z else Z.min 16 (Z.max 10 maxName).
Definition statusWidth : Z := if tiny then 4%Z else if compact then 7%Z else 8%Z.
Definition barWidth : Z := if tiny then 6%Z else if compact then 10%Z else 14%Z.
Definition scoreWidth : Z := 5%Z.
Definition showStatus : bool := negb tiny.
Definition showBar : bool := negb tiny || (66 <=? terminalWidth)%Z.
Definition showScore : bool := negb tiny.

(** The cells of one row. *)
Definition statusText (entry : ProviderSummary) : jsstring :=
  padRight (match section entry with
            | Some s => asciiUpper (sectionStatusText (StatusModel.status s))
            | None => lit "IDLE"
            end) statusWidth.

Definition pct (entry : ProviderSummary) : jsstring :=
  match avgRemaining entry with
  | None => lit "n/a"
  | Some avg => String_of_Z avg ++ lit "%"
  end.

Definition filled (entry : ProviderSummary) : Z :=
  match avgRemaining entry with
  | None => 0%Z
  | Some healthValue =>
      Math_round ((Number_of_Z healthValue / 100) * Number_of_Z barWidth)%float
  end.

Definition bar (entry : ProviderSummary) : jsstring :=
  padEnd (String_repeat BLOCK (filled entry)) barWidth MIDDLE_DOT.

Definition nameCell (entry : ProviderSummary) : jsstring :=
  padRight (label (provider entry)) nameWidth.

Definition score (entry : ProviderSummary) : jsstring :=
  padLeft (pct entry) scoreWidth.

End Columns.

End Panels.

(** ** More of [index.ts]: the meter, the line count and the layout *)

(** The literals 0.3 and 0.45 of the source denote their nearest binary64
    values, here as in JavaScript. *)
Set Warnings "-inexact-float".

Module Board.

(** [buildMeter(percent, width)]; its callers pass integers. *)
Definition buildMeter (percent width : Z) : jsstring :=
  let clamped := Z.max 0 (Z.min 100 percent) in
  let filled := Math_round ((Number_of_Z clamped / 100) * Number_of_Z width)%float in
  String_repeat BLOCK filled ++ String_repeat LIGHT_SHADE (Z.max 0 (width - filled)).

Definition countLines (content : jsstring) : Z :=
  if negb (truthy content) then 0%Z
  else Z.of_nat (length (split_lines content)).

(** A position or extent of a blessed widget: a number of cells or a
    percentage of the screen. *)
Inductive Size : Type := Cells (n : Z) | Percent (p : Z).

Record Box : Type := mkBox {
  top : Z;
  left : Size;
  width : Size;
  height : option Z;
  hidden : bool
}.

Inductive PanelName : Type := Copilot | Codex.

Inductive Mode : Type := studio | dual | focus | stack.

(** The variables of [runBlessed] that the layout reads and writes. *)
Record Widgets : Type := mkWidgets {
  layoutMode : Mode;
  activePanel : PanelName;
  copilotPanel : Box;
  codexPanel : Box;
  insights : Box
}.

(** The widgets as [runBlessed] creates them. *)
Definition initial : Widgets :=
  {| layoutMode := dual;
     activePanel := Copilot;
     copilotPanel := {| top := 7; left := Cells 0; width := Percent 50;
                        height := None; hidden := false |};
     codexPanel := {| top := 7; left := Percent 50; width := Percent 50;
                      height := None; hidden := false |};
     insights := {| top := 7; left := Percent 70; width := Percent 30;
                    height := None; hidden := false |} |}.

Definition show (b : Box) : Box :=
  {| top := top b; left := left b; width := width b; height := height b;
     hidden := false |}.

Definition hide (b : Box) : Box :=
  {| top := top b; left := left b; width := width b; height := height b;
     hidden := true |}.

Definition place (b : Box) (t : Z) (l w : Size) (h : Z) : Box :=
  {| top := t; left := l; width := w; height := Some h; hidden := hidden b |}.

Definition bodyTop : Z := 3 + 4.

Definition bodyHeight (rows : Z) : Z := Z.max 8 (rows - bodyTop - 1).

(** The heights of the stack mode. *)
Definition stackTop (rows copilotLines codexLines : Z) : Z :=
  let lineWeightTop := Z.max 10 copilotLines in
  let lineWeightBottom := Z.max 10 codexLines in
  let totalWeight := (lineWeightTop + lineWeightBottom)%Z in
  let topHeight :=
    Math_round ((Number_of_Z lineWeightTop / Number_of_Z totalWeight)
                * Number_of_Z (bodyHeight rows))%float in
  Z.max 8 (Z.min (bodyHeight rows - 8) topHeight).

Definition railWidth (cols : Z) : Z :=
  Z.max 30 (Math_floor (Number_of_Z cols * 0.3)%float).

Definition studioTop (rows : Z) : Z :=
  Z.max 10 (Math_floor (Number_of_Z (bodyHeight rows) * 0.45)%float).

Definition leftWidth (cols : Z) : Z := Math_floor (Number_of_Z cols / 2)%float.

(** [applyResponsiveLayout(copilotLines, codexLines)] on a screen of
    [cols] by [rows] cells. *)
Definition applyResponsiveLayout (cols rows copilotLines codexLines : Z)
           (w : Widgets) : Widgets :=
  if ((155 <=? cols) && (34 <=? rows))%Z then
    let mainWidth := (cols - railWidth cols)%Z in
    let topHeight := studioTop rows in
    let bottomHeight := (bodyHeight rows - topHeight)%Z in
    {| layoutMode := studio;
       activePanel := activePanel w;
       copilotPanel :=
         show (place (copilotPanel w) bodyTop (Cells 0) (Cells mainWidth) topHeight);
       codexPanel :=
         show (place (codexPanel w) (bodyTop + topHeight) (Cells 0)
                     (Cells mainWidth) bottomHeight);
       insights :=
         place (show (insights w)) bodyTop (Cells mainWidth)
               (Cells (railWidth cols)) (bodyHeight rows) |}
  else if (120 <=? cols)%Z then
    {| layoutMode := dual;
       activePanel := activePanel w;
       copilotPanel :=
         show (place (copilotPanel w) bodyTop (Cells 0) (Cells (leftWidth cols))
                     (bodyHeight rows));
       codexPanel :=
         show (place (codexPanel w) bodyTop (Cells (leftWidth cols))
                     (Cells (cols - leftWidth cols)) (bodyHeight rows));
       insights := hide (insights w) |}
  else if (cols <? 98)%Z then
    match activePanel w with
    | Copilot =>
        {| layoutMode := focus;
           activePanel := activePanel w;
           copilotPanel :=
             show (place (copilotPanel w) bodyTop (Cells 0) (Percent 100)
                         (bodyHeight rows));
           codexPanel := hide (codexPanel w);
           insights := hide (insights w) |}
    | Codex =>
        {| layoutMode := focus;
           activePanel := activePanel w;
           copilotPanel := hide (copilotPanel w);
           codexPanel :=
             show (place (codexPanel w) bodyTop (Cells 0) (Percent 100)
                         (bodyHeight rows));
           insights := hide (insights w) |}
    end
  else
    let topHeight := stackTop rows copilotLines codexLines in
    let bottomHeight := (bodyHeight rows - topHeight)%Z in
    {| layoutMode := stack;
       activePanel := activePanel w;
       copilotPanel :=
         show (place (copilotPanel w) bodyTop (Cells 0) (Percent 100) topHeight);
       codexPanel :=
         show (place (codexPanel w) (bodyTop + topHeight) (Cells 0) (Percent 100)
                     bottomHeight);
       insights := hide (insights w) |}.

(** The [tab] key. *)
Definition switchPanel (w : Widgets) : Widgets :=
  {| layoutMode := layoutMode w;
     activePanel := match activePanel w with Copilot => Codex | Codex => Copilot end;
     copilotPanel := copilotPanel w;
     codexPanel := codexPanel w;
     insights := insights w |}.

Definition panelBox (name : PanelName) (w : Widgets) : Box :=
  match name with Copilot => copilotPanel w | Codex => codexPanel w end.

Definition other (name : PanelName) : PanelName :=
  match name with Copilot => Codex | Codex => Copilot end.

End Board.


(** ** [ui/App.tsx]: the visible window and the view after a refresh *)

Module Viewport.

Import AppView.

Section Screen.

Variable toLowerCase : jsstring -> jsstring.
Variable providers : list Provider.
Variables width height : Z.

(** [detailLines.slice(detailOffset, detailOffset + detailHeight)]. *)
Definition visibleLines (v : View) : list jsstring :=
  Array_slice (detailLines toLowerCase providers v)
              (detailOffset v) (detailOffset v + detailHeight width height).

(** The render after [refreshNow] has resumed: the hook stores the
    snapshot, then the effects of [App] run.  (When the awaited promise is
    rejected instead, nothing is stored and nothing renders.) *)
Definition afterSettle (now : Date) (run : list Provider) (v : View) : View :=
  runEffects toLowerCase providers width height v
    {| cells := fst (Hook.refreshNow_resume
                       (Query.Returned (Query.queryProviders now run)) (cells v));
       detailOffset := detailOffset v |}.

(** The scroll offset lies between 0 and [maxOffset]. *)
Definition inRange (v : View) : Prop :=
  (0 <= detailOffset v <= maxOffset toLowerCase providers width height v)%Z.

(** What the user does or what happens to the view. *)
Inductive Happening : Type :=
| Pressed (key : Key)
| Settled (now : Date) (run : list Provider).

Definition happen (v : View) (e : Happening) : View :=
  match e with
  | Pressed key => press toLowerCase providers width height key v
  | Settled now run => afterSettle now run v
  end.

End Screen.

End Viewport.

(** ** Replaying renders through the history effect *)

Module Replay.

Import Trend.

(** One render: the state and the health score derived from it. *)
Definition renders (h : History) (frames : list (AppState * Z)) : History :=
  fold_left (fun h frame => recordHealth (fst frame) (snd frame) h) frames h.

Definition repaints (h : History) (frames : list (AppState * Z)) : History :=
  fold_left (fun h frame => recordScore (fst frame) (snd frame) h) frames h.

(** What the key is made of. *)
Definition keyParts (state : AppState) (health : Z) : Status * Z * Z :=
  (Types.status state,
   match lastUpdated state with Some d => getTime d | None => 0%Z end,
   health).

End Replay.


(** ** Finite ranges, for properties decided by evaluation *)

Module Ranges.

(** The integers 0 .. n. *)
Definition upto (n : nat) : list Z := map Z.of_nat (seq 0 (S n)).

(** The glyph of one sample of the trend line. *)
Definition glyph (value : Z) : N := Trend.sparkChar (Trend.sparkIndex value).

(** [round(a * b / 100)], halves upwards, on integers. *)
Definition roundedShare (a b : Z) : Z := ((2 * a * b + 100) / 200)%Z.

End Ranges.


(** ** The sections a complete fan-out puts into the content *)

Module Blocks.

Import StatusModel Spec.

(** What [queryProviders] writes below the marker line of a block. *)
Definition bodyOf (entry : Provider * QueryResult) : jsstring :=
  match snd entry with
  | Success output => output
  | Failure error => lit "ERROR: " ++ error
  end.

(** The sections of the joined blocks: every block but the last is
    followed by the blank line of the separator. *)
Fixpoint expectedSections (entries : list (Provider * QueryResult))
  : list ParsedSection :=
  match entries with
  | [] => []
  | entry :: rest =>
      {| name := trim (label (fst entry));
         lines := split_lines (bodyOf entry)
                  ++ match rest with [] => [] | _ :: _ => [[]] end;
         status := Sec_ok |}
      :: expectedSections rest
  end.

(** Every query promise is fulfilled with a success. *)
Definition succeeds (p : Provider) : Prop :=
  exists output, query p = Fulfilled (Success output).

(** The lower-cased label of a provider, the key [getProviderSection]
    compares. *)
Definition key (toLowerCase : jsstring -> jsstring) (p : Provider) : jsstring :=
  toLowerCase (trim (label p)).

End Blocks.



(** ** Two decimal digits *)

Module Clock.

(** The tens digit and the units digit of a number below 100. *)
Definition twoDigits (n : N) : jsstring := [48 + n / 10; 48 + n mod 10]%N.

Definition COLON : N := 58%N.

End Clock.



(** ** The quota lines of the providers ([providers/codex.ts],
    [providers/droid.ts]) *)

Module ProviderLines.

(** [progressBar(percentRemaining, width)] of the Codex provider; its
    caller passes the integer [remainPercent] returns. *)
Definition progressBar (percentRemaining width : Z) : jsstring :=
  let clamped := Z.max 0 (Z.min 100 percentRemaining) in
  let full := Math_round ((Number_of_Z clamped / 100) * Number_of_Z width)%float in
  lit "[" ++ String_repeat BLOCK full
  ++ String_repeat MIDDLE_DOT (width - full) ++ lit "]".

(** [remainPercent(usedPercent)], for a finite [usedPercent]. *)
Definition remainPercent (usedPercent : float) : Z :=
  Z.max 0 (Z.min 100 (Math_round (100 - usedPercent)%float)).

(** [formatWindow(window)]; [windowLabel], [resetsIn] and [resetAt] are
    the texts [windowLabel], [formatDuration] and
    [formatFutureTimeFromNow] return for the window. *)
Definition formatWindow (windowLabel resetsIn resetAt : jsstring)
           (used_percent : float) : list jsstring :=
  let remaining := remainPercent used_percent in
  let used := Z.max 0 (Z.min 100 (Math_round used_percent)) in
  [windowLabel;
   progressBar remaining 24 ++ lit " " ++ String_of_Z remaining ++ lit "% remaining";
   lit "used " ++ String_of_Z used ++ lit "%";
   lit "resets in " ++ resetsIn;
   lit "reset at " ++ resetAt].

(** [bar(percent, width)] of the Droid provider. *)
Definition bar (percent width : Z) : jsstring :=
  let clamped := Z.max 0 (Z.min 100 percent) in
  let full := Math_round ((Number_of_Z clamped / 100) * Number_of_Z width)%float in
  lit "[" ++ String_repeat BLOCK full
  ++ String_repeat MIDDLE_DOT (width - full) ++ lit "]".

(** [normalizePercentUsed(raw)], on every binary64 value. *)
Definition normalizePercentUsed (raw : float) : Z :=
  if negb (PrimFloat.is_finite raw) then 0%Z
  else if (raw <=? 1)%float
       then Z.max 0 (Z.min 100 (Math_round (raw * 100)%float))
       else Z.max 0 (Z.min 100 (Math_round raw)).

(** [tierLine(label, tier)]: [usedRatio] is [Number(tier?.usedRatio ?? 0)],
    [used] and [total] are the renderings of the two token counts. *)
Definition tierLine (label : jsstring) (usedRatio : float)
           (used total : jsstring) : jsstring :=
  let usedPercent := normalizePercentUsed usedRatio in
  let remainingPercent := Z.max 0 (100 - usedPercent) in
  padEnd label 12 SPACE ++ lit " " ++ bar remainingPercent 22 ++ lit " "
  ++ String_of_Z remainingPercent ++ lit "% remaining (" ++ used ++ lit "/"
  ++ total ++ lit ")".

(** The percent sign. *)
Definition PERCENT : N := 37%N.

End ProviderLines.



(* ================================================================== *)
(** * Part II.  Properties                                             *)
(* ================================================================== *)

Unset Implicit Arguments.

(** Literals stay folded under [simpl]; [vm_compute] still evaluates them. *)
Opaque lit.

(** ** The query fan-out *)

Module QueryFacts.

Import Query Spec.

Lemma firstRejection_fulfilled providers results :
  Forall2 settledWith providers results ->
  firstRejection providers = None.
Proof.
  induction 1 as [| p r ps rs Hp _ IH]; simpl.
  - reflexivity.
  - unfold settledWith in Hp. rewrite Hp. exact IH.
Qed.

Lemma fulfilled_combine providers results :
  Forall2 settledWith providers results ->
  fulfilled providers = combine providers results.
Proof.
  induction 1 as [| p r ps rs Hp _ IH]; simpl.
  - reflexivity.
  - unfold settledWith in Hp. rewrite Hp, IH. reflexivity.
Qed.

Lemma Promise_all_fulfilled providers results :
  Forall2 settledWith providers results ->
  Promise_all providers = inl (combine providers results).
Proof.
  intros H. unfold Promise_all.
  rewrite (firstRejection_fulfilled _ _ H), (fulfilled_combine _ _ H). reflexivity.
Qed.

(** The loop invariant of [for (const { provider, result } of results)]:
    [sections] grows by one block per entry and [failures] by one line per
    failed entry. *)
Lemma collect_loop entries : forall sections failures,
  exists lines,
    fold_left collect entries (sections, failures)
    = (sections ++ map blockOf entries, failures ++ lines)
    /\ length lines = failureCount (map snd entries).
Proof.
  induction entries as [| [p r] rest IH]; intros sections failures.
  - exists []. simpl. now rewrite !app_nil_r.
  - destruct r as [output | error].
    + destruct (IH (sections ++ [lit "## " ++ label p ++ [LF] ++ output]) failures)
        as [ls [Hfold Hlen]].
      exists ls. split; [| exact Hlen].
      simpl in Hfold |- *. rewrite Hfold, <- app_assoc. reflexivity.
    + destruct (IH (sections ++ [lit "## " ++ label p ++ [LF] ++ lit "ERROR: " ++ error])
                   (failures ++ [label p ++ lit ": " ++ error]))
        as [ls [Hfold Hlen]].
      exists ((label p ++ lit ": " ++ error) :: ls). split.
      * simpl in Hfold |- *. rewrite Hfold, <- !app_assoc. reflexivity.
      * unfold failureCount in *. simpl. now rewrite Hlen.
Qed.

Lemma snd_combine (providers : list Provider) (results : list QueryResult) :
  length providers = length results ->
  map snd (combine providers results) = results.
Proof.
  revert results. induction providers as [| p ps IH]; intros [| r rs] H;
    simpl in *; try discriminate; try reflexivity.
  f_equal. apply IH. now injection H.
Qed.

(** What a fan-out in which every query promise is fulfilled returns. *)
Lemma queryProviders_fulfilled now providers results :
  Forall2 settledWith providers results ->
  queryProviders now providers
  = {| lastUpdated := Some now;
       status := if (failureCount results =? 0)%nat then St_ok else St_error;
       content := join [LF; LF] (map blockOf (combine providers results));
       message := if (failureCount results =? 0)%nat then []
                  else String_of_N (N.of_nat (failureCount results))
                         ++ lit " provider(s) failed." |}.
Proof.
  intros H. unfold queryProviders.
  rewrite (Promise_all_fulfilled _ _ H).
  destruct (collect_loop (combine providers results) [] []) as [ls [Hfold Hlen]].
  rewrite Hfold. simpl.
  rewrite snd_combine in Hlen by (eapply Forall2_length; eassumption).
  rewrite Hlen. reflexivity.
Qed.

Lemma refresh_resume_fulfilled now providers results g :
  Forall2 settledWith providers results ->
  Legacy.state (fst (Legacy.refresh_resume now providers g))
  = queryProviders now providers.
Proof.
  intros H. unfold Legacy.refresh_resume, queryProviders.
  rewrite (Promise_all_fulfilled _ _ H). simpl.
  destruct (fold_left collect (combine providers results) ([], [])).
  reflexivity.
Qed.

(** The earliest rejection is the reason [Promise.all] rejects with. *)
Lemma firstRejection_some providers :
  Exists rejects providers ->
  exists p t e,
    In p providers /\ query p = Rejected t e
    /\ firstRejection providers = Some (t, e)
    /\ forall p' t' e', In p' providers -> query p' = Rejected t' e' -> t <= t'.
Proof.
  induction providers as [| p ps IH]; intros Hex.
  - inversion Hex.
  - simpl. destruct (query p) as [r | t e] eqn:Hq.
    + assert (Hps : Exists rejects ps).
      { inversion Hex as [? ? [t [e He]] | ? ? Hrest]; subst; [congruence | exact Hrest]. }
      destruct (IH Hps) as [p0 [t0 [e0 [Hin [Hq0 [Hfirst Hmin]]]]]].
      exists p0, t0, e0. repeat split; auto.
      intros p' t' e' [-> | Hin'] Hq'; [congruence | eauto].
    + destruct (firstRejection ps) as [[t1 e1] |] eqn:Hrest.
      * assert (Hps : Exists rejects ps).
        { clear - Hrest. induction ps as [| q qs IHq]; simpl in Hrest; [discriminate |].
          destruct (query q) as [r | t e] eqn:Hq.
          - right. auto.
          - left. now exists t, e. }
        destruct (IH Hps) as [p0 [t0 [e0 [Hin [Hq0 [Hfirst Hmin]]]]]].
        injection Hfirst as -> ->.
        destruct (t0 <? t)%nat eqn:Hlt.
        -- apply Nat.ltb_lt in Hlt.
           exists p0, t0, e0. repeat split; auto.
           intros p' t' e' [-> | Hin'] Hq'; [| eauto].
           rewrite Hq in Hq'. injection Hq' as <- <-. lia.
        -- apply Nat.ltb_ge in Hlt.
           exists p, t, e. repeat split; auto.
           intros p' t' e' [-> | Hin'] Hq'.
           ++ rewrite Hq in Hq'. injection Hq' as <- <-. lia.
           ++ specialize (Hmin _ _ _ Hin' Hq'). lia.
      * exists p, t, e. repeat split; auto.
        intros p' t' e' [-> | Hin'] Hq'.
        -- rewrite Hq in Hq'. injection Hq' as <- <-. lia.
        -- exfalso. clear - Hrest Hin' Hq'.
           induction ps as [| q qs IHq]; [inversion Hin' |].
           simpl in Hrest. destruct Hin' as [-> | Hin'].
           ++ rewrite Hq' in Hrest. destruct (firstRejection qs) as [[? ?] |];
                [destruct (_ <? _)%nat |]; discriminate.
           ++ destruct (query q); [auto |].
              destruct (firstRejection qs) as [[? ?] |];
                [destruct (_ <? _)%nat |]; discriminate.
Qed.

End QueryFacts.

Module FanOut.

Import Query Spec QueryFacts.

(** C1.  A completed fan-out builds one snapshot: its content is the
    blocks of the providers, one per provider and in provider order,
    joined by [Array.prototype.join] (a blank line between two blocks),
    where a block is "## " + label + "\n" + text for a success and
    "## " + label + "\nERROR: " + message for a failure; its status is
    [ok] when no outcome failed and [error] otherwise; its message is
    empty on full success and "<n> provider(s) failed." with [n] the
    number of failures otherwise; its timestamp is set to the completion
    instant.  The same holds of the state that [refresh] of the blessed
    entry point leaves behind. *)
Theorem completed_fanout_snapshot now providers results g :
  Forall2 settledWith providers results ->
  let n := failureCount results in
  let built (snapshot : AppState) :=
    content snapshot = join [LF; LF] (map blockOf (combine providers results))
    /\ length (map blockOf (combine providers results)) = length providers
    /\ Types.status snapshot = (if (n =? 0)%nat then St_ok else St_error)
    /\ message snapshot
       = (if (n =? 0)%nat then []
          else String_of_N (N.of_nat n) ++ lit " provider(s) failed.")
    /\ lastUpdated snapshot = Some now in
  built (queryProviders now providers)
  /\ built (Legacy.state (fst (Legacy.refresh_resume now providers g))).
Proof.
  intros H n built.
  assert (Hlen : length (map blockOf (combine providers results)) = length providers).
  { rewrite length_map, length_combine, <- (Forall2_length H). apply Nat.min_id. }
  assert (Hq : built (queryProviders now providers)).
  { unfold built. rewrite (queryProviders_fulfilled now _ _ H). simpl.
    repeat split; auto. }
  split; [exact Hq |].
  rewrite (refresh_resume_fulfilled now _ _ g H). exact Hq.
Qed.

Lemma completed_fanout_snapshot_witness :
  Forall2 settledWith Samples.three Samples.threeResults
  /\ Types.status (queryProviders Samples.noon Samples.three) = St_error
  /\ message (queryProviders Samples.noon Samples.three)
     = lit "1 provider(s) failed.".
Proof.
  assert (H : Forall2 settledWith Samples.three Samples.threeResults)
    by (repeat constructor).
  split; [exact H |].
  destruct (completed_fanout_snapshot Samples.noon _ _ Legacy.initial H)
    as [[_ [_ [Hs [Hm _]]]] _].
  split; [exact Hs | exact Hm].
Defined.

Lemma settle_tryBlock now providers :
  settle now (tryBlock providers) = Returned (queryProviders now providers).
Proof.
  unfold tryBlock, queryProviders, settle.
  destruct (Promise_all providers) as [results | error]; [| reflexivity].
  now destruct (fold_left collect results ([], [])).
Qed.

(** C6 (as amended).  A fan-out that throws a value with a text before
    completion yields the snapshot with status [error], empty content, a
    null timestamp and, as its whole message, that text: the message of
    an [Error], the [String] rendering of any other value.  Over
    providers it is the text of the earliest rejection.  When the text of
    the thrown value cannot be taken, no snapshot is produced: the promise
    of [queryProviders] is rejected.  A provider's failure outcome is a
    fulfilled promise: when every promise is fulfilled, with successes or
    failures, the [try] block collects every outcome, the timestamp is set
    and the content holds the block of every provider. *)
Theorem thrown_fanout_snapshot now :
  (forall text,
      settle now (Raised (Printable (ErrorObject text)))
      = Returned {| lastUpdated := None; status := St_error;
                    content := []; message := text |})
  /\ (forall rendering,
        settle now (Raised (Printable (OtherValue rendering)))
        = Returned {| lastUpdated := None; status := St_error;
                      content := []; message := rendering |})
  /\ settle now (Raised Unprintable) = Threw
  /\ (forall providers,
        settle now (tryBlock providers) = Returned (queryProviders now providers))
  /\ (forall providers,
        Exists rejects providers ->
        exists p t e,
          In p providers /\ query p = Rejected t e
          /\ (forall p' t' e',
                 In p' providers -> query p' = Rejected t' e' -> t <= t')
          /\ tryBlock providers = Raised (Printable e)
          /\ queryProviders now providers
             = {| lastUpdated := None; status := St_error;
                  content := [];
                  message := match e with
                             | ErrorObject text => text
                             | OtherValue rendering => rendering
                             end |})
  /\ (forall providers results,
        Forall2 settledWith providers results ->
        tryBlock providers = Collected (combine providers results)
        /\ lastUpdated (queryProviders now providers) = Some now
        /\ content (queryProviders now providers)
           = join [LF; LF] (map blockOf (combine providers results))
        /\ length (map blockOf (combine providers results)) = length providers).
Proof.
  split; [reflexivity |]. split; [reflexivity |]. split; [reflexivity |].
  split; [intros providers; apply settle_tryBlock |]. split.
  - intros providers Hex.
    destruct (firstRejection_some _ Hex) as [p [t [e [Hin [Hq [Hfirst Hmin]]]]]].
    exists p, t, e. split; [exact Hin |]. split; [exact Hq |].
    split; [exact Hmin |]. split.
    + unfold tryBlock, Promise_all. now rewrite Hfirst.
    + unfold queryProviders, Promise_all. rewrite Hfirst.
      destruct e; reflexivity.
  - intros providers results H. split.
    + unfold tryBlock. now rewrite (Promise_all_fulfilled _ _ H).
    + rewrite (queryProviders_fulfilled now _ _ H). simpl.
      repeat split.
      rewrite length_map, length_combine, <- (Forall2_length H). apply Nat.min_id.
Qed.

Lemma thrown_fanout_snapshot_witness :
  queryProviders Samples.noon Samples.withThrow
  = {| lastUpdated := None; status := St_error;
       content := []; message := lit "spawn amp ENOENT" |}
  /\ lastUpdated (queryProviders Samples.noon Samples.three) = Some Samples.noon.
Proof.
  destruct (thrown_fanout_snapshot Samples.noon) as [_ [_ [_ [_ [Hthrown Hdone]]]]].
  split.
  - destruct (Hthrown Samples.withThrow) as [p [t [e [Hin [Hq [_ [_ Hsnap]]]]]]].
    + right. left. exists 7, (ErrorObject (lit "spawn amp ENOENT")). reflexivity.
    + rewrite Hsnap. f_equal.
      destruct Hin as [<- | [<- | [<- | []]]]; try discriminate.
      injection Hq as _ <-. reflexivity.
  - apply (Hdone Samples.three Samples.threeResults).
    repeat constructor.
Defined.

(** The claim as first stated - every fan-out that throws yields a
    snapshot - fails on a thrown value whose text cannot be taken. *)
Lemma thrown_fanout_stated_counterexample :
  settle Samples.noon (Raised Unprintable) = Threw
  /\ ~ (forall now caught,
          exists snapshot,
            settle now (Raised caught) = Returned snapshot
            /\ Types.status snapshot = St_error
            /\ content snapshot = []
            /\ lastUpdated snapshot = None).
Proof.
  split; [reflexivity |].
  intros H. destruct (H Samples.noon Unprintable) as [snapshot [Hs _]].
  discriminate Hs.
Qed.

End FanOut.

(** ** Strings *)

Module StringFacts.

Import Spec.

Lemma startsWith_beginsWith p s :
  startsWith p s = true <-> beginsWith p s.
Proof.
  unfold beginsWith. revert s.
  induction p as [| a p IH]; intros s; simpl.
  - split; [intros _; now exists s | reflexivity].
  - destruct s as [| b s].
    + split; [discriminate | intros [rest H]; discriminate].
    + rewrite andb_true_iff, N.eqb_eq, IH. split.
      * intros [-> [rest ->]]. now exists rest.
      * intros [rest H]. injection H as -> ->. split; [reflexivity | now exists rest].
Qed.

Lemma includes_contains n s :
  includes n s = true <-> contains n s.
Proof.
  unfold contains. induction s as [| c s IH].
  - simpl. rewrite orb_false_r, startsWith_beginsWith. split.
    + intros [rest H]. exists [], rest. exact H.
    + intros [before [after H]]. destruct before as [| b before].
      * now exists after.
      * discriminate.
  - change (includes n (c :: s)) with (startsWith n (c :: s) || includes n s).
    rewrite orb_true_iff, startsWith_beginsWith, IH. split.
    + intros [[rest H] | [before [after H]]].
      * exists [], rest. exact H.
      * exists (c :: before), after. simpl. now rewrite H.
    + intros [[| b before] [after H]].
      * left. now exists after.
      * right. injection H as -> ->. now exists before, after.
Qed.

Lemma split_lines_cons_nonempty s : split_lines s <> [].
Proof.
  destruct s as [| c s]; simpl; [discriminate |].
  destruct (N.eqb c LF); [discriminate |].
  destruct (split_lines s); discriminate.
Qed.

Lemma split_lines_app x y :
  split_lines (x ++ LF :: y) = split_lines x ++ split_lines y.
Proof.
  induction x as [| c x IH]; simpl.
  - reflexivity.
  - destruct (N.eqb c LF).
    + now rewrite IH.
    + rewrite IH. pose proof (split_lines_cons_nonempty x).
      destruct (split_lines x); [contradiction | reflexivity].
Qed.

(** A string without a line feed is one line, also in front of more text. *)
Lemma split_lines_prefix a b :
  ~ In LF a ->
  split_lines (a ++ b)
  = (a ++ hd [] (split_lines b)) :: tl (split_lines b).
Proof.
  induction a as [| c a IH]; intros Hno; simpl.
  - pose proof (split_lines_cons_nonempty b).
    destruct (split_lines b); [contradiction | reflexivity].
  - destruct (N.eqb c LF) eqn:Hc.
    + apply N.eqb_eq in Hc. exfalso. apply Hno. now left.
    + rewrite IH by (intros Hin; apply Hno; now right). reflexivity.
Qed.

Lemma split_lines_single a : ~ In LF a -> split_lines a = [a].
Proof.
  intros H. rewrite <- (app_nil_r a) at 1.
  rewrite (split_lines_prefix a [] H). simpl. now rewrite app_nil_r.
Qed.

(** No line produced by [split_lines] holds a line feed. *)
Lemma split_lines_no_LF s : Forall (fun l => ~ In LF l) (split_lines s).
Proof.
  induction s as [| c s IH]; simpl.
  - constructor; [intros [] | constructor].
  - destruct (N.eqb c LF) eqn:Hc.
    + constructor; [intros [] | exact IH].
    + apply N.eqb_neq in Hc.
      destruct (split_lines s) as [| l ls].
      * constructor; [| constructor].
        intros [H | []]. contradiction.
      * inversion IH as [| ? ? Hl Hls]; subst. constructor; [| exact Hls].
        intros [H | Hin]; [contradiction | auto].
Qed.

Lemma trimStart_suffix s : exists ws, s = ws ++ trimStart s.
Proof.
  induction s as [| c s [ws IH]]; simpl.
  - now exists [].
  - destruct (isWhiteSpace c).
    + exists (c :: ws). simpl. now rewrite <- IH.
    + now exists [].
Qed.

Lemma trimStart_app_keeps x c :
  isWhiteSpace c = false -> trimStart (x ++ [c]) <> [].
Proof.
  intros Hc. induction x as [| d x IH]; simpl.
  - now rewrite Hc.
  - destruct (isWhiteSpace d); [exact IH | discriminate].
Qed.

(** Text that begins with a character that is not white space is not
    blank. *)
Lemma trim_nonblank c s : isWhiteSpace c = false -> trim (c :: s) <> [].
Proof.
  intros Hc. unfold trim, trimEnd. simpl. rewrite Hc. simpl.
  intros H. apply (f_equal (@rev N)) in H. rewrite rev_involutive in H.
  simpl in H. now apply (trimStart_app_keeps (rev s) c Hc).
Qed.

(** Trimming removes characters only: what is left was in the text. *)
Lemma trim_incl s : incl (trim s) s.
Proof.
  assert (Hstart : forall t, incl (trimStart t) t).
  { intros t. destruct (trimStart_suffix t) as [ws H].
    intros x Hx. rewrite H. apply in_or_app. now right. }
  unfold trim, trimEnd. intros x Hx.
  apply in_rev in Hx. apply Hstart in Hx. apply in_rev in Hx.
  now apply Hstart.
Qed.

End StringFacts.

(** ** The section parser *)

Module ParserFacts.

Import StatusModel Spec StringFacts.

(** Loop invariant of [for (const line of content.split("\n"))]. *)
Lemma scan_loop ls : forall sections active,
  finish (fold_left scanLine ls (sections, active))
  = sections ++ closing active (grouped (fun line => trim (remainder line)) ls).
Proof.
  induction ls as [| line rest IH]; intros sections active.
  - simpl. destruct active as [[n l s] |]; unfold finish; simpl.
    + now rewrite app_nil_r.
    + now rewrite app_nil_r.
  - change (fold_left scanLine (line :: rest) (sections, active))
      with (fold_left scanLine rest (scanLine (sections, active) line)).
    rewrite (surjective_pairing (scanLine (sections, active) line)), IH.
    unfold scanLine, slice. simpl grouped. unfold isMarker.
    destruct (grouped (fun l => trim (remainder l)) rest) as [pending opened].
    unfold remainder.
    destruct (startsWith (lit "## ") line);
      destruct active as [[n l s] |]; simpl;
      rewrite ?app_nil_r, <- ?app_assoc; reflexivity.
Qed.

Lemma parseSections_unfold content :
  parseSections content
  = if truthy (trim content)
    then map classify
           (closing None (grouped (fun line => trim (remainder line))
                                  (split_lines content)))
    else [].
Proof.
  unfold parseSections. destruct (truthy (trim content)); simpl; [| reflexivity].
  pose proof (scan_loop (split_lines content) [] None) as H.
  destruct (fold_left scanLine (split_lines content) ([], None)) as [secs act].
  unfold finish in H. simpl in H. now rewrite H.
Qed.

Lemma shape_classify s : shape (classify s) = shape s.
Proof.
  unfold classify. destruct (existsb _ _); [reflexivity |].
  destruct (existsb _ _); reflexivity.
Qed.

Lemma shape_plain entries : map shape (map plain entries) = entries.
Proof.
  induction entries as [| [n l] rest IH]; simpl; [reflexivity |].
  now rewrite IH.
Qed.

(** The parser computes the grouping of the specification, with trimmed
    names and with blank content taken for empty. *)
Lemma parseSections_shapes content :
  map shape (parseSections content) = trimmedSections content.
Proof.
  rewrite parseSections_unfold. unfold trimmedSections, sectionsOf.
  destruct (trim content) as [| c t]; simpl; [reflexivity |].
  rewrite map_map. rewrite (map_ext _ shape shape_classify).
  destruct (grouped _ (split_lines content)) as [pending opened].
  unfold closing. simpl.
  destruct pending as [| l pending]; simpl.
  - apply shape_plain.
  - now rewrite shape_plain.
Qed.

(** Before the second loop every section carries the status [ok]. *)
Lemma parseSections_classified content s :
  In s (parseSections content) ->
  exists s0, s = classify s0 /\ status s0 = Sec_ok.
Proof.
  rewrite parseSections_unfold.
  destruct (truthy (trim content)); [| intros []].
  intros Hin. apply in_map_iff in Hin. destruct Hin as [s0 [<- Hin]].
  exists s0. split; [reflexivity |].
  destruct (grouped _ (split_lines content)) as [pending opened].
  unfold closing in Hin. simpl in Hin.
  assert (Hplain : forall e, In s0 (map plain e) -> status s0 = Sec_ok).
  { intros e H. apply in_map_iff in H. destruct H as [x [<- _]]. reflexivity. }
  destruct pending; [eauto |].
  destruct Hin as [<- | Hin]; [reflexivity | eauto].
Qed.

End ParserFacts.

Module Parser.

Import StatusModel Spec StringFacts ParserFacts.

Section Grouping.

Variable nameOf : jsstring -> jsstring.

Lemma grouped_lines ls :
  fst (grouped nameOf ls) ++ concat (map snd (snd (grouped nameOf ls)))
  = filter (fun l => negb (isMarker l)) ls.
Proof.
  induction ls as [| line rest IH]; simpl; [reflexivity |].
  destruct (grouped nameOf rest) as [pending opened].
  destruct (isMarker line); simpl in *; now rewrite IH.
Qed.

Lemma grouped_names ls :
  map fst (snd (grouped nameOf ls)) = map nameOf (filter isMarker ls).
Proof.
  induction ls as [| line rest IH]; simpl; [reflexivity |].
  destruct (grouped nameOf rest) as [pending opened].
  destruct (isMarker line); simpl in *; now rewrite IH.
Qed.

(** Lines are pending at the end exactly when the first line is not a
    marker. *)
Lemma grouped_pending ls :
  fst (grouped nameOf ls) = []
  <-> match ls with [] => True | l :: _ => isMarker l = true end.
Proof.
  destruct ls as [| line rest]; simpl; [tauto |].
  destruct (grouped nameOf rest) as [pending opened].
  destruct (isMarker line); simpl; split; auto; discriminate.
Qed.

Lemma sectionsOf_lines ls :
  concat (map snd (sectionsOf nameOf ls))
  = filter (fun l => negb (isMarker l)) ls.
Proof.
  rewrite <- grouped_lines. unfold sectionsOf.
  destruct (grouped nameOf ls) as [[| l pending] opened]; reflexivity.
Qed.

Lemma sectionsOf_names ls :
  map fst (sectionsOf nameOf ls)
  = match ls with
    | [] => []
    | l :: _ => if isMarker l then [] else [lit "General"]
    end ++ map nameOf (filter isMarker ls).
Proof.
  rewrite <- grouped_names. unfold sectionsOf.
  pose proof (grouped_pending ls) as Hp.
  destruct (grouped nameOf ls) as [pending opened]. simpl in *.
  destruct ls as [| l rest].
  - destruct pending; [reflexivity |]. discriminate (proj2 Hp I).
  - destruct (isMarker l).
    + now rewrite (proj2 Hp eq_refl).
    + destruct pending; [| reflexivity].
      discriminate (proj1 Hp eq_refl).
Qed.

End Grouping.

Lemma map_fst_shape secs : map fst (map shape secs) = map name secs.
Proof. rewrite map_map. reflexivity. Qed.

Lemma map_snd_shape secs : map snd (map shape secs) = map lines secs.
Proof. rewrite map_map. reflexivity. Qed.

(** C2 (as amended).  [parseSections] splits the content on newline; each
    line beginning with "## " opens a new section, named by the remainder
    of that line with surrounding white space removed, and closes the
    section open before it; non-marker lines ahead of the first marker
    form the implicit section "General"; every non-marker line is appended
    verbatim and in order to the active section, blank lines included;
    content that is empty or consists of white space only yields the empty
    list. *)
Theorem parseSections_grouping content :
  map shape (parseSections content) = trimmedSections content
  /\ (trim content = [] -> parseSections content = [])
  /\ (trim content <> [] ->
      concat (map lines (parseSections content))
      = filter (fun l => negb (isMarker l)) (split_lines content)
      /\ map name (parseSections content)
         = match split_lines content with
           | [] => []
           | l :: _ => if isMarker l then [] else [lit "General"]
           end
           ++ map (fun l => trim (remainder l))
                  (filter isMarker (split_lines content))).
Proof.
  pose proof (parseSections_shapes content) as Hs.
  split; [exact Hs |]. split.
  - intros Hblank. rewrite parseSections_unfold, Hblank. reflexivity.
  - intros Hnb.
    rewrite <- map_snd_shape, <- map_fst_shape, Hs.
    unfold trimmedSections. destruct (trim content); [contradiction |].
    split; [apply sectionsOf_lines | apply sectionsOf_names].
Qed.

Lemma parseSections_grouping_witness :
  map shape (parseSections ParserSamples.mixed)
  = [(lit "General", [lit "intro"]);
     (lit "Codex", [lit "5h window"; []; lit "used 20%"])]
  /\ concat (map lines (parseSections ParserSamples.mixed))
     = [lit "intro"; lit "5h window"; []; lit "used 20%"]
  /\ parseSections [LF; 32%N; 9%N] = [].
Proof.
  destruct (parseSections_grouping ParserSamples.mixed) as [Hs [_ Hfull]].
  destruct (parseSections_grouping [LF; 32%N; 9%N]) as [_ [Hblank _]].
  split; [| split].
  - rewrite Hs. vm_compute. reflexivity.
  - destruct Hfull as [Hlines _]; [vm_compute; discriminate |].
    rewrite Hlines. vm_compute. reflexivity.
  - apply Hblank. vm_compute. reflexivity.
Defined.

(** C2 as the specification states it fails: a name keeps no surrounding
    white space, and white space alone is content that yields no
    section. *)
Lemma parseSections_stated_counterexample :
  (map shape (parseSections (lit "## A ")) = [(lit "A", [])]
   /\ statedSections (lit "## A ") = [(lit "A ", [])])
  /\ (map shape (parseSections (lit " ")) = []
      /\ statedSections (lit " ") = [(lit "General", [lit " "])])
  /\ ~ (forall content, map shape (parseSections content) = statedSections content).
Proof.
  assert (H1 : map shape (parseSections (lit "## A ")) = [(lit "A", [])])
    by (vm_compute; reflexivity).
  assert (H2 : statedSections (lit "## A ") = [(lit "A ", [])])
    by (vm_compute; reflexivity).
  repeat split; try (vm_compute; reflexivity).
  intros H. specialize (H (lit "## A ")). rewrite H1, H2 in H.
  vm_compute in H. discriminate H.
Qed.

Lemma existsb_someLine (f : jsstring -> bool) (P : jsstring -> Prop) s :
  (forall line, f line = true <-> P line) ->
  existsb f (lines s) = true <-> someLine P s.
Proof.
  intros Hf. rewrite existsb_exists. unfold someLine.
  split; intros [line [Hin H]]; exists line; split; auto; now apply Hf.
Qed.

Lemma errorLine_test line :
  startsWith (lit "ERROR:") line || includes (lit "unavailable") line = true
  <-> errorLine line.
Proof.
  unfold errorLine.
  now rewrite orb_true_iff, startsWith_beginsWith, includes_contains.
Qed.

Lemma skippedLine_test line :
  includes (lit "skipped") line = true <-> skippedLine line.
Proof. apply includes_contains. Qed.

(** C3.  The status of every parsed section follows from its lines alone,
    in priority order: [error] if some line starts with "ERROR:" or
    contains "unavailable"; otherwise [warning] if some line contains
    "skipped"; otherwise [ok]; the position of the matching line in the
    section plays no part.  A section whose only marker line contains
    "skipped" is classified [warning]. *)
Theorem section_status_by_lines content s :
  In s (parseSections content) ->
  (status s = Sec_error <-> someLine errorLine s)
  /\ (status s = Sec_warning
      <-> ~ someLine errorLine s /\ someLine skippedLine s)
  /\ (status s = Sec_ok
      <-> ~ someLine errorLine s /\ ~ someLine skippedLine s).
Proof.
  intros Hin.
  destruct (parseSections_classified content s Hin) as [s0 [-> Hok]].
  assert (Hlines : forall P, someLine P (classify s0) <-> someLine P s0).
  { intros P. unfold someLine.
    replace (lines (classify s0)) with (lines s0); [tauto |].
    unfold classify. destruct (existsb _ _); [reflexivity |].
    destruct (existsb _ _); reflexivity. }
  rewrite !Hlines. unfold classify.
  destruct (existsb (fun line => startsWith (lit "ERROR:") line
                                 || includes (lit "unavailable") line)
                    (lines s0)) eqn:E1.
  - apply (existsb_someLine _ _ s0 errorLine_test) in E1. simpl.
    intuition (try discriminate; try congruence).
  - assert (Hne : ~ someLine errorLine s0).
    { intros H. apply (existsb_someLine _ _ s0 errorLine_test) in H.
      exact (eq_true_false_abs _ H E1). }
    destruct (existsb (fun line => includes (lit "skipped") line) (lines s0)) eqn:E2.
    + apply (existsb_someLine _ _ s0 skippedLine_test) in E2. simpl.
      intuition (try discriminate; try congruence).
    + assert (Hnw : ~ someLine skippedLine s0).
      { intros H. apply (existsb_someLine _ _ s0 skippedLine_test) in H.
        exact (eq_true_false_abs _ H E2). }
      rewrite Hok.
      intuition (try discriminate; try congruence).
Qed.

Lemma section_status_by_lines_witness :
  exists s,
    parseSections ParserSamples.skippedOnly = [s]
    /\ status s = Sec_warning
    /\ ~ someLine errorLine s /\ someLine skippedLine s.
Proof.
  exists {| name := lit "Gemini";
            lines := [lit "Plan         free";
                      lit "Quota        skipped (no token)"];
            status := Sec_warning |}.
  assert (Hp : parseSections ParserSamples.skippedOnly
               = [{| name := lit "Gemini";
                     lines := [lit "Plan         free";
                               lit "Quota        skipped (no token)"];
                     status := Sec_warning |}])
    by (vm_compute; reflexivity).
  split; [exact Hp |]. split; [reflexivity |].
  apply (section_status_by_lines ParserSamples.skippedOnly).
  - rewrite Hp. now left.
  - reflexivity.
Defined.

End Parser.

(** ** The parser applied to the content the fan-out builds *)

Module RoundTrip.

Import Query StatusModel Spec StringFacts ParserFacts QueryFacts.

Lemma lit_marker : lit "## " = [35; 35; 32]%N.
Proof. vm_compute. reflexivity. Qed.

Lemma lit_error : lit "ERROR: " = [69; 82; 82; 79; 82; 58; 32]%N.
Proof. vm_compute. reflexivity. Qed.

Lemma isMarker_markerLine entry : isMarker (markerLine entry) = true.
Proof.
  unfold isMarker, markerLine. apply startsWith_beginsWith.
  now exists (label (fst entry)).
Qed.

Lemma markerLine_no_LF entry :
  ~ In LF (label (fst entry)) -> ~ In LF (markerLine entry).
Proof.
  intros H Hin. unfold markerLine in Hin. rewrite lit_marker in Hin.
  simpl in Hin. destruct Hin as [E | [E | [E | Hin]]];
    try discriminate E. contradiction.
Qed.

Lemma name_of_markerLine entry :
  trim (remainder (markerLine entry)) = trim (label (fst entry)).
Proof. unfold remainder, markerLine. now rewrite lit_marker. Qed.

(** The lines of one block: its marker line, then lines that are not
    markers. *)
Lemma block_lines entry :
  wellFormed entry ->
  exists body,
    split_lines (blockOf entry) = markerLine entry :: body
    /\ Forall (fun l => isMarker l = false) body.
Proof.
  intros [Hlabel Hfree]. destruct entry as [p r]. simpl in *.
  assert (Hsplit : forall text,
             split_lines (lit "## " ++ label p ++ [LF] ++ text)
             = markerLine (p, r) :: split_lines text).
  { intros text.
    change (lit "## " ++ label p ++ [LF] ++ text)
      with (lit "## " ++ label p ++ LF :: text).
    rewrite app_assoc, split_lines_app.
    rewrite (split_lines_single (lit "## " ++ label p)
               (markerLine_no_LF (p, r) Hlabel)).
    reflexivity. }
  unfold blockOf. simpl. destruct r as [output | error].
  - exists (split_lines output). split; [apply Hsplit | exact Hfree].
  - exists (split_lines (lit "ERROR: " ++ error)). split; [apply Hsplit |].
    unfold markerFree in Hfree. simpl in Hfree.
    rewrite split_lines_prefix
      by (rewrite lit_error; simpl; intros H;
          repeat (destruct H as [H | H]; [discriminate H |]); exact H).
    pose proof (split_lines_cons_nonempty error) as Hne.
    destruct (split_lines error) as [| l ls]; [contradiction |].
    inversion Hfree as [| ? ? _ Hls]; subst. simpl.
    constructor; [| exact Hls].
    rewrite lit_error. reflexivity.
Qed.

Lemma split_lines_joined x y rest :
  split_lines (join [LF; LF] (x :: y :: rest))
  = split_lines x ++ [] :: split_lines (join [LF; LF] (y :: rest)).
Proof.
  change (join [LF; LF] (x :: y :: rest))
    with (x ++ LF :: LF :: join [LF; LF] (y :: rest)).
  rewrite split_lines_app. reflexivity.
Qed.

Lemma filter_plain body :
  Forall (fun l => isMarker l = false) body -> filter isMarker body = [].
Proof.
  induction 1 as [| l ls Hl _ IH]; simpl; [reflexivity |].
  now rewrite Hl.
Qed.

(** The marker lines of the content are the marker lines of the blocks,
    in order, and the content begins with one. *)
Lemma content_markers entries :
  Forall wellFormed entries ->
  filter isMarker (split_lines (join [LF; LF] (map blockOf entries)))
  = map markerLine entries
  /\ match entries with
     | [] => True
     | e :: _ =>
         exists rest,
           split_lines (join [LF; LF] (map blockOf entries))
           = markerLine e :: rest
     end.
Proof.
  induction 1 as [| e rest He Hrest [IHf IHh]].
  - split; [reflexivity | exact I].
  - destruct (block_lines e He) as [body [Hb Hplain]].
    destruct rest as [| e2 rest].
    + simpl. rewrite Hb. simpl. rewrite isMarker_markerLine.
      rewrite (filter_plain body Hplain).
      split; [reflexivity | now exists body].
    + change (map blockOf (e :: e2 :: rest))
        with (blockOf e :: blockOf e2 :: map blockOf rest).
      rewrite split_lines_joined, Hb.
      change (map blockOf (e2 :: rest))
        with (blockOf e2 :: map blockOf rest) in IHf.
      split.
      * simpl. rewrite isMarker_markerLine, filter_app.
        rewrite (filter_plain body Hplain). simpl.
        simpl in IHf. now rewrite IHf.
      * simpl. eexists. reflexivity.
Qed.

Lemma content_nonblank entries :
  entries <> [] -> trim (join [LF; LF] (map blockOf entries)) <> [].
Proof.
  intros Hne. destruct entries as [| [p r] rest]; [congruence |].
  assert (Hhead : exists tail,
             join [LF; LF] (map blockOf ((p, r) :: rest)) = 35%N :: tail).
  { assert (Hb : exists t, blockOf (p, r) = 35%N :: t).
    { unfold blockOf. simpl. rewrite lit_marker.
      destruct r; simpl; eexists; reflexivity. }
    destruct Hb as [t Hb]. destruct rest as [| e2 rest].
    - simpl. rewrite Hb. now exists t.
    - change (join [LF; LF] (map blockOf ((p, r) :: e2 :: rest)))
        with (blockOf (p, r) ++ LF :: LF :: join [LF; LF] (map blockOf (e2 :: rest))).
      rewrite Hb. simpl. eexists. reflexivity. }
  destruct Hhead as [tail ->]. apply trim_nonblank. reflexivity.
Qed.

Lemma wellFormed_combine providers results :
  Forall (fun p => ~ In LF (label p)) providers ->
  Forall (fun r => markerFree (textOf r)) results ->
  Forall wellFormed (combine providers results).
Proof.
  intros Hp Hr. apply Forall_forall. intros [p r] Hin. split; simpl.
  - apply in_combine_l in Hin. now apply (proj1 (Forall_forall _ _) Hp).
  - apply in_combine_r in Hin. now apply (proj1 (Forall_forall _ _) Hr).
Qed.

Lemma fst_combine (providers : list Provider) (results : list QueryResult) :
  length providers = length results ->
  map fst (combine providers results) = providers.
Proof.
  revert results. induction providers as [| p ps IH]; intros [| r rs] H;
    simpl in *; try discriminate; try reflexivity.
  f_equal. apply IH. now injection H.
Qed.

(** C10.  Round trip of fan-out and parser: when every query promise is
    fulfilled, no label contains a newline and no outcome's text or error
    contains a line starting with "## ", [parseSections] applied to the
    content of the snapshot built by [queryProviders] yields exactly one
    section per provider, in provider order, named by the provider's label
    with surrounding white space removed.  (For the empty provider list
    both sides are empty.) *)
Theorem parse_fanout_roundtrip now providers results :
  Forall2 settledWith providers results ->
  Forall (fun p => ~ In LF (label p)) providers ->
  Forall (fun r => markerFree (textOf r)) results ->
  map name (parseSections (content (queryProviders now providers)))
  = map (fun p => trim (label p)) providers.
Proof.
  intros Hset Hlabels Hfree.
  rewrite (queryProviders_fulfilled now _ _ Hset). simpl.
  rewrite <- Parser.map_fst_shape, parseSections_shapes.
  pose proof (wellFormed_combine _ _ Hlabels Hfree) as Hwf.
  pose proof (Forall2_length Hset) as Hlen.
  destruct providers as [| p ps].
  - destruct results; [reflexivity | discriminate].
  - destruct results as [| r rs]; [discriminate |].
    assert (Hne : combine (p :: ps) (r :: rs) <> []) by (simpl; discriminate).
    unfold trimmedSections.
    pose proof (content_nonblank _ Hne) as Hnb.
    destruct (trim (join [LF; LF] (map blockOf (combine (p :: ps) (r :: rs)))));
      [contradiction |].
    rewrite Parser.sectionsOf_names.
    destruct (content_markers _ Hwf) as [Hmarkers [rest Hsplit]].
    rewrite Hmarkers, Hsplit. cbv beta iota.
    rewrite isMarker_markerLine. cbv beta iota. rewrite app_nil_l.
    rewrite map_map.
    rewrite (map_ext _ (fun e => trim (label (fst e))) name_of_markerLine).
    rewrite <- (map_map fst (fun p => trim (label p))).
    f_equal. exact (fst_combine (p :: ps) (r :: rs) Hlen).
Qed.

Lemma parse_fanout_roundtrip_witness :
  map name (parseSections (content (queryProviders Samples.noon Samples.three)))
  = [lit "Copilot"; lit "Codex"; lit "Gemini"].
Proof.
  rewrite (parse_fanout_roundtrip Samples.noon Samples.three Samples.threeResults).
  - vm_compute. reflexivity.
  - repeat constructor.
  - repeat constructor; vm_compute; intuition discriminate.
  - repeat constructor.
Defined.

End RoundTrip.

(** ** Provider selection and the scroll offset *)

Module Navigation.

Import AppView.

Lemma setSelectedIndex_in_range n x :
  (0 < n)%Z -> (0 <= x < n)%Z -> Hook.setSelectedIndex n x = x.
Proof.
  intros Hn Hx. unfold Hook.setSelectedIndex, jsmod.
  destruct (Z.eqb_spec n 0) as [-> | _]; [lia |].
  rewrite (Z.rem_small x n) by lia.
  rewrite Z.rem_mod_nonneg by lia.
  rewrite <- (Z.mul_1_l n) at 1. rewrite Z.mod_add by lia.
  apply Z.mod_small. lia.
Qed.

Lemma maxOffset_nonneg toLowerCase providers width height v :
  (0 <= maxOffset toLowerCase providers width height v)%Z.
Proof. unfold maxOffset. lia. Qed.

(** Whatever the render before, a render with another selected index ends
    with the offset at 0. *)
Lemma runEffects_resets toLowerCase providers width height before after :
  Hook.selectedIndex (cells before) <> Hook.selectedIndex (cells after) ->
  detailOffset (runEffects toLowerCase providers width height before after) = 0%Z.
Proof.
  intros Hchg. unfold runEffects.
  destruct (Z.eqb_spec (Hook.selectedIndex (cells before))
                       (Hook.selectedIndex (cells after))) as [E | _];
    [contradiction |].
  destruct (_ =? _)%Z; simpl; [reflexivity |].
  unfold clamp.
  pose proof (maxOffset_nonneg toLowerCase providers width height after).
  lia.
Qed.

(** C8.  With [n > 0] providers and the selection at [i] in [0, n), the
    next-provider key moves the selection to (i+1) mod n and the
    previous-provider key to (i-1+n) mod n; with three providers "previous"
    from 0 gives 2 and "next" from 2 gives 0; and whenever a render finds
    the selection changed - in particular after the left and right keys -
    the detail scroll offset is reset to 0. *)
Theorem selection_cycles_and_resets_scroll n i :
  (0 < n)%Z -> (0 <= i < n)%Z ->
  Hook.nextProvider n i = ((i + 1) mod n)%Z
  /\ Hook.prevProvider n i = ((i - 1 + n) mod n)%Z
  /\ Hook.prevProvider 3 0 = 2%Z
  /\ Hook.nextProvider 3 2 = 0%Z
  /\ (forall toLowerCase providers width height before after,
         Hook.selectedIndex (cells before) <> Hook.selectedIndex (cells after) ->
         detailOffset (runEffects toLowerCase providers width height before after)
         = 0%Z)
  /\ (forall toLowerCase providers width height key v,
         Hook.count providers = n ->
         Hook.selectedIndex (cells v) = i ->
         (1 < n)%Z ->
         key = K_left \/ key = K_right ->
         let v' := press toLowerCase providers width height key v in
         Hook.selectedIndex (cells v')
         = (if match key with K_left => true | _ => false end
            then (i - 1 + n) mod n else (i + 1) mod n)%Z
         /\ detailOffset v' = 0%Z).
Proof.
  intros Hn Hi.
  assert (Hnext : Hook.nextProvider n i = ((i + 1) mod n)%Z).
  { unfold Hook.nextProvider, jsmod. rewrite Z.max_r by lia.
    rewrite Z.rem_mod_nonneg by lia.
    apply setSelectedIndex_in_range; [lia | apply Z.mod_pos_bound; lia]. }
  assert (Hprev : Hook.prevProvider n i = ((i - 1 + n) mod n)%Z).
  { unfold Hook.prevProvider, jsmod. rewrite Z.max_r by lia.
    rewrite Z.rem_mod_nonneg by lia.
    apply setSelectedIndex_in_range; [lia | apply Z.mod_pos_bound; lia]. }
  split; [exact Hnext |]. split; [exact Hprev |].
  split; [reflexivity |]. split; [reflexivity |].
  split; [intros; now apply runEffects_resets |].
  - intros toLowerCase providers width height key v Hcount Hsel Hmany Hkey v'.
    assert (Hmoved : Hook.selectedIndex (cells v')
                     = (if match key with K_left => true | _ => false end
                        then (i - 1 + n) mod n else (i + 1) mod n)%Z).
    { unfold v', press, runEffects.
      destruct Hkey as [-> | ->]; simpl; rewrite Hcount, Hsel;
        repeat (destruct (_ =? _)%Z; simpl); auto. }
    split; [exact Hmoved |].
    unfold v', press. apply runEffects_resets.
    assert (Hsel' : Hook.selectedIndex (cells (fst (onKey toLowerCase providers width height key v)))
                    = (if match key with K_left => true | _ => false end
                       then (i - 1 + n) mod n else (i + 1) mod n)%Z).
    { destruct Hkey as [-> | ->]; simpl; rewrite Hcount, Hsel; auto. }
    rewrite Hsel', Hsel.
    destruct Hkey as [-> | ->].
    + intros E. destruct (Z.eq_dec i 0) as [-> | Hnz].
      * replace (0 - 1 + n)%Z with (n - 1)%Z in E by lia.
        rewrite Z.mod_small in E by lia. lia.
      * replace (i - 1 + n)%Z with ((i - 1) + 1 * n)%Z in E by lia.
        rewrite Z.mod_add, Z.mod_small in E by lia. lia.
    + intros E. destruct (Z.eq_dec (i + 1) n) as [En | Hne].
      * rewrite En, Z.mod_same in E by lia. lia.
      * rewrite Z.mod_small in E by lia. lia.
Qed.

Lemma selection_cycles_and_resets_scroll_witness :
  Hook.nextProvider 3 2 = ((2 + 1) mod 3)%Z
  /\ Hook.prevProvider 3 2 = ((2 - 1 + 3) mod 3)%Z
  /\ detailOffset
       (press asciiLower Samples.three 120 40 K_right
          {| cells := {| Hook.state := Query.queryProviders Samples.noon Samples.three;
                         Hook.selectedIndex := 2;
                         Hook.inflight := false |};
             detailOffset := 4 |})
     = 0%Z.
Proof.
  destruct (selection_cycles_and_resets_scroll 3 2 ltac:(lia) ltac:(lia))
    as [Hn [Hp [_ [_ [_ Hkey]]]]].
  split; [exact Hn |]. split; [exact Hp |].
  apply (Hkey asciiLower Samples.three 120%Z 40%Z K_right); auto.
  lia.
Defined.

End Navigation.

(** ** The in-flight guard *)

Module Guard.

Import Query Runs.

(** Once the flag is set and nothing clears it, requests and key presses
    leave it set and start no fan-out. *)
Lemma requests_while_busy events : forall c,
  Hook.inflight c = true ->
  forallb isRequest events = true ->
  Hook.inflight (fst (run c events)) = true
  /\ Hook.state (fst (run c events)) = Hook.state c
  /\ snd (run c events) = [].
Proof.
  induction events as [| e rest IH]; intros c Hc Hreq; simpl.
  - auto.
  - simpl in Hreq. apply andb_true_iff in Hreq. destruct Hreq as [He Hrest].
    assert (Hstep : Hook.inflight (fst (Hook.step c e)) = true
                    /\ Hook.state (fst (Hook.step c e)) = Hook.state c
                    /\ snd (Hook.step c e) = []).
    { destruct e as [providers | awaited | n | n]; simpl;
        try discriminate He; auto.
      unfold Hook.refreshNow_call. rewrite Hc. auto. }
    destruct (Hook.step c e) as [c1 t1]. simpl in Hstep.
    destruct Hstep as [Hc1 [Hs1 ->]].
    destruct (IH c1 Hc1 Hrest) as [Hflag [Hstate Htrace]].
    destruct (run c1 rest) as [c2 t2]. simpl in *.
    subst t2. rewrite Hstate, Hs1. auto.
Qed.

(** C7.  The guard of [refreshNow]: a request that arrives while a
    fan-out is in flight starts no fan-out and leaves every cell as it
    was; otherwise the flag is set before the fan-out starts.  When the
    awaited promise returns - every provider rejection with a text
    included - its snapshot is stored and the flag is cleared.  When
    [queryProviders] is rejected (its [catch] clause threw on a value
    without a text), the flag of the hook stays set: from then on every
    request is a no-op, no fan-out starts again and the state stays
    [loading].  [refresh] of the blessed entry point clears its flag
    however its [try] block ends. *)
Theorem inflight_flag_stays_set_when_query_rejects providers c :
  Hook.inflight c = false ->
  let busy := fst (Hook.refreshNow_call providers c) in
  snd (Hook.refreshNow_call providers c)
  = [FlagSet true; FanOut (map id providers)]
  /\ Hook.inflight busy = true
  /\ Types.status (Hook.state busy) = St_loading
  /\ (forall others, Hook.refreshNow_call others busy = (busy, []))
  /\ (forall snapshot,
        Hook.refreshNow_resume (Returned snapshot) busy
        = ({| Hook.state := snapshot;
              Hook.selectedIndex := Hook.selectedIndex c;
              Hook.inflight := false |},
           [FlagSet false]))
  /\ (forall now,
        settle now (tryBlock providers) = Returned (queryProviders now providers))
  /\ (forall now, settle now (Raised Unprintable) = Threw)
  /\ Hook.refreshNow_resume Threw busy = (busy, [])
  /\ (forall events,
        forallb isRequest events = true ->
        let stuck := fst (Hook.refreshNow_resume Threw busy) in
        Hook.inflight (fst (run stuck events)) = true
        /\ Types.status (Hook.state (fst (run stuck events))) = St_loading
        /\ fanOuts (snd (run stuck events)) = 0)
  /\ (forall now body g,
        Legacy.inflight (fst (Legacy.refresh_settle now body g)) = false
        /\ snd (Legacy.refresh_settle now body g) = [FlagSet false])
  /\ (forall now g,
        Legacy.refresh_settle now (tryBlock providers) g
        = Legacy.refresh_resume now providers g).
Proof.
  intros Hc busy.
  assert (Hbusy : Hook.inflight busy = true)
    by (unfold busy, Hook.refreshNow_call; now rewrite Hc).
  assert (Hloading : Types.status (Hook.state busy) = St_loading)
    by (unfold busy, Hook.refreshNow_call; now rewrite Hc).
  split; [unfold Hook.refreshNow_call; now rewrite Hc |].
  split; [exact Hbusy |]. split; [exact Hloading |].
  split; [intros others; unfold Hook.refreshNow_call; now rewrite Hbusy |].
  split.
  { intros snapshot. unfold busy, Hook.refreshNow_call. rewrite Hc. reflexivity. }
  split; [intros now; apply FanOut.settle_tryBlock |].
  split; [reflexivity |]. split; [reflexivity |]. split.
  { intros events Hreq. cbn [Hook.refreshNow_resume fst].
    destruct (requests_while_busy events busy Hbusy Hreq) as [Hflag [Hstate Htrace]].
    rewrite Hstate, Htrace. auto. }
  split.
  { intros now body g. split; reflexivity. }
  intros now g. unfold Legacy.refresh_settle, Legacy.refresh_resume, tryBlock.
  destruct (Promise_all providers); reflexivity.
Qed.

Lemma inflight_flag_stays_set_when_query_rejects_witness :
  let busy := fst (Hook.refreshNow_call Samples.three Hook.initial) in
  let stuck := fst (Hook.refreshNow_resume Threw busy) in
  Hook.inflight stuck = true
  /\ Hook.refreshNow_call Samples.three stuck = (stuck, [])
  /\ fanOuts (snd (run stuck [Hook.RefreshRequested Samples.three;
                              Hook.NextProvider 3;
                              Hook.RefreshRequested Samples.three]))
     = 0
  /\ Legacy.inflight
       (fst (Legacy.refresh_settle Samples.noon (Raised Unprintable)
               (fst (Legacy.refresh_call Samples.three Legacy.initial))))
     = false.
Proof.
  destruct (inflight_flag_stays_set_when_query_rejects Samples.three Hook.initial
              eq_refl)
    as [_ [Hbusy [_ [Hnoop [_ [_ [_ [Hthrew [Hstuck [Hlegacy _]]]]]]]]]].
  cbv zeta. rewrite Hthrew. cbn [fst].
  split; [exact Hbusy |]. split; [apply Hnoop |]. split.
  - specialize (Hstuck [Hook.RefreshRequested Samples.three;
                        Hook.NextProvider 3;
                        Hook.RefreshRequested Samples.three] eq_refl).
    cbv zeta in Hstuck. rewrite Hthrew in Hstuck. cbn [fst] in Hstuck.
    exact (proj2 (proj2 Hstuck)).
  - apply Hlegacy.
Defined.

End Guard.

(** ** The health score *)

Module Health.

Import StatusModel Spec.

(** On up to eight sections - the size of the provider registry - the
    score is the stated one. *)
Lemma healthScore_small :
  forallb (fun l => Z.eqb (healthScore l) (statedHealth l)) (statusLists 8) = true.
Proof. vm_compute. reflexivity. Qed.

(** C4 (the code departs from the claim).  The claim: for every section
    list, [healthScore] is round(100 * (ok + 0.5 * warning) / total), error
    sections counting for nothing, and 0 for the empty list.  The code
    returns 0 for the empty list, but it divides first and multiplies by 100
    afterwards, in binary64: for twenty sections of which eleven are ok,
    one is a warning and eight are errors the stated score is
    round(57.5) = 58, while (11.5 / 20) * 100 evaluates to
    57.49999999999999 and the code returns 57. *)
Theorem healthScore_rounding_slip :
  healthScore [] = 0%Z
  /\ length (parseSections ParserSamples.twenty) = 20
  /\ countOf Sec_ok (parseSections ParserSamples.twenty) = 11%Z
  /\ countOf Sec_warning (parseSections ParserSamples.twenty) = 1%Z
  /\ countOf Sec_error (parseSections ParserSamples.twenty) = 8%Z
  /\ statedHealth (parseSections ParserSamples.twenty) = 58%Z
  /\ healthScore (parseSections ParserSamples.twenty) = 57%Z.
Proof. repeat split; vm_compute; reflexivity. Qed.

End Health.

(** ** The one-shot mode *)

Module OnceMode.

Import StatusModel Spec StringFacts ParserFacts Once Runs.

Lemma no_LF_app (a b : jsstring) : ~ In LF a -> ~ In LF b -> ~ In LF (a ++ b).
Proof. intros Ha Hb Hin. apply in_app_or in Hin. tauto. Qed.

Lemma no_LF_forallb (s : jsstring) :
  forallb (fun c => negb (N.eqb c LF)) s = true -> ~ In LF s.
Proof.
  intros H Hin. rewrite forallb_forall in H. specialize (H LF Hin).
  now rewrite N.eqb_refl in H.
Qed.

(** A literal or a closed string: decided by evaluation. *)
Ltac closed_line := apply no_LF_forallb; vm_compute; reflexivity.

Lemma digitsOf_no_LF u : ~ In LF (digitsOf u).
Proof.
  induction u; simpl; try tauto;
    intros [H | H]; try contradiction; discriminate H.
Qed.

Lemma String_of_N_no_LF n : ~ In LF (String_of_N n).
Proof. apply digitsOf_no_LF. Qed.

Lemma String_of_Z_no_LF z : ~ In LF (String_of_Z z).
Proof.
  destruct z as [| p | p]; unfold String_of_Z; try apply String_of_N_no_LF.
  intros [H | H]; [discriminate H | exact (String_of_N_no_LF _ H)].
Qed.

Lemma padStart2_no_LF s : ~ In LF s -> ~ In LF (padStart2 s).
Proof.
  intros H. unfold padStart2. apply no_LF_app; [| exact H].
  intros Hin. apply repeat_spec in Hin. discriminate Hin.
Qed.

Lemma formatClock_no_LF t : ~ In LF (formatClock t).
Proof.
  destruct t as [d |]; unfold formatClock; cbv zeta; [| closed_line].
  assert (Hpad : forall n, ~ In LF (padStart2 (String_of_N n)))
    by (intros n; apply padStart2_no_LF, String_of_N_no_LF).
  apply no_LF_app; [apply Hpad |].
  apply no_LF_app; [closed_line |].
  apply no_LF_app; [apply Hpad |].
  apply no_LF_app; [closed_line | apply Hpad].
Qed.

Lemma statusUpper_no_LF st : ~ In LF (asciiUpper (statusText st)).
Proof. destruct st; closed_line. Qed.

Lemma header_no_LF snapshot score : ~ In LF (header snapshot score).
Proof.
  unfold header. cbn [join].
  apply no_LF_app; [closed_line |].
  apply no_LF_app; [closed_line |].
  apply no_LF_app; [apply no_LF_app; [closed_line | apply statusUpper_no_LF] |].
  apply no_LF_app; [closed_line |].
  apply no_LF_app; [apply no_LF_app; [closed_line | apply formatClock_no_LF] |].
  apply no_LF_app; [closed_line |].
  apply no_LF_app; [closed_line |].
  apply no_LF_app; [apply String_of_Z_no_LF | closed_line].
Qed.

Lemma header_truthy snapshot score : truthy (header snapshot score) = true.
Proof.
  unfold header. cbn [join].
  replace (lit "Quota Status") with (81%N :: skipn 1 (lit "Quota Status"))
    by (vm_compute; reflexivity).
  reflexivity.
Qed.

(** The name of a parsed section holds no line feed. *)
Lemma section_name_no_LF content s :
  In s (parseSections content) -> ~ In LF (name s).
Proof.
  intros Hin.
  assert (Hn : In (name s) (map fst (trimmedSections content))).
  { rewrite <- parseSections_shapes, Parser.map_fst_shape. now apply in_map. }
  unfold trimmedSections in Hn. destruct (trim content); [destruct Hn |].
  rewrite Parser.sectionsOf_names in Hn. apply in_app_or in Hn.
  destruct Hn as [Hn | Hn].
  - destruct (split_lines content) as [| l ls]; [destruct Hn |].
    destruct (isMarker l); [destruct Hn |].
    destruct Hn as [<- | []]. closed_line.
  - apply in_map_iff in Hn. destruct Hn as [l [<- Hl]].
    apply filter_In in Hl. destruct Hl as [Hl _].
    pose proof (proj1 (Forall_forall _ _) (split_lines_no_LF content) l Hl) as Hno.
    intros Hin'. apply trim_incl in Hin'. unfold remainder in Hin'.
    apply Hno. rewrite <- (firstn_skipn 3 l). apply in_or_app. now right.
Qed.

Lemma sectionLine_no_LF content s :
  In s (parseSections content) -> ~ In LF (sectionLine s).
Proof.
  intros Hin. unfold sectionLine.
  apply no_LF_app; [exact (section_name_no_LF content s Hin) |].
  apply no_LF_app; [closed_line |].
  destruct (StatusModel.status s); closed_line.
Qed.

Lemma split_lines_join_LF x xs :
  split_lines (join [LF] (x :: xs)) = concat (map split_lines (x :: xs)).
Proof.
  revert x. induction xs as [| y ys IH]; intros x.
  - simpl. now rewrite app_nil_r.
  - change (join [LF] (x :: y :: ys)) with (x ++ LF :: join [LF] (y :: ys)).
    rewrite split_lines_app, IH. reflexivity.
Qed.

Lemma concat_single_lines (ls : list jsstring) :
  Forall (fun l => ~ In LF l) ls -> concat (map split_lines ls) = ls.
Proof.
  induction 1 as [| l ls Hl _ IH]; simpl; [reflexivity |].
  now rewrite (split_lines_single l Hl), IH.
Qed.

Lemma sectionLine_truthy s : truthy (sectionLine s) = true.
Proof.
  unfold sectionLine. destruct (name s); [| reflexivity].
  simpl. replace (lit ": ") with [58%N; 32%N] by (vm_compute; reflexivity).
  reflexivity.
Qed.

(** The summary is one line per section; it is empty exactly when there is
    no section. *)
Lemma summary_lines content :
  let summary := join [LF] (map sectionLine (parseSections content)) in
  if truthy summary
  then split_lines summary = map sectionLine (parseSections content)
  else parseSections content = [].
Proof.
  pose proof (sectionLine_no_LF content) as Hno.
  destruct (parseSections content) as [| s rest]; [reflexivity |].
  assert (Ht : truthy (join [LF] (map sectionLine (s :: rest))) = true).
  { pose proof (sectionLine_truthy s) as Hs. simpl.
    destruct (sectionLine s); [discriminate Hs |].
    destruct (map sectionLine rest); reflexivity. }
  cbv zeta. rewrite Ht.
  change (map sectionLine (s :: rest)) with (sectionLine s :: map sectionLine rest).
  rewrite split_lines_join_LF.
  change (sectionLine s :: map sectionLine rest) with (map sectionLine (s :: rest)).
  apply concat_single_lines. apply Forall_forall.
  intros l Hl. apply in_map_iff in Hl. destruct Hl as [x [<- Hx]]. auto.
Qed.

(** The lines [renderOnce] prints: the header, one line per parsed section,
    then the lines of the content, or of the message when the content is
    empty. *)
Lemma renderOnce_lines snapshot :
  let sections := parseSections (content snapshot) in
  let body := orElse (content snapshot) (message snapshot) in
  split_lines (renderOnce snapshot)
  = header snapshot (healthScore sections)
    :: map sectionLine sections
    ++ (if truthy body then split_lines body else []).
Proof.
  intros sections body. unfold renderOnce. fold sections. fold body.
  set (hd := header snapshot (healthScore sections)).
  pose proof (summary_lines (content snapshot)) as Hsum.
  fold sections in Hsum. cbv zeta in Hsum.
  set (summary := join [LF] (map sectionLine sections)) in *.
  assert (Hfilter : filter truthy [hd; []; summary; []; body]
                    = hd :: (if truthy summary then [summary] else [])
                         ++ (if truthy body then [body] else [])).
  { simpl. unfold hd. rewrite header_truthy.
    destruct (truthy summary), (truthy body); reflexivity. }
  rewrite Hfilter, split_lines_join_LF.
  change (map split_lines (hd :: ?l)) with (split_lines hd :: map split_lines l).
  simpl concat at 1.
  rewrite (split_lines_single hd (header_no_LF snapshot _)).
  simpl. f_equal.
  rewrite map_app, concat_app.
  destruct (truthy summary).
  - simpl. rewrite app_nil_r, Hsum.
    destruct (truthy body); simpl; now rewrite ?app_nil_r.
  - rewrite Hsum. simpl. destruct (truthy body); simpl; now rewrite ?app_nil_r.
Qed.

End OnceMode.

Module OnceRun.

Import StatusModel Spec Once Runs OnceMode.

(** C9 (as amended).  The run-once mode performs exactly one fan-out and
    exits with code 1 when the overall status is [error] and 0 otherwise.
    In the modular entry point it prints, through [renderOnce], a header
    line with the overall state, the last-updated time and the health
    percentage, then one line per parsed section naming that section's
    status, then the raw content (or the message when the content is
    empty).  In the blessed entry point it prints a header line with the
    overall state and the last-updated time, an empty line, then the raw
    content (or the message when the content is empty). *)
Theorem once_mode_trace now providers g :
  let snapshot := Query.queryProviders now providers in
  let sections := parseSections (content snapshot) in
  let body := orElse (content snapshot) (message snapshot) in
  (Once.onceMain now providers
   = [FanOut (map id providers);
      StdoutWrite (renderOnce snapshot ++ [LF]);
      Exit (if isError (Types.status snapshot) then 1 else 0)%Z]
   /\ fanOuts (Once.onceMain now providers) = 1
   /\ split_lines (renderOnce snapshot)
      = (lit "Quota Status | state=" ++ asciiUpper (statusText (Types.status snapshot))
         ++ lit " | updated=" ++ formatClock (lastUpdated snapshot)
         ++ lit " | health=" ++ String_of_Z (healthScore sections) ++ lit "%")
        :: map (fun s => name s ++ lit ": "
                         ++ statusLabel (Some (StatusModel.status s))) sections
        ++ (if truthy body then split_lines body else []))
  /\ (Legacy.inflight g = false ->
      let g' := fst (Legacy.refresh now providers g) in
      let body' := orElse (content (Legacy.state g')) (message (Legacy.state g')) in
      Legacy.runOnce now providers g
      = [FlagSet true; FanOut (map id providers); FlagSet false;
         StdoutWrite
           ((lit "Agent Status TUI | status="
             ++ asciiUpper (statusText (Types.status (Legacy.state g')))
             ++ lit " | updated=" ++ Legacy.formatTime (lastUpdated (Legacy.state g')))
            ++ [LF; LF] ++ body' ++ [LF]);
         Exit (if isError (Types.status (Legacy.state g')) then 1 else 0)%Z]
      /\ fanOuts (Legacy.runOnce now providers g) = 1).
Proof.
  intros snapshot sections body. split; [split; [| split] |].
  - reflexivity.
  - reflexivity.
  - rewrite renderOnce_lines. fold sections. fold body.
    apply (f_equal2 (@cons jsstring)); [| reflexivity].
    unfold header. cbn [join].
    assert (Hl1 : lit "Quota Status | state=" = lit "Quota Status" ++ lit " | " ++ lit "state=")
      by (vm_compute; reflexivity).
    assert (Hl2 : lit " | updated=" = lit " | " ++ lit "updated=")
      by (vm_compute; reflexivity).
    assert (Hl3 : lit " | health=" = lit " | " ++ lit "health=")
      by (vm_compute; reflexivity).
    rewrite Hl1, Hl2, Hl3. now rewrite <- !app_assoc.
  - intros Hg g' body'.
    assert (Hrun : Legacy.runOnce now providers g
                   = [FlagSet true; FanOut (map id providers); FlagSet false;
                      StdoutWrite
                        (join [LF] [Legacy.buildOutputHeader g'; []; body'] ++ [LF]);
                      Exit (if isError (Types.status (Legacy.state g')) then 1 else 0)%Z]).
    { unfold Legacy.runOnce, body', g', Legacy.refresh, Legacy.refresh_call.
      rewrite Hg. reflexivity. }
    split; [| rewrite Hrun; reflexivity].
    rewrite Hrun. unfold Legacy.buildOutputHeader. cbn [join].
    now rewrite <- !app_assoc.
Qed.

Lemma once_mode_trace_witness :
  fanOuts (Legacy.runOnce Samples.noon Samples.three Legacy.initial) = 1
  /\ hd [] (split_lines (renderOnce (Query.queryProviders Samples.noon Samples.three)))
     = lit "Quota Status | state=ERROR | updated=12:00:05 | health=50%".
Proof.
  destruct (once_mode_trace Samples.noon Samples.three Legacy.initial)
    as [[_ [_ Hlines]] Hlegacy].
  split.
  - apply Hlegacy. reflexivity.
  - rewrite Hlines. vm_compute. reflexivity.
Defined.

(** C9 as the specification states it fails on the blessed entry point:
    with three providers of which one fails, its header carries no health
    percentage and no line names a section's status, which the modular
    entry point prints for the same run. *)
Lemma once_mode_stated_counterexample :
  exists text,
    In (StdoutWrite text) (Legacy.runOnce Samples.noon Samples.three Legacy.initial)
    /\ firstn 3 (split_lines text)
       = [lit "Agent Status TUI | status=ERROR | updated=12:00:05"; [];
          lit "## Copilot"]
    /\ includes (lit "health=") text = false
    /\ includes (lit "Copilot: LIVE") text = false
    /\ firstn 4 (split_lines (renderOnce (Query.queryProviders Samples.noon Samples.three)))
       = [lit "Quota Status | state=ERROR | updated=12:00:05 | health=50%";
          lit "Copilot: LIVE"; lit "Codex: ISSUE"; lit "Gemini: PARTIAL"].
Proof.
  eexists. split.
  - vm_compute. do 3 right. left. reflexivity.
  - repeat split; vm_compute; reflexivity.
Qed.

End OnceRun.

(** ** The regular expression of [extractRemainingPercents] *)

Module PatternFacts.

Import StatusModel Spec.

Lemma lit_remaining :
  lit "remaining" = [114; 101; 109; 97; 105; 110; 105; 110; 103]%N.
Proof. vm_compute. reflexivity. Qed.

Lemma sameLetter_spec p c :
  sameLetter p c = true <-> (c = p \/ c = (p - 32)%N).
Proof. unfold sameLetter. rewrite orb_true_iff, !N.eqb_eq. tauto. Qed.

Lemma lastOf_app prev a b : lastOf prev (a ++ b) = lastOf (lastOf prev a) b.
Proof. revert prev. induction a as [| c a IH]; intros prev; simpl; auto. Qed.

(** The literal with its closing [\b], for any literal. *)
Lemma literal_spec pat : forall prev s,
  literalThenBoundary pat prev s = true
  <-> exists w after,
        s = w ++ after /\ ignoringCase pat w
        /\ wordBoundary (lastOf prev w) after = true.
Proof.
  unfold ignoringCase.
  induction pat as [| p pat IH]; intros prev s; simpl.
  - split.
    + intros H. exists [], s. repeat split; [constructor | exact H].
    + intros [w [after [-> [Hw Hb]]]]. inversion Hw; subst. exact Hb.
  - destruct s as [| c s].
    + split; [discriminate |].
      intros [w [after [Hs [Hw _]]]]. inversion Hw; subst. discriminate Hs.
    + rewrite andb_true_iff, sameLetter_spec, IH. split.
      * intros [Hc [w [after [-> [Hw Hb]]]]].
        exists (c :: w), after. repeat split; [constructor; auto | exact Hb].
      * intros [w [after [Hs [Hw Hb]]]].
        inversion Hw as [| p' c' pat' w' Hc Hw']; subst.
        injection Hs as -> ->. split; [exact Hc |]. exists w', after. auto.
Qed.

(** The word "remaining", in any case, ends with a word character. *)
Lemma remaining_last prev w :
  ignoringCase (lit "remaining") w -> isWordAt (lastOf prev w) = true.
Proof.
  unfold ignoringCase. rewrite lit_remaining. intros H.
  repeat match goal with
         | H : Forall2 _ (_ :: _) _ |- _ => inversion H; subst; clear H
         | H : Forall2 _ [] _ |- _ => inversion H; subst; clear H
         end.
  simpl.
  match goal with
  | H : _ = 103%N \/ _ |- _ => destruct H as [-> | ->]; reflexivity
  end.
Qed.

Lemma remaining_spec prev s :
  literalThenBoundary (lit "remaining") prev s = true
  <-> exists w after,
        s = w ++ after /\ ignoringCase (lit "remaining") w
        /\ isWordAt (hd_error after) = false.
Proof.
  rewrite literal_spec. split; intros [w [after [Hs [Hw Hb]]]];
    exists w, after; repeat split; auto;
    unfold wordBoundary in *; rewrite (remaining_last prev w Hw) in *;
    destruct (isWordAt (hd_error after)); auto; discriminate.
Qed.

Lemma spaces_spec s :
  spacesThenLiteral s = true
  <-> exists ws w after,
        s = ws ++ w ++ after /\ ws <> []
        /\ forallb isWhiteSpace ws = true
        /\ ignoringCase (lit "remaining") w
        /\ isWordAt (hd_error after) = false.
Proof.
  induction s as [| c s IH].
  - simpl. split; [discriminate |].
    intros [ws [w [after [Hs [Hne _]]]]].
    destruct ws; [contradiction | discriminate Hs].
  - change (spacesThenLiteral (c :: s))
      with (isWhiteSpace c
            && (spacesThenLiteral s
                || literalThenBoundary (lit "remaining") (Some c) s)).
    rewrite andb_true_iff, orb_true_iff, IH, remaining_spec. split.
    + intros [Hc [[ws [w [after [-> [Hne [Hws [Hw Ha]]]]]]]
                  | [w [after [-> [Hw Ha]]]]]].
      * exists (c :: ws), w, after. simpl. rewrite Hc, Hws.
        repeat split; auto; discriminate.
      * exists [c], w, after. simpl. rewrite Hc.
        repeat split; auto; discriminate.
    + intros [ws [w [after [Hs [Hne [Hws [Hw Ha]]]]]]].
      destruct ws as [| c' ws]; [contradiction |].
      simpl in Hs, Hws. injection Hs as -> ->.
      apply andb_true_iff in Hws. destruct Hws as [Hc Hws].
      split; [exact Hc |]. destruct ws as [| c2 ws].
      * right. exists w, after. auto.
      * left. exists (c2 :: ws), w, after. repeat split; auto; discriminate.
Qed.

Lemma percent_spec rest : percentThenRest rest = true <-> tailOk rest.
Proof.
  unfold tailOk, percentThenRest. destruct rest as [| c rest].
  - split; [discriminate |]. intros [ws [w [after [Hs _]]]]. discriminate Hs.
  - rewrite andb_true_iff, N.eqb_eq, spaces_spec. split.
    + intros [-> [ws [w [after [-> H]]]]]. exists ws, w, after. now split.
    + intros [ws [w [after [Hs H]]]]. injection Hs as -> ->.
      split; [reflexivity |]. now exists ws, w, after.
Qed.

Lemma digitsThenRest_spec k s d :
  digitsThenRest k s = Some d
  <-> length d = k /\ forallb isDigit d = true
      /\ exists rest, s = d ++ rest /\ percentThenRest rest = true.
Proof.
  unfold digitsThenRest. split.
  - destruct (length (firstn k s) =? k) eqn:Hlen; simpl; [| discriminate].
    destruct (forallb isDigit (firstn k s)) eqn:Hd; simpl; [| discriminate].
    destruct (percentThenRest (skipn k s)) eqn:Hp; [| discriminate].
    intros H. injection H as <-. apply Nat.eqb_eq in Hlen.
    repeat split; auto. exists (skipn k s). split; [| exact Hp].
    symmetry. apply firstn_skipn.
  - intros [Hlen [Hd [rest [-> Hp]]]]. subst k.
    rewrite firstn_app, Nat.sub_diag, firstn_all, firstn_O, app_nil_r.
    rewrite skipn_app, Nat.sub_diag, skipn_all, skipn_O. simpl.
    now rewrite Nat.eqb_refl, Hd, Hp.
Qed.

Lemma digits_no_percent d : forallb isDigit d = true -> ~ In 37%N d.
Proof.
  intros H Hin. rewrite forallb_forall in H. specialize (H _ Hin).
  discriminate H.
Qed.

Lemma prefix_unique (a a' b b' : jsstring) :
  a ++ 37%N :: b = a' ++ 37%N :: b' ->
  ~ In 37%N a -> ~ In 37%N a' -> a = a' /\ b = b'.
Proof.
  revert a'. induction a as [| x a IH]; intros [| y a'] H Ha Ha'; simpl in *.
  - injection H as ->. auto.
  - injection H as <- _. exfalso. apply Ha'. now left.
  - injection H as -> _. exfalso. apply Ha. now left.
  - injection H as -> H.
    destruct (IH a' H) as [-> ->]; [tauto | tauto | auto].
Qed.

(** A run of digits before the percent sign is determined by the input. *)
Lemma digits_unique d rest d' rest' :
  d ++ rest = d' ++ rest' ->
  forallb isDigit d = true -> forallb isDigit d' = true ->
  percentThenRest rest = true -> percentThenRest rest' = true ->
  d = d'.
Proof.
  intros Hs Hd Hd' Hp Hp'.
  destruct rest as [| c rest]; [discriminate Hp |].
  destruct rest' as [| c' rest']; [discriminate Hp' |].
  simpl in Hp, Hp'.
  apply andb_true_iff in Hp. destruct Hp as [Hc _].
  apply andb_true_iff in Hp'. destruct Hp' as [Hc' _].
  apply N.eqb_eq in Hc, Hc'. subst c c'.
  apply (prefix_unique d d' rest rest' Hs);
    now apply digits_no_percent.
Qed.

Lemma matchHere_spec prev s d :
  matchHere prev s = Some d
  <-> isWordAt prev = false /\ 1 <= length d <= 3
      /\ forallb isDigit d = true
      /\ exists rest, s = d ++ rest /\ percentThenRest rest = true.
Proof.
  assert (Hboundary : forall d0 rest,
             1 <= length d0 -> forallb isDigit d0 = true ->
             wordBoundary prev (d0 ++ rest) = negb (isWordAt prev)).
  { intros d0 rest Hlen Hd. unfold wordBoundary.
    destruct d0 as [| c d0]; [simpl in Hlen; lia |].
    simpl in Hd. apply andb_true_iff in Hd. destruct Hd as [Hc _].
    simpl. unfold isWordChar. rewrite Hc. simpl.
    now destruct (isWordAt prev). }
  split.
  - unfold matchHere. destruct (wordBoundary prev s) eqn:Hb; [| discriminate].
    intros H.
    assert (Hk : exists k, 1 <= k <= 3 /\ digitsThenRest k s = Some d).
    { destruct (digitsThenRest 3 s) eqn:H3;
        [injection H as <-; exists 3; split; [lia | exact H3] |].
      destruct (digitsThenRest 2 s) eqn:H2;
        [injection H as <-; exists 2; split; [lia | exact H2] |].
      exists 1. split; [lia | exact H]. }
    destruct Hk as [k [Hk Hdk]].
    apply digitsThenRest_spec in Hdk.
    destruct Hdk as [Hlen [Hd [rest [-> Hp]]]].
    rewrite Hboundary in Hb by (auto; lia).
    repeat split; try lia; auto.
    + now destruct (isWordAt prev).
    + now exists rest.
  - intros [Hprev [Hlen [Hd [rest [-> Hp]]]]].
    unfold matchHere. rewrite Hboundary, Hprev by (auto; lia). simpl.
    assert (Hown : digitsThenRest (length d) (d ++ rest) = Some d).
    { apply digitsThenRest_spec. repeat split; auto. now exists rest. }
    assert (Hother : forall k d', digitsThenRest k (d ++ rest) = Some d' -> d' = d).
    { intros k d' Hk. apply digitsThenRest_spec in Hk.
      destruct Hk as [_ [Hd' [rest' [Hs Hp']]]].
      symmetry. exact (digits_unique d rest d' rest' Hs Hd Hd' Hp Hp'). }
    destruct (digitsThenRest 3 (d ++ rest)) eqn:H3.
    { now rewrite (Hother 3 _ H3). }
    destruct (digitsThenRest 2 (d ++ rest)) eqn:H2.
    { now rewrite (Hother 2 _ H2). }
    destruct (digitsThenRest 1 (d ++ rest)) eqn:H1.
    { now rewrite (Hother 1 _ H1). }
    assert (Hcases : length d = 1 \/ length d = 2 \/ length d = 3) by lia.
    destruct Hcases as [E | [E | E]]; rewrite E in Hown; congruence.
Qed.

(** The search finds the leftmost position at which the pattern matches. *)
Lemma matchFrom_some s : forall prev d,
  matchFrom prev s = Some d ->
  exists before rest,
    s = before ++ rest
    /\ matchHere (lastOf prev before) rest = Some d
    /\ forall before' rest' d',
         s = before' ++ rest' ->
         matchHere (lastOf prev before') rest' = Some d' ->
         length before <= length before'.
Proof.
  induction s as [| c s IH]; intros prev d H.
  - simpl in H. destruct (matchHere prev []) eqn:Hm; [| discriminate].
    injection H as ->. exists [], []. repeat split; auto.
    intros; simpl; lia.
  - simpl in H. destruct (matchHere prev (c :: s)) eqn:Hm.
    + injection H as ->. exists [], (c :: s). repeat split; auto.
      intros; simpl; lia.
    + destruct (IH _ _ H) as [before [rest [-> [Hhere Hmin]]]].
      exists (c :: before), rest. repeat split; auto.
      intros [| c' before'] rest' d' Hs Hm'.
      * simpl in Hs, Hm'. subst rest'. congruence.
      * simpl in Hs. injection Hs as <- Hs. simpl in Hm'.
        specialize (Hmin before' rest' d' Hs Hm'). simpl. lia.
Qed.

Lemma matchFrom_none s : forall prev,
  matchFrom prev s = None ->
  forall before rest,
    s = before ++ rest -> matchHere (lastOf prev before) rest = None.
Proof.
  induction s as [| c s IH]; intros prev H before rest Hs.
  - destruct before; [| discriminate Hs]. simpl in Hs. subst rest.
    simpl in H |- *. now destruct (matchHere prev []).
  - simpl in H. destruct (matchHere prev (c :: s)) eqn:Hm; [discriminate |].
    destruct before as [| c' before].
    + simpl in Hs |- *. now subst rest.
    + simpl in Hs. injection Hs as <- Hs. simpl. now apply (IH (Some c)).
Qed.

(** An occurrence of the pattern is a match of the expression there. *)
Lemma occursAt_matchHere line before d :
  (exists after, occursAt line before d after)
  <-> exists rest,
        line = before ++ rest
        /\ matchHere (lastOf None before) rest = Some d.
Proof.
  split.
  - intros [after [ws [w [-> [Hlen [Hd [Hne [Hws [Hw [Hb Ha]]]]]]]]]].
    exists (d ++ [37%N] ++ ws ++ w ++ after). split; [reflexivity |].
    apply matchHere_spec. repeat split; auto; try lia.
    exists ([37%N] ++ ws ++ w ++ after). split; [reflexivity |].
    apply percent_spec. now exists ws, w, after.
  - intros [rest [-> Hm]]. apply matchHere_spec in Hm.
    destruct Hm as [Hb [Hlen [Hd [rest' [-> Hp]]]]].
    apply percent_spec in Hp.
    destruct Hp as [ws [w [after [-> [Hne [Hws [Hw Ha]]]]]]].
    exists after, ws, w. repeat split; auto; lia.
Qed.

(** [line.match] returns what the pattern captures. *)
Lemma matchRemaining_captured line : captured line (matchRemaining line).
Proof.
  unfold matchRemaining. destruct (matchFrom None line) as [d |] eqn:Hm; simpl.
  - destruct (matchFrom_some line None d Hm) as [before [rest [Hs [Hhere Hmin]]]].
    destruct (proj2 (occursAt_matchHere line before d)) as [after Hocc];
      [now exists rest |].
    exists before, after. split; [exact Hocc |].
    intros before' d' after' Hocc'.
    destruct (proj1 (occursAt_matchHere line before' d')) as [rest' [Hs' Hm']];
      [now exists after' |].
    exact (Hmin before' rest' d' Hs' Hm').
  - intros before d after Hocc.
    destruct (proj1 (occursAt_matchHere line before d)) as [rest [Hs Hhere]];
      [now exists after |].
    rewrite (matchFrom_none line None Hm before rest Hs) in Hhere.
    discriminate Hhere.
Qed.

Lemma same_prefix (a a' b b' : jsstring) :
  a ++ b = a' ++ b' -> length a = length a' -> a = a' /\ b = b'.
Proof.
  revert a'. induction a as [| x a IH]; intros [| y a'] H Hl;
    simpl in *; try discriminate; auto.
  injection H as -> H. injection Hl as Hl.
  destruct (IH a' H Hl) as [-> ->]. auto.
Qed.

(** ... and nothing else: the capture is determined by the line. *)
Lemma captured_unique line capture :
  captured line capture -> capture = matchRemaining line.
Proof.
  intros Hc. pose proof (matchRemaining_captured line) as Hm.
  destruct capture as [d |], (matchRemaining line) as [d0 |]; simpl in *.
  - destruct Hc as [before [after [Hocc Hmin]]].
    destruct Hm as [before0 [after0 [Hocc0 Hmin0]]].
    pose proof (Hmin _ _ _ Hocc0) as H1. pose proof (Hmin0 _ _ _ Hocc) as H2.
    destruct (proj1 (occursAt_matchHere line before d)) as [rest [Hs Hh]];
      [now exists after |].
    destruct (proj1 (occursAt_matchHere line before0 d0)) as [rest0 [Hs0 Hh0]];
      [now exists after0 |].
    rewrite Hs in Hs0.
    destruct (same_prefix before before0 rest rest0 Hs0) as [-> ->]; [lia |].
    congruence.
  - destruct Hc as [before [after [Hocc _]]]. now destruct (Hm _ _ _ Hocc).
  - destruct Hm as [before [after [Hocc _]]]. now destruct (Hc _ _ _ Hocc).
  - reflexivity.
Qed.

End PatternFacts.

(** ** The summary builder *)

Module Summary.

Import StatusModel Spec PatternFacts.

(** Loop invariant of [for (const line of section.lines)]. *)
Lemma extract_loop ls : forall values,
  fold_left
    (fun values line =>
       match matchRemaining line with
       | None => values
       | Some d => values ++ [Z.max 0 (Z.min 100 (Number_of_digits d))]
       end) ls values
  = values ++ percentsList ls.
Proof.
  induction ls as [| line ls IH]; intros values; simpl.
  - now rewrite app_nil_r.
  - rewrite IH. destruct (matchRemaining line); simpl.
    + now rewrite <- app_assoc.
    + reflexivity.
Qed.

Lemma extract_percentsList s :
  extractRemainingPercents (Some s) = percentsList (lines s).
Proof. unfold extractRemainingPercents. now rewrite extract_loop. Qed.

Lemma percents_percentsList ls : percents ls (percentsList ls).
Proof.
  induction ls as [| line ls IH]; simpl; [constructor |].
  pose proof (matchRemaining_captured line) as Hc.
  destruct (matchRemaining line) as [d |]; simpl.
  - now apply percents_take.
  - now apply percents_skip.
Qed.

Lemma percents_unique ls ps : percents ls ps -> ps = percentsList ls.
Proof.
  induction 1 as [| line ls ps Hc _ IH | line d ls ps Hc _ IH]; simpl.
  - reflexivity.
  - now rewrite <- (captured_unique line None Hc).
  - rewrite <- (captured_unique line (Some d) Hc). simpl. now rewrite IH.
Qed.

Lemma sum_loop ps : forall sum,
  fold_left (fun sum value => (sum + value)%Z) ps sum = (sum + total ps)%Z.
Proof.
  induction ps as [| p ps IH]; intros sum; simpl.
  - lia.
  - rewrite IH. unfold total. simpl. lia.
Qed.

(** The integer formula of the code is the rational mean rounded to the
    nearest integer, halves upwards. *)
Lemma roundedQuotient_roundQ sum len :
  (0 < len)%Z ->
  roundedQuotient sum len = roundQ (inject_Z sum / inject_Z len).
Proof.
  intros Hlen. destruct len as [| p | p]; try lia.
  unfold roundedQuotient, roundQ, Qfloor, Qplus, Qdiv, Qmult, Qinv, inject_Z.
  simpl Qnum. simpl Qden.
  f_equal; lia.
Qed.

(** On every array of up to 16 percentages the binary64 evaluation of
    [Math.round(sum / length)] is the integer formula. *)
Lemma roundedQuotient_binary64_small :
  forallb (fun len =>
             forallb (fun sum =>
                        Z.eqb (binary64Average sum len)
                              (roundedQuotient (Z.of_nat sum) (Z.of_nat len)))
                     (seq 0 (100 * len + 1)))
          (seq 1 16)
  = true.
Proof. vm_compute. reflexivity. Qed.

Lemma averageRemaining_spec found : averageOf found (averageRemaining found).
Proof.
  destruct found as [s |]; simpl; [| reflexivity].
  exists (percentsList (lines s)). split; [apply percents_percentsList |].
  unfold averageRemaining. rewrite extract_percentsList.
  destruct (percentsList (lines s)) as [| p ps] eqn:Hps; [reflexivity |].
  change (length (p :: ps) =? 0) with false. cbv iota.
  rewrite sum_loop, Z.add_0_l. unfold mean.
  rewrite roundedQuotient_roundQ by (simpl; lia). reflexivity.
Qed.

Lemma eqb_eq (a b : jsstring) : JS.eqb a b = true <-> a = b.
Proof.
  unfold JS.eqb. destruct (list_eq_dec N.eq_dec a b); split; auto; discriminate.
Qed.

Lemma getProviderSection_spec toLowerCase sections providerLabel :
  firstMatching toLowerCase sections providerLabel
    (getProviderSection toLowerCase sections providerLabel).
Proof.
  unfold getProviderSection, firstMatching.
  induction sections as [| s rest IH]; simpl; [constructor |].
  destruct (JS.eqb (toLowerCase (name s)) (toLowerCase providerLabel)) eqn:E.
  - apply eqb_eq in E. exists [], rest. repeat split; auto.
  - assert (Hs : toLowerCase (name s) <> toLowerCase providerLabel).
    { intros H. apply eqb_eq in H. congruence. }
    destruct (find _ rest) as [x |].
    + destruct IH as [before [after [-> [Hx Hb]]]].
      exists (s :: before), after. repeat split; auto.
    + constructor; auto.
Qed.

(** C5.  [buildProviderSummaries] pairs each provider, in registry order,
    with the first section whose name equals the provider's label up to
    case (compared through [toLowerCase]), or with none; the
    average-remaining is the mean, rounded to the nearest integer, of the
    percentages that the pattern "<1-3 digits>% remaining" captures on the
    lines of that section (the leftmost occurrence of each line), each
    clamped to [0, 100]; it is null when the section is absent or no line
    matches; and a section whose matching lines carry 80, 60 and 40 has
    average-remaining 60. *)
Theorem summaries_pair_and_average toLowerCase providers sections :
  let summaries := buildProviderSummaries toLowerCase providers sections in
  map provider summaries = providers
  /\ Forall (fun sm =>
               firstMatching toLowerCase sections (label (provider sm)) (section sm)
               /\ averageOf (section sm) (avgRemaining sm))
            summaries
  /\ (forall s, percents (lines s) [80; 60; 40]%Z ->
                averageRemaining (Some s) = Some 60%Z)
  /\ averageRemaining (Some SummarySamples.codexSection) = Some 60%Z.
Proof.
  intros summaries. split; [| split; [| split]].
  - unfold summaries, buildProviderSummaries. rewrite map_map. simpl.
    apply map_id.
  - apply Forall_forall. intros sm Hin.
    unfold summaries, buildProviderSummaries in Hin.
    apply in_map_iff in Hin. destruct Hin as [p [<- _]]. simpl. split.
    + apply getProviderSection_spec.
    + apply averageRemaining_spec.
  - intros s Hps. apply percents_unique in Hps.
    unfold averageRemaining. rewrite extract_percentsList, <- Hps.
    reflexivity.
  - vm_compute. reflexivity.
Qed.

Lemma summaries_pair_and_average_witness :
  map (fun sm => (label (provider sm), option_map name (section sm), avgRemaining sm))
      (buildProviderSummaries asciiLower Samples.three SummarySamples.sections)
  = [(lit "Copilot", Some (lit "Copilot"), None);
     (lit "Codex", Some (lit "Codex"), Some 60%Z);
     (lit "Gemini", None, None)]
  /\ percents (lines SummarySamples.codexSection) [80; 60; 40]%Z.
Proof.
  split; [vm_compute; reflexivity |].
  destruct (summaries_pair_and_average asciiLower [Samples.codex]
              [SummarySamples.codexSection]) as [_ [Hall _]].
  simpl in Hall. inversion Hall as [| sm rest [_ Havg] _]; subst.
  simpl in Havg. destruct Havg as [ps [Hps Hmatch]].
  replace [80; 60; 40]%Z with ps; [exact Hps |].
  rewrite (percents_unique _ _ Hps). vm_compute. reflexivity.
Defined.

End Summary.

(* ================================================================== *)
(** * Part III.  Further properties of the code                        *)
(* ================================================================== *)

(** ** Selection arithmetic of [useStatusData] *)

Module Selection.

Lemma normalize_mod n index :
  (0 < n)%Z -> jsmod (jsmod index n + n) n = (index mod n)%Z.
Proof.
  intros Hn. unfold jsmod.
  pose proof (Z.rem_bound_abs index n ltac:(lia)) as Hb.
  pose proof (Z.quot_rem' index n) as Hq.
  assert (Hpos : (0 <= Z.rem index n + n)%Z) by lia.
  rewrite Z.rem_mod_nonneg by lia.
  replace (Z.rem index n + n)%Z
    with (index + (1 - Z.quot index n) * n)%Z by lia.
  apply Z.mod_add. lia.
Qed.

Lemma setSelectedIndex_mod n index :
  (0 < n)%Z -> Hook.setSelectedIndex n index = (index mod n)%Z.
Proof.
  intros Hn. unfold Hook.setSelectedIndex.
  destruct (Z.eqb_spec n 0); [lia |]. now apply normalize_mod.
Qed.

(** X1.  [setSelectedIndex] stores the index reduced modulo the number of
    providers: for every integer index, negative ones included, the stored
    value is [index mod n], hence inside [0, n); with no provider it is
    0. *)
Theorem setSelectedIndex_normalizes n index :
  (0 <= n)%Z ->
  Hook.setSelectedIndex n index = (if (n =? 0)%Z then 0 else index mod n)%Z
  /\ (0 < n -> 0 <= Hook.setSelectedIndex n index < n)%Z.
Proof.
  intros Hn. destruct (Z.eqb_spec n 0) as [-> | Hnz].
  - split; [reflexivity | lia].
  - rewrite setSelectedIndex_mod by lia. split; [reflexivity |].
    intros _. apply Z.mod_pos_bound. lia.
Qed.

Lemma setSelectedIndex_normalizes_witness :
  Hook.setSelectedIndex 3 (-1) = 2%Z /\ Hook.setSelectedIndex 0 5 = 0%Z.
Proof.
  destruct (setSelectedIndex_normalizes 3 (-1) ltac:(lia)) as [H3 _].
  destruct (setSelectedIndex_normalizes 0 5 ltac:(lia)) as [H0 _].
  split; [exact H3 | exact H0].
Defined.

Lemma next_in_range n i :
  (0 < n)%Z -> (0 <= i < n)%Z -> Hook.nextProvider n i = ((i + 1) mod n)%Z.
Proof.
  intros Hn Hi. unfold Hook.nextProvider. rewrite Z.max_r by lia.
  rewrite setSelectedIndex_mod by lia.
  unfold jsmod. rewrite Z.rem_mod_nonneg by lia. apply Z.mod_mod. lia.
Qed.

Lemma prev_in_range n i :
  (0 < n)%Z -> (0 <= i < n)%Z -> Hook.prevProvider n i = ((i - 1 + n) mod n)%Z.
Proof.
  intros Hn Hi. unfold Hook.prevProvider. rewrite Z.max_r by lia.
  rewrite setSelectedIndex_mod by lia.
  unfold jsmod. rewrite Z.rem_mod_nonneg by lia. apply Z.mod_mod. lia.
Qed.

(** X2.  "Next" and "previous" undo each other on every valid selection,
    and pressing "next" as many times as there are providers comes back to
    the starting provider. *)
Theorem next_prev_inverse n i :
  (0 < n)%Z -> (0 <= i < n)%Z ->
  Hook.prevProvider n (Hook.nextProvider n i) = i
  /\ Hook.nextProvider n (Hook.prevProvider n i) = i
  /\ Nat.iter (Z.to_nat n) (Hook.nextProvider n) i = i.
Proof.
  intros Hn Hi.
  assert (Hnext : forall j, (0 <= j < n)%Z ->
                            (0 <= Hook.nextProvider n j < n)%Z).
  { intros j Hj. rewrite next_in_range by lia. apply Z.mod_pos_bound. lia. }
  assert (Hprev : (0 <= Hook.prevProvider n i < n)%Z).
  { rewrite prev_in_range by lia. apply Z.mod_pos_bound. lia. }
  split; [| split].
  - rewrite prev_in_range by auto. rewrite next_in_range by lia.
    replace ((i + 1) mod n - 1 + n)%Z with ((i + 1) mod n + (n - 1))%Z by lia.
    rewrite Zplus_mod_idemp_l.
    replace (i + 1 + (n - 1))%Z with (i + 1 * n)%Z by lia.
    rewrite Z.mod_add by lia. apply Z.mod_small. lia.
  - rewrite next_in_range by auto. rewrite prev_in_range by lia.
    rewrite Zplus_mod_idemp_l.
    replace (i - 1 + n + 1)%Z with (i + 1 * n)%Z by lia.
    rewrite Z.mod_add by lia. apply Z.mod_small. lia.
  - assert (Hiter : forall k,
               Nat.iter k (Hook.nextProvider n) i = ((i + Z.of_nat k) mod n)%Z).
    { induction k as [| k IH].
      - simpl. rewrite Z.add_0_r. symmetry. apply Z.mod_small. lia.
      - rewrite Nat.iter_succ, IH.
        rewrite next_in_range by (try apply Z.mod_pos_bound; lia).
        rewrite Zplus_mod_idemp_l. f_equal. lia. }
    rewrite Hiter, Z2Nat.id by lia.
    replace (i + n)%Z with (i + 1 * n)%Z by lia.
    rewrite Z.mod_add by lia. apply Z.mod_small. lia.
Qed.

Lemma next_prev_inverse_witness :
  Hook.prevProvider 8 (Hook.nextProvider 8 7) = 7%Z
  /\ Nat.iter 8 (Hook.nextProvider 8) 5%Z = 5%Z.
Proof.
  destruct (next_prev_inverse 8 7 ltac:(lia) ltac:(lia)) as [H1 _].
  destruct (next_prev_inverse 8 5 ltac:(lia) ltac:(lia)) as [_ [_ H3]].
  split; [exact H1 | exact H3].
Defined.

End Selection.

(** ** Scrolling in [App.tsx] *)

Module Scrolling.

Import AppView Viewport.

Section Screen.

Variable toLowerCase : jsstring -> jsstring.
Variable providers : list Provider.
Variables width height : Z.

(** The detail lines depend on the content and on the selection only. *)
Lemma detailLines_same v v' :
  content (Hook.state (cells v)) = content (Hook.state (cells v')) ->
  Hook.selectedIndex (cells v) = Hook.selectedIndex (cells v') ->
  detailLines toLowerCase providers v = detailLines toLowerCase providers v'.
Proof. intros Hc Hs. unfold detailLines. now rewrite Hc, Hs. Qed.

Lemma maxOffset_same v v' :
  content (Hook.state (cells v)) = content (Hook.state (cells v')) ->
  Hook.selectedIndex (cells v) = Hook.selectedIndex (cells v') ->
  maxOffset toLowerCase providers width height v = maxOffset toLowerCase providers width height v'.
Proof. intros Hc Hs. unfold maxOffset. now rewrite (detailLines_same v v' Hc Hs). Qed.

Lemma maxOffset_not_negative v : (0 <= maxOffset toLowerCase providers width height v)%Z.
Proof. unfold maxOffset. lia. Qed.

Lemma clamp_in_range x m : (0 <= m)%Z -> (0 <= clamp x 0 m <= m)%Z.
Proof. unfold clamp. lia. Qed.

Lemma inRange_withOffset v o :
  (0 <= o <= maxOffset toLowerCase providers width height v)%Z ->
  inRange toLowerCase providers width height (withOffset v o).
Proof.
  intros Ho. unfold inRange.
  replace (maxOffset toLowerCase providers width height (withOffset v o))
    with (maxOffset toLowerCase providers width height v)
    by now apply maxOffset_same.
  exact Ho.
Qed.

(** The effects leave the offset in range when the event kept it as it
    was, or set it inside the range of the new render. *)
Lemma runEffects_inRange before after :
  (inRange toLowerCase providers width height before
   /\ detailOffset after = detailOffset before)
  \/ inRange toLowerCase providers width height after ->
  inRange toLowerCase providers width height
    (runEffects toLowerCase providers width height before after).
Proof.
  intros H. unfold runEffects.
  pose proof (maxOffset_not_negative after) as Hm.
  assert (Hzero : maxOffset toLowerCase providers width height (withOffset after 0)
                  = maxOffset toLowerCase providers width height after)
    by now apply maxOffset_same.
  destruct (Z.eqb_spec (Hook.selectedIndex (cells before))
                       (Hook.selectedIndex (cells after))) as [Hsel | Hsel];
    destruct (Z.eqb_spec (maxOffset toLowerCase providers width height before)
                         (maxOffset toLowerCase providers width height after))
      as [Hmax | Hmax].
  - destruct H as [[Hb Ho] | Ha]; [| exact Ha].
    unfold inRange in *. rewrite Ho, <- Hmax. exact Hb.
  - apply inRange_withOffset, clamp_in_range, Hm.
  - apply inRange_withOffset. lia.
  - apply inRange_withOffset. rewrite Hzero. apply clamp_in_range, Hm.
Qed.

Lemma press_inRange key v :
  inRange toLowerCase providers width height v ->
  inRange toLowerCase providers width height
    (press toLowerCase providers width height key v).
Proof.
  intros Hv. unfold press. apply runEffects_inRange.
  assert (Hscroll : forall x,
             inRange toLowerCase providers width height
               (withOffset v (clamp x 0 (maxOffset toLowerCase providers width height v)))).
  { intros x. apply inRange_withOffset, clamp_in_range, maxOffset_not_negative. }
  destruct key; simpl;
    first [ right; apply Hscroll
          | left; split; [exact Hv | ] ];
    try reflexivity.
  unfold Hook.refreshNow_call. destruct (Hook.inflight (cells v)); reflexivity.
Qed.

(** X3.  The scroll offset never leaves its range: starting from a view
    whose offset lies in [0, maxOffset], every sequence of key presses and
    settled refreshes - which may change the content and with it
    maxOffset - ends in a view whose offset again lies in [0, maxOffset].
    In particular, with content no longer than the visible height the
    offset stays 0 whatever is pressed. *)
Theorem scroll_offset_stays_in_range events v :
  inRange toLowerCase providers width height v ->
  let v' := fold_left (happen toLowerCase providers width height) events v in
  inRange toLowerCase providers width height v'
  /\ ((Z.of_nat (length (detailLines toLowerCase providers v')) <= detailHeight width height)%Z ->
      detailOffset v' = 0%Z).
Proof.
  intros Hv v'.
  assert (Hin : inRange toLowerCase providers width height v').
  { unfold v'. clear v'. revert v Hv.
    induction events as [| e rest IH]; intros v Hv; simpl; [exact Hv |].
    apply IH. destruct e as [key | now run]; simpl.
    - now apply press_inRange.
    - unfold afterSettle. apply runEffects_inRange. left. split; auto. }
  split; [exact Hin |].
  intros Hshort. unfold inRange, maxOffset in Hin. lia.
Qed.

(** X4.  The window shown is always as full as it can be: with the offset
    in range, the visible lines are the [detailHeight] lines that start at
    the offset, and their number is the smaller of the content length and
    the visible height. *)
Theorem visible_window_is_full v :
  inRange toLowerCase providers width height v ->
  visibleLines toLowerCase providers width height v
  = firstn (Z.to_nat (detailHeight width height))
           (skipn (Z.to_nat (detailOffset v)) (detailLines toLowerCase providers v))
  /\ Z.of_nat (length (visibleLines toLowerCase providers width height v))
     = Z.min (Z.of_nat (length (detailLines toLowerCase providers v))) (detailHeight width height).
Proof.
  intros Hv. unfold inRange, maxOffset in Hv.
  assert (Hh : (5 <= detailHeight width height)%Z) by (unfold detailHeight; lia).
  set (ls := detailLines toLowerCase providers v) in *. set (h := detailHeight width height) in *.
  set (o := detailOffset v) in *.
  assert (Hvis : visibleLines toLowerCase providers width height v
                 = firstn (Z.to_nat h) (skipn (Z.to_nat o) ls)).
  { unfold visibleLines, Array_slice, relativeIndex.
    fold ls. fold h. fold o.
    destruct (Z.ltb_spec o 0); [lia |].
    destruct (Z.ltb_spec (o + h) 0); [lia |].
    rewrite (Z.min_l o) by lia.
    destruct (Z.le_gt_cases (o + h) (Z.of_nat (length ls))) as [Hfit | Hover].
    - rewrite Z.min_l by lia. f_equal. lia.
    - rewrite Z.min_r by lia.
      rewrite !firstn_all2; auto; rewrite length_skipn; lia. }
  split; [exact Hvis |].
  rewrite Hvis, length_firstn, length_skipn. lia.
Qed.

(** X5.  The refresh key leaves the selection and the scroll offset as they
    are, and the scroll keys leave the selection and start no fan-out. *)
Theorem keys_do_their_own_job key v :
  (key = K_r ->
   Hook.selectedIndex (cells (press toLowerCase providers width height key v))
   = Hook.selectedIndex (cells v)
   /\ detailOffset (press toLowerCase providers width height key v)
      = detailOffset v)
  /\ (key <> K_r ->
      snd (onKey toLowerCase providers width height key v) = []
      /\ Hook.state (cells (press toLowerCase providers width height key v))
         = Hook.state (cells v)
      /\ Hook.inflight (cells (press toLowerCase providers width height key v))
         = Hook.inflight (cells v))
  /\ (key = K_up \/ key = K_down \/ key = K_pageup \/ key = K_pagedown ->
      Hook.selectedIndex (cells (press toLowerCase providers width height key v))
      = Hook.selectedIndex (cells v)).
Proof.
  assert (Hcells : forall before after,
             cells (runEffects toLowerCase providers width height before after) = cells after).
  { intros before after. unfold runEffects.
    destruct (_ =? _)%Z, (_ =? _)%Z; reflexivity. }
  split; [| split].
  - intros ->. unfold press. rewrite Hcells.
    assert (Hsame : Hook.selectedIndex
                      (cells (fst (onKey toLowerCase providers width height K_r v)))
                    = Hook.selectedIndex (cells v)
                    /\ content (Hook.state
                         (cells (fst (onKey toLowerCase providers width height K_r v))))
                       = content (Hook.state (cells v))
                    /\ detailOffset (fst (onKey toLowerCase providers width height K_r v))
                       = detailOffset v).
    { simpl. unfold Hook.refreshNow_call.
      destruct (Hook.inflight (cells v)); simpl; auto. }
    destruct Hsame as [Hs [Hc Ho]]. split; [exact Hs |].
    unfold runEffects. rewrite Hs, Z.eqb_refl.
    rewrite (maxOffset_same _ v Hc Hs), Z.eqb_refl. exact Ho.
  - intros Hkey. unfold press. rewrite Hcells.
    destruct key; try contradiction; simpl; auto.
  - intros Hkey. unfold press. rewrite Hcells.
    destruct Hkey as [-> | [-> | [-> | ->]]]; reflexivity.
Qed.

End Screen.

Lemma scroll_offset_stays_in_range_witness :
  let start :=
    {| cells := {| Hook.state := Query.queryProviders Samples.noon Samples.three;
                   Hook.selectedIndex := 0;
                   Hook.inflight := false |};
       detailOffset := 0 |} in
  detailOffset
    (fold_left (happen asciiLower Samples.three 120 40)
               [Pressed K_down; Pressed K_pagedown; Pressed K_right;
                Settled Samples.noon Samples.withThrow; Pressed K_down]
               start)
  = 0%Z.
Proof.
  intros start.
  destruct (scroll_offset_stays_in_range asciiLower Samples.three 120 40
              [Pressed K_down; Pressed K_pagedown; Pressed K_right;
               Settled Samples.noon Samples.withThrow; Pressed K_down]
              start) as [_ Hzero].
  - vm_compute. split; discriminate.
  - apply Hzero. vm_compute. discriminate.
Defined.

Lemma visible_window_is_full_witness :
  let v :=
    {| cells := {| Hook.state := Query.queryProviders Samples.noon Samples.three;
                   Hook.selectedIndex := 1;
                   Hook.inflight := false |};
       detailOffset := 0 |} in
  Z.of_nat (length (visibleLines asciiLower Samples.three 120 40 v)) = 2%Z.
Proof.
  intros v.
  destruct (visible_window_is_full asciiLower Samples.three 120 40 v) as [_ Hlen].
  - vm_compute. split; discriminate.
  - rewrite Hlen. vm_compute. reflexivity.
Defined.

Lemma keys_do_their_own_job_witness :
  let v :=
    {| cells := {| Hook.state := Query.queryProviders Samples.noon Samples.three;
                   Hook.selectedIndex := 1;
                   Hook.inflight := false |};
       detailOffset := 0 |} in
  Hook.selectedIndex (cells (press asciiLower Samples.three 120 40 K_r v)) = 1%Z
  /\ snd (onKey asciiLower Samples.three 120 40 K_down v) = [].
Proof.
  intros v.
  destruct (keys_do_their_own_job asciiLower Samples.three 120 40 K_r v)
    as [Hr _].
  destruct (keys_do_their_own_job asciiLower Samples.three 120 40 K_down v)
    as [_ [Hd _]].
  split.
  - apply Hr. reflexivity.
  - apply Hd. discriminate.
Defined.

End Scrolling.

(** ** The health history and the trend line *)

Module TrendFacts.

Import Trend Replay.

Lemma appendBounded_length cap current health :
  length current <= cap -> 1 <= cap ->
  length (appendBounded cap current health) = Nat.min cap (S (length current)).
Proof.
  intros Hc Hcap. unfold appendBounded.
  assert (Hlen : length (current ++ [health]) = S (length current))
    by (rewrite length_app; simpl; lia).
  destruct (Nat.ltb_spec cap (length (current ++ [health]))) as [Hfull | Hroom].
  - destruct current as [| x rest]; simpl in *; [lia |].
    rewrite length_app. simpl. lia.
  - lia.
Qed.

Lemma recordHealth_length state health h :
  length (healthHistory h) <= 200 ->
  length (healthHistory h) <= length (healthHistory (recordHealth state health h))
  /\ length (healthHistory (recordHealth state health h)) <= 200
  /\ length (healthHistory (recordHealth state health h))
     <= S (length (healthHistory h)).
Proof.
  intros Hh. unfold recordHealth.
  destruct (JS.eqb _ _); simpl; [lia |].
  rewrite appendBounded_length by lia. lia.
Qed.

Lemma recordScore_length state score h :
  length (healthHistory h) <= 120 ->
  length (healthHistory (recordScore state score h)) <= 120
  /\ length (healthHistory (recordScore state score h))
     <= S (length (healthHistory h)).
Proof.
  intros Hh. unfold recordScore.
  destruct (JS.eqb _ _); simpl; [lia |].
  rewrite appendBounded_length by lia. lia.
Qed.

(** X6.  The health history is bounded: whatever sequence of renders is
    replayed from the empty history, it holds at most 200 samples in
    [App.tsx] and at most 120 in [index.ts], and never more samples than
    there were renders; a history that is full drops its oldest sample for
    each new one, the newest sample being last. *)
Theorem health_history_is_bounded frames :
  length (healthHistory (renders noHistory frames)) <= 200
  /\ length (healthHistory (repaints noHistory frames)) <= 120
  /\ length (healthHistory (renders noHistory frames)) <= length frames
  /\ (forall cap current health,
        1 <= cap -> length current = cap ->
        appendBounded cap current health = tl current ++ [health])
  /\ (forall cap current health,
        length current < cap ->
        appendBounded cap current health = current ++ [health]).
Proof.
  assert (Hrenders : forall fs h,
             length (healthHistory h) <= 200 ->
             length (healthHistory (renders h fs)) <= 200
             /\ length (healthHistory (renders h fs))
                <= length (healthHistory h) + length fs).
  { induction fs as [| f fs IH]; intros h Hh; simpl; [lia |].
    destruct (recordHealth_length (fst f) (snd f) h Hh) as [_ [H200 Hstep]].
    destruct (IH _ H200) as [IH1 IH2]. unfold renders in *. lia. }
  assert (Hrepaints : forall fs h,
             length (healthHistory h) <= 120 ->
             length (healthHistory (repaints h fs)) <= 120).
  { induction fs as [| f fs IH]; intros h Hh; simpl; [lia |].
    destruct (recordScore_length (fst f) (snd f) h Hh) as [H120 _].
    exact (IH _ H120). }
  split; [| split; [| split; [| split]]].
  - apply Hrenders. simpl. lia.
  - apply Hrepaints. simpl. lia.
  - destruct (Hrenders frames noHistory) as [_ H]; simpl in *; lia.
  - intros cap current health Hcap Hlen. unfold appendBounded.
    rewrite length_app. simpl.
    destruct (Nat.ltb_spec cap (length current + 1)); [| lia].
    destruct current; simpl in *; [lia | reflexivity].
  - intros cap current health Hlen. unfold appendBounded.
    rewrite length_app. simpl.
    destruct (Nat.ltb_spec cap (length current + 1)); [lia | reflexivity].
Qed.

Lemma health_history_is_bounded_witness :
  appendBounded 3 [10; 20; 30]%Z 40%Z = [20; 30; 40]%Z
  /\ appendBounded 3 [10; 20]%Z 30%Z = [10; 20; 30]%Z.
Proof.
  destruct (health_history_is_bounded []) as [_ [_ [_ [Hfull Hroom]]]].
  split.
  - apply (Hfull 3 [10; 20; 30]%Z 40%Z); simpl; lia.
  - apply (Hroom 3 [10; 20]%Z 30%Z). simpl. lia.
Defined.

(** *** The key of the history effect determines its three parts *)

Lemma digitsOf_digits u : Forall (fun c => (48 <= c <= 57)%N) (digitsOf u).
Proof. induction u; simpl; constructor; auto; lia. Qed.

Lemma digitsOf_inj u : forall u', digitsOf u = digitsOf u' -> u = u'.
Proof.
  induction u; intros u' H; destruct u'; simpl in H;
    try discriminate H; try reflexivity;
    injection H as H; f_equal; auto.
Qed.

Lemma String_of_N_inj n n' : String_of_N n = String_of_N n' -> n = n'.
Proof.
  intros H. apply DecimalN.Unsigned.to_uint_inj. now apply digitsOf_inj.
Qed.

Lemma String_of_N_chars n : Forall (fun c => (48 <= c <= 57)%N) (String_of_N n).
Proof. apply digitsOf_digits. Qed.

Lemma String_of_Z_inj z z' : String_of_Z z = String_of_Z z' -> z = z'.
Proof.
  assert (Hneg : forall p n, 45%N :: String_of_N (Npos p) <> String_of_N n).
  { intros p n H. pose proof (String_of_N_chars n) as Hc.
    rewrite <- H in Hc. inversion Hc; subst. lia. }
  destruct z as [| p | p], z' as [| q | q]; unfold String_of_Z; intros H;
    try reflexivity;
    try (apply String_of_N_inj in H; simpl in H; congruence);
    try (exfalso; exact (Hneg _ _ H));
    try (symmetry in H; exfalso; exact (Hneg _ _ H)).
  injection H as H. apply String_of_N_inj in H. congruence.
Qed.

Lemma String_of_Z_no_bar z : ~ In 124%N (String_of_Z z).
Proof.
  assert (Hn : forall n, ~ In 124%N (String_of_N n)).
  { intros n Hin. pose proof (String_of_N_chars n) as Hc.
    rewrite Forall_forall in Hc. specialize (Hc _ Hin). lia. }
  destruct z; unfold String_of_Z; try apply Hn.
  intros [H | H]; [discriminate H | exact (Hn _ H)].
Qed.

Lemma split_at_unique (sep : N) (a a' b b' : jsstring) :
  a ++ sep :: b = a' ++ sep :: b' ->
  ~ In sep a -> ~ In sep a' -> a = a' /\ b = b'.
Proof.
  revert a'. induction a as [| x a IH]; intros [| y a'] H Ha Ha'; simpl in *.
  - injection H as ->. auto.
  - injection H as <- _. exfalso. apply Ha'. now left.
  - injection H as -> _. exfalso. apply Ha. now left.
  - injection H as -> H.
    destruct (IH a' H) as [-> ->]; [tauto | tauto | auto].
Qed.

Lemma statusText_inj s s' : statusText s = statusText s' -> s = s'.
Proof. destruct s, s'; intros H; try reflexivity; vm_compute in H; discriminate H. Qed.

Lemma statusText_no_bar s : ~ In 124%N (statusText s).
Proof. destruct s; vm_compute; intuition discriminate. Qed.

Lemma lit_bar : lit "|" = [124%N].
Proof. vm_compute. reflexivity. Qed.

Lemma historyKey_parts state health state' health' :
  historyKey state health = historyKey state' health'
  <-> keyParts state health = keyParts state' health'.
Proof.
  unfold historyKey, keyParts. rewrite lit_bar. split.
  - intros H. simpl in H.
    apply split_at_unique in H; try apply statusText_no_bar.
    destruct H as [Hs H]. apply statusText_inj in Hs.
    apply split_at_unique in H; try apply String_of_Z_no_bar.
    destruct H as [Ht Hh].
    apply String_of_Z_inj in Ht, Hh. congruence.
  - intros H. injection H as -> -> ->. reflexivity.
Qed.

Lemma JS_eqb_eq (a b : jsstring) : JS.eqb a b = true <-> a = b.
Proof.
  unfold JS.eqb. destruct (list_eq_dec N.eq_dec a b); split; auto; discriminate.
Qed.

(** X7.  A render is recorded exactly when its status, its timestamp (0
    for none) or its score differs from the render recorded last: then one
    sample - the score - is appended; otherwise the history is left as it
    is.  The first render is always recorded. *)
Theorem history_records_changes state health h :
  (forall state0 health0,
      lastHistoryKey h = historyKey state0 health0 ->
      (keyParts state health = keyParts state0 health0 ->
       recordHealth state health h = h)
      /\ (keyParts state health <> keyParts state0 health0 ->
          recordHealth state health h
          = {| healthHistory := appendBounded 200 (healthHistory h) health;
               lastHistoryKey := historyKey state health |}))
  /\ healthHistory (recordHealth state health noHistory) = [health]
  /\ lastHistoryKey (recordHealth state health h) = historyKey state health.
Proof.
  unfold recordHealth. split; [| split].
  - intros state0 health0 Hlast. rewrite Hlast. split.
    + intros Hsame. apply historyKey_parts in Hsame.
      apply JS_eqb_eq in Hsame. now rewrite Hsame.
    + intros Hdiff.
      destruct (JS.eqb (historyKey state health) (historyKey state0 health0)) eqn:E;
        [| reflexivity].
      apply JS_eqb_eq, historyKey_parts in E. contradiction.
  - simpl. destruct (JS.eqb (historyKey state health) []) eqn:E; [| reflexivity].
    apply JS_eqb_eq in E. exfalso.
    unfold historyKey in E. rewrite lit_bar in E.
    destruct (statusText (status state)); discriminate E.
  - destruct (JS.eqb (historyKey state health) (lastHistoryKey h)) eqn:E;
      simpl; [| reflexivity].
    apply JS_eqb_eq in E. congruence.
Qed.

Lemma history_records_changes_witness :
  let ok := Query.queryProviders Samples.noon [Samples.copilot] in
  let once := recordHealth ok 100 noHistory in
  healthHistory (recordHealth ok 100 once) = [100%Z]
  /\ healthHistory (recordHealth ok 50 once) = [100; 50]%Z.
Proof.
  intros ok once.
  assert (Hlast : lastHistoryKey once = historyKey ok 100).
  { destruct (history_records_changes ok 100 noHistory) as [_ [_ Hk]]. exact Hk. }
  destruct (history_records_changes ok 100 once) as [Hsame _].
  destruct (history_records_changes ok 50 once) as [Hdiff _].
  split.
  - rewrite (proj1 (Hsame ok 100%Z Hlast)); reflexivity.
  - rewrite (proj2 (Hdiff ok 100%Z Hlast)); [reflexivity |].
    vm_compute. discriminate.
Defined.

End TrendFacts.

Module RangeFacts.

Import Ranges.

Lemma upto_forall (P : Z -> bool) n :
  forallb P (upto n) = true ->
  forall z, (0 <= z <= Z.of_nat n)%Z -> P z = true.
Proof.
  intros H z Hz. rewrite forallb_forall in H. apply H.
  unfold upto. apply in_map_iff. exists (Z.to_nat z). split; [lia |].
  apply in_seq. lia.
Qed.

Lemma slice_last {A : Type} (l : list A) width :
  (1 <= width)%Z ->
  Array_sliceFrom l (- width)
  = skipn (Z.to_nat (Z.max 0 (Z.of_nat (length l) - width))) l.
Proof.
  intros Hw. unfold Array_sliceFrom, Array_slice, relativeIndex.
  destruct (Z.ltb_spec (- width) 0); [| lia].
  destruct (Z.ltb_spec (Z.of_nat (length l)) 0); [lia |].
  rewrite Z.min_id.
  replace (Z.of_nat (length l) + - width)%Z with (Z.of_nat (length l) - width)%Z by lia.
  apply firstn_all2. rewrite length_skipn. lia.
Qed.

End RangeFacts.

Module Sparkline.

Import Trend Ranges RangeFacts.

(** On every health score the glyph index is the exact rounding of
    [7 * score / 100]; no binary64 slip occurs on this range. *)
Lemma sparkIndex_exact_upto :
  forallb (fun v => Z.eqb (sparkIndex v) (roundedShare v 7)) (upto 100) = true.
Proof. vm_compute. reflexivity. Qed.

(** X8.  The trend line is exactly [width] glyphs wide; it shows the last
    [width] samples, the newest on the right, and with fewer samples it is
    filled on the left with the lowest glyph; with no sample at all it is a
    row of dots. *)
Theorem sparkline_shape points width :
  (1 <= width)%Z ->
  Z.of_nat (length (sparkline points width)) = width
  /\ (points = [] -> sparkline points width = repeat MIDDLE_DOT (Z.to_nat width))
  /\ (points <> [] -> (Z.of_nat (length points) < width)%Z ->
      sparkline points width
      = repeat (glyph 0) (Z.to_nat (width - Z.of_nat (length points)))
        ++ map glyph points)
  /\ (forall older recent,
        points = older ++ recent -> Z.of_nat (length recent) = width ->
        sparkline points width = map glyph recent).
Proof.
  intros Hw.
  assert (Hempty : points = [] ->
                   sparkline points width = repeat MIDDLE_DOT (Z.to_nat width)).
  { intros ->. reflexivity. }
  assert (Hshort : points <> [] -> (Z.of_nat (length points) < width)%Z ->
                   sparkline points width
                   = repeat (glyph 0) (Z.to_nat (width - Z.of_nat (length points)))
                     ++ map glyph points).
  { intros Hne Hlt. unfold sparkline.
    destruct points as [| p ps]; [congruence |].
    change (length (p :: ps) =? 0) with false. cbv iota.
    rewrite slice_last by exact Hw.
    rewrite Z.max_l by lia. change (Z.to_nat 0) with 0. rewrite skipn_O.
    destruct (Z.ltb_spec (Z.of_nat (length (p :: ps))) width); [| lia].
    rewrite map_app, map_repeat. reflexivity. }
  assert (Hlong : forall older recent,
             points = older ++ recent -> Z.of_nat (length recent) = width ->
             sparkline points width = map glyph recent).
  { intros older recent -> Hlen. unfold sparkline.
    destruct (older ++ recent) as [| p ps] eqn:Hp.
    - destruct older, recent; simpl in *; try discriminate; lia.
    - change (length (p :: ps) =? 0) with false. cbv iota.
      rewrite <- Hp. rewrite slice_last by exact Hw.
      rewrite length_app.
      replace (Z.to_nat (Z.max 0 (Z.of_nat (length older + length recent) - width)))
        with (length older) by lia.
      rewrite skipn_app, Nat.sub_diag, skipn_all, skipn_O. simpl.
      destruct (Z.ltb_spec (Z.of_nat (length recent)) width); [lia |].
      reflexivity. }
  split; [| split; [exact Hempty | split; [exact Hshort | exact Hlong]]].
  destruct points as [| p ps] eqn:Hp.
  - rewrite Hempty by reflexivity. rewrite repeat_length. lia.
  - rewrite <- Hp in *.
    destruct (Z.lt_ge_cases (Z.of_nat (length points)) width) as [Hlt | Hge].
    + rewrite Hshort by (auto; subst; discriminate).
      rewrite length_app, repeat_length, length_map. lia.
    + rewrite (Hlong (firstn (length points - Z.to_nat width) points)
                     (skipn (length points - Z.to_nat width) points)).
      * rewrite length_map, length_skipn. lia.
      * symmetry. apply firstn_skipn.
      * rewrite length_skipn. lia.
Qed.

Lemma sparkline_shape_witness :
  sparkline [0; 50; 100]%Z 5 = [9601; 9601; 9601; 9605; 9608]%N
  /\ sparkline [10; 20; 0; 50; 100]%Z 3 = [9601; 9605; 9608]%N.
Proof.
  destruct (sparkline_shape [0; 50; 100]%Z 5 ltac:(lia)) as [_ [_ [Hshort _]]].
  destruct (sparkline_shape [10; 20; 0; 50; 100]%Z 3 ltac:(lia)) as [_ [_ [_ Hlong]]].
  split.
  - rewrite Hshort; [vm_compute; reflexivity | discriminate | simpl; lia].
  - rewrite (Hlong [10; 20]%Z [0; 50; 100]%Z); [vm_compute | | ]; reflexivity.
Defined.

(** X9.  On health scores the trend glyph is faithful: for every score
    from 0 to 100 the glyph index is [7 * score / 100] rounded to the
    nearest integer, so it lies in 0..7, is 0 for 0 and 7 for 100, and
    never decreases when the score grows. *)
Theorem sparkIndex_on_scores value value' :
  (0 <= value <= 100)%Z -> (0 <= value' <= 100)%Z ->
  sparkIndex value = roundedShare value 7
  /\ (0 <= sparkIndex value <= 7)%Z
  /\ (value <= value' -> sparkIndex value <= sparkIndex value')%Z
  /\ sparkIndex 0 = 0%Z /\ sparkIndex 100 = 7%Z.
Proof.
  intros Hv Hv'.
  assert (Hexact : forall z, (0 <= z <= 100)%Z -> sparkIndex z = roundedShare z 7).
  { intros z Hz. apply Z.eqb_eq.
    exact (upto_forall _ 100 sparkIndex_exact_upto z Hz). }
  rewrite !Hexact by lia. unfold roundedShare.
  split; [reflexivity |]. split; [| split; [| split]].
  - split.
    + apply Z.div_pos; lia.
    + assert (((2 * value * 7 + 100) / 200 < 8)%Z)
        by (apply Z.div_lt_upper_bound; lia).
      lia.
  - intros Hle. apply Z.div_le_mono; lia.
  - reflexivity.
  - reflexivity.
Qed.

Lemma sparkIndex_on_scores_witness :
  sparkIndex 57 = 4%Z /\ (sparkIndex 57 <= sparkIndex 58)%Z.
Proof.
  destruct (sparkIndex_on_scores 57 58 ltac:(lia) ltac:(lia)) as [He [_ [Hm _]]].
  split; [rewrite He; reflexivity | apply Hm; lia].
Defined.

End Sparkline.

(** ** The detail panel and the provider list *)

Module PanelFacts.

Import StatusModel Spec Trend Panels Ranges RangeFacts.

Lemma lineColor_bad line :
  lineColor line = bad
  <-> startsWith (lit "ERROR:") line || includes (lit "unavailable") line = true.
Proof.
  unfold lineColor.
  destruct (startsWith (lit "ERROR:") line); [simpl; tauto |].
  destruct (includes (lit "unavailable") line); [simpl; tauto |].
  simpl.
  destruct (includes (lit "skipped") line); [split; discriminate |].
  destruct (endsWith (lit "window") line); [split; discriminate |].
  destruct (startsWith (lit "used") line); [split; discriminate |].
  destruct (includes (lit "remaining") line); split; discriminate.
Qed.

(** X10.  The colours of the detail panel agree with the classification of
    the parser: a parsed section has status [error] exactly when one of its
    lines is drawn in the error colour; a section with status [warning] has
    no line in the error colour and a line in the warning colour; a section
    with status [ok] has no line in the error colour. *)
Theorem line_colours_match_status content s :
  In s (parseSections content) ->
  (StatusModel.status s = Sec_error
   <-> exists line, In line (lines s) /\ lineColor line = bad)
  /\ (StatusModel.status s = Sec_warning ->
      (forall line, In line (lines s) -> lineColor line <> bad)
      /\ exists line, In line (lines s) /\ lineColor line = warn)
  /\ (StatusModel.status s = Sec_ok ->
      forall line, In line (lines s) -> lineColor line <> bad).
Proof.
  intros Hin.
  destruct (ParserFacts.parseSections_classified content s Hin) as [s0 [-> Hok]].
  assert (Hlines : lines (classify s0) = lines s0).
  { unfold classify. destruct (existsb _ _); [reflexivity |].
    destruct (existsb _ _); reflexivity. }
  rewrite Hlines. unfold classify.
  destruct (existsb (fun line => startsWith (lit "ERROR:") line
                                 || includes (lit "unavailable") line)
                    (lines s0)) eqn:E1.
  - simpl. apply existsb_exists in E1. destruct E1 as [line [Hl Hb]].
    split; [| split]; try discriminate.
    split; [intros _ | reflexivity].
    exists line. split; [exact Hl | now apply lineColor_bad].
  - assert (Hnone : forall line, In line (lines s0) -> lineColor line <> bad).
    { intros line Hl Hb. apply lineColor_bad in Hb.
      assert (Hex : existsb (fun line => startsWith (lit "ERROR:") line
                                         || includes (lit "unavailable") line)
                            (lines s0) = true)
        by (apply existsb_exists; now exists line).
      congruence. }
    destruct (existsb (fun line => includes (lit "skipped") line) (lines s0)) eqn:E2.
    + simpl. apply existsb_exists in E2. destruct E2 as [line [Hl Hs]].
      split; [| split]; try discriminate.
      * split; [discriminate |]. intros [l [Hl' Hb]]. now destruct (Hnone l Hl').
      * intros _. split; [exact Hnone |]. exists line. split; [exact Hl |].
        pose proof (Hnone line Hl) as Hnb. unfold lineColor in *.
        destruct (startsWith (lit "ERROR:") line); [congruence |].
        destruct (includes (lit "unavailable") line); [congruence |].
        now rewrite Hs.
    + rewrite Hok. split; [| split]; try discriminate.
      * split; [discriminate |]. intros [l [Hl' Hb]]. now destruct (Hnone l Hl').
      * intros _. exact Hnone.
Qed.

Lemma line_colours_match_status_witness :
  exists s line,
    In s (parseSections (content (Query.queryProviders Samples.noon Samples.three)))
    /\ name s = lit "Codex" /\ In line (lines s) /\ lineColor line = bad.
Proof.
  set (s := {| name := lit "Codex"; lines := [lit "ERROR: timeout"; []];
               StatusModel.status := Sec_error |}).
  assert (Hin : In s (parseSections
                        (content (Query.queryProviders Samples.noon Samples.three)))).
  { vm_compute. right. left. reflexivity. }
  destruct (proj1 (proj1 (line_colours_match_status _ s Hin)) eq_refl)
    as [line [Hl Hb]].
  exists s, line. repeat split; auto.
Defined.

Lemma percentsList_range ls :
  Forall (fun p => (0 <= p <= 100)%Z) (percentsList ls).
Proof.
  induction ls as [| line ls IH]; simpl; [constructor |].
  destruct (matchRemaining line); simpl; [| exact IH].
  constructor; [unfold clampPercent; lia | exact IH].
Qed.

Lemma percentsList_count ls : length (percentsList ls) <= length ls.
Proof.
  induction ls as [| line ls IH]; simpl; [lia |].
  destruct (matchRemaining line); simpl; lia.
Qed.

Lemma total_range ps :
  Forall (fun p => (0 <= p <= 100)%Z) ps ->
  (0 <= total ps <= 100 * Z.of_nat (length ps))%Z.
Proof. induction 1 as [| p ps Hp _ IH]; unfold total in *; simpl; lia. Qed.

Lemma averageRemaining_bounds found avg :
  averageRemaining found = Some avg -> (0 <= avg <= 100)%Z.
Proof.
  destruct found as [s |]; [| unfold averageRemaining; simpl; discriminate].
  unfold averageRemaining. rewrite Summary.extract_percentsList.
  pose proof (total_range _ (percentsList_range (lines s))) as Ht. revert Ht.
  destruct (percentsList (lines s)) as [| p ps]; intros Ht; [discriminate |].
  change (length (p :: ps) =? 0) with false. cbv iota.
  rewrite Summary.sum_loop, Z.add_0_l.
  assert (Hn : (0 < Z.of_nat (length (p :: ps)))%Z) by (simpl; lia).
  remember (Z.of_nat (length (p :: ps))) as n eqn:En.
  remember (total (p :: ps)) as t eqn:Et.
  clear En Et. intros Havg. injection Havg as Havg. subst avg.
  unfold roundedQuotient. split.
  - apply Z.div_pos; lia.
  - assert (((2 * t + n) / (2 * n) < 101)%Z)
      by (apply Z.div_lt_upper_bound; lia).
    lia.
Qed.

(** X11.  Every percentage read from a section lies between 0 and 100,
    there is at most one per line, and so the average-remaining of a
    summary, when there is one, lies between 0 and 100. *)
Theorem average_remaining_in_range found :
  Forall (fun p => (0 <= p <= 100)%Z) (extractRemainingPercents found)
  /\ (forall s, found = Some s ->
                length (extractRemainingPercents found) <= length (lines s))
  /\ (forall avg, averageRemaining found = Some avg -> (0 <= avg <= 100)%Z).
Proof.
  split; [| split].
  - destruct found as [s |]; [| constructor].
    rewrite Summary.extract_percentsList. apply percentsList_range.
  - intros s ->. rewrite Summary.extract_percentsList. apply percentsList_count.
  - apply averageRemaining_bounds.
Qed.

Lemma average_remaining_in_range_witness :
  averageRemaining
    (Some {| name := lit "Kimi"; lines := [lit "999% remaining"; lit "0% remaining"];
             StatusModel.status := Sec_ok |})
  = Some 50%Z.
Proof.
  destruct (average_remaining_in_range
              (Some {| name := lit "Kimi";
                       lines := [lit "999% remaining"; lit "0% remaining"];
                       StatusModel.status := Sec_ok |})) as [_ [_ Havg]].
  assert (H : exists avg,
             averageRemaining
               (Some {| name := lit "Kimi";
                        lines := [lit "999% remaining"; lit "0% remaining"];
                        StatusModel.status := Sec_ok |}) = Some avg)
    by (eexists; vm_compute; reflexivity).
  destruct H as [avg H]. specialize (Havg avg H).
  rewrite H. vm_compute in H. injection H as <-. reflexivity.
Defined.

(** *** Padding *)

Lemma slice_prefix {A : Type} (l : list A) w :
  (0 <= w <= Z.of_nat (length l))%Z ->
  Array_slice l 0 w = firstn (Z.to_nat w) l.
Proof.
  intros Hw. unfold Array_slice, relativeIndex.
  destruct (Z.ltb_spec w 0); [lia |]. simpl.
  rewrite Z.min_l, Z.min_l by lia. rewrite Z.sub_0_r. reflexivity.
Qed.

Lemma pad_fits value width :
  (Z.of_nat (length value) <= width)%Z ->
  padRight value width
  = value ++ repeat SPACE (Z.to_nat (width - Z.of_nat (length value)))
  /\ padLeft value width
     = repeat SPACE (Z.to_nat (width - Z.of_nat (length value))) ++ value.
Proof.
  intros Hle. unfold padRight, padLeft.
  destruct (Z.leb_spec width (Z.of_nat (length value))) as [Hge | Hlt].
  - assert (E : width = Z.of_nat (length value)) by lia.
    rewrite slice_prefix by lia. rewrite E, Z.sub_diag, Nat2Z.id, firstn_all.
    simpl. now rewrite app_nil_r.
  - split; reflexivity.
Qed.

Lemma pad_cuts value width :
  (0 <= width <= Z.of_nat (length value))%Z ->
  padRight value width = firstn (Z.to_nat width) value
  /\ padLeft value width = firstn (Z.to_nat width) value.
Proof.
  intros Hge. unfold padRight, padLeft.
  destruct (Z.leb_spec width (Z.of_nat (length value))); [| lia].
  rewrite slice_prefix by lia. split; reflexivity.
Qed.

Lemma pad_length value width :
  (0 <= width)%Z ->
  Z.of_nat (length (padRight value width)) = width
  /\ Z.of_nat (length (padLeft value width)) = width.
Proof.
  intros Hw.
  destruct (Z.le_gt_cases (Z.of_nat (length value)) width) as [Hle | Hgt].
  - destruct (pad_fits value width Hle) as [-> ->].
    rewrite !length_app, repeat_length. lia.
  - destruct (pad_cuts value width ltac:(lia)) as [-> ->].
    rewrite length_firstn. lia.
Qed.

(** X12.  [padRight] and [padLeft] always return exactly [width] code
    units: a value that fits is kept whole, with the spaces after it
    ([padRight]) or before it ([padLeft]); a longer value is cut to its
    first [width] units. *)
Theorem padding_is_exact value width :
  (0 <= width)%Z ->
  Z.of_nat (length (padRight value width)) = width
  /\ Z.of_nat (length (padLeft value width)) = width
  /\ ((Z.of_nat (length value) <= width)%Z ->
      padRight value width
      = value ++ repeat SPACE (Z.to_nat (width - Z.of_nat (length value)))
      /\ padLeft value width
         = repeat SPACE (Z.to_nat (width - Z.of_nat (length value))) ++ value)
  /\ ((width <= Z.of_nat (length value))%Z ->
      padRight value width = firstn (Z.to_nat width) value
      /\ padLeft value width = firstn (Z.to_nat width) value).
Proof.
  intros Hw.
  destruct (pad_length value width Hw) as [Hr Hl].
  split; [exact Hr |]. split; [exact Hl |]. split.
  - apply pad_fits.
  - intros Hge. apply pad_cuts. lia.
Qed.

Lemma padding_is_exact_witness :
  padRight (lit "Copilot") 10 = lit "Copilot   "
  /\ padLeft (lit "60%") 5 = lit "  60%"
  /\ padRight (lit "Antigravity Pro") 8 = lit "Antigrav".
Proof.
  destruct (padding_is_exact (lit "Copilot") 10 ltac:(lia)) as [_ [_ [H1 _]]].
  destruct (padding_is_exact (lit "60%") 5 ltac:(lia)) as [_ [_ [H2 _]]].
  destruct (padding_is_exact (lit "Antigravity Pro") 8 ltac:(lia)) as [_ [_ [_ H3]]].
  split; [| split].
  - rewrite (proj1 (H1 ltac:(vm_compute; discriminate))). vm_compute. reflexivity.
  - rewrite (proj2 (H2 ltac:(vm_compute; discriminate))). vm_compute. reflexivity.
  - rewrite (proj1 (H3 ltac:(vm_compute; discriminate))). vm_compute. reflexivity.
Defined.

End PanelFacts.

(** ** The rows of the provider list and the meter *)

Module BarFacts.

Import StatusModel Spec Trend Panels Board Ranges RangeFacts PanelFacts.

(** The share [round(value / 100 * width)] as binary64 computes it: up to
    width 28 it is the exact rounded share, except at width 25, where the
    product can fall just below a half. *)
Lemma filled_exact_upto :
  forallb (fun width =>
             (width =? 25)%Z
             || forallb (fun value =>
                           Z.eqb (Math_round ((Number_of_Z value / 100)
                                              * Number_of_Z width)%float)
                                 (roundedShare value width))
                        (upto 100))
          (upto 28)
  = true.
Proof. vm_compute. reflexivity. Qed.

Lemma filled_exact value width :
  (0 <= value <= 100)%Z -> (0 <= width <= 28)%Z -> width <> 25%Z ->
  Math_round ((Number_of_Z value / 100) * Number_of_Z width)%float
  = roundedShare value width.
Proof.
  intros Hv Hw Hne. apply Z.eqb_eq.
  pose proof (upto_forall _ 28 filled_exact_upto width Hw) as H.
  cbv beta in H. apply orb_true_iff in H. destruct H as [H | H].
  - apply Z.eqb_eq in H. contradiction.
  - exact (upto_forall _ 100 H value Hv).
Qed.

Lemma roundedShare_range value width :
  (0 <= value <= 100)%Z -> (0 <= width)%Z ->
  (0 <= roundedShare value width <= width)%Z.
Proof.
  intros Hv Hw. unfold roundedShare. split.
  - apply Z.div_pos; nia.
  - assert (((2 * value * width + 100) / 200 < width + 1)%Z)
      by (apply Z.div_lt_upper_bound; nia).
    lia.
Qed.

Lemma decimal_short_upto :
  forallb (fun v => (length (String_of_Z v) <=? 3)%nat) (upto 100) = true.
Proof. vm_compute. reflexivity. Qed.

Lemma String_repeat_length c n :
  (0 <= n)%Z -> Z.of_nat (length (String_repeat c n)) = n.
Proof. intros Hn. unfold String_repeat. rewrite repeat_length. lia. Qed.

(** X13.  The cells of every row of the provider list keep their columns:
    the name cell is exactly [nameWidth] wide (between 8 and 16); the usage
    bar is exactly [barWidth] wide, its filled part being the
    average-remaining share of the width, rounded; the percentage is never
    cut (it is right-aligned in its five columns); and the status word,
    where the column is shown, is never cut either. *)
Theorem provider_row_cells compact tiny toLowerCase providers sections entry :
  let entries := buildProviderSummaries toLowerCase providers sections in
  In entry entries ->
  Z.of_nat (length (nameCell tiny entries entry)) = nameWidth tiny entries
  /\ (8 <= nameWidth tiny entries <= 16)%Z
  /\ Z.of_nat (length (bar compact tiny entry)) = barWidth compact tiny
  /\ filled compact tiny entry
     = match avgRemaining entry with
       | None => 0%Z
       | Some avg => roundedShare avg (barWidth compact tiny)
       end
  /\ score entry
     = repeat SPACE (Z.to_nat (scoreWidth - Z.of_nat (length (pct entry))))
       ++ pct entry
  /\ (showStatus tiny = true ->
      exists word,
        Panels.statusText compact tiny entry
        = word ++ repeat SPACE (Z.to_nat (statusWidth compact tiny
                                          - Z.of_nat (length word)))
        /\ word = match section entry with
                  | Some s => asciiUpper (sectionStatusText (StatusModel.status s))
                  | None => lit "IDLE"
                  end).
Proof.
  intros entries Hin.
  assert (Havg : forall avg, avgRemaining entry = Some avg -> (0 <= avg <= 100)%Z).
  { intros avg Ha. unfold entries, buildProviderSummaries in Hin.
    apply in_map_iff in Hin. destruct Hin as [p [<- _]]. simpl in Ha.
    exact (averageRemaining_bounds _ _ Ha). }
  assert (Hname : (8 <= nameWidth tiny entries <= 16)%Z).
  { unfold nameWidth. destruct tiny; lia. }
  assert (Hbw : (0 <= barWidth compact tiny <= 28)%Z
                /\ barWidth compact tiny <> 25%Z).
  { unfold barWidth. destruct tiny, compact; lia. }
  assert (Hfilled : filled compact tiny entry
                    = match avgRemaining entry with
                      | None => 0%Z
                      | Some avg => roundedShare avg (barWidth compact tiny)
                      end).
  { unfold filled. destruct (avgRemaining entry) as [avg |]; [| reflexivity].
    apply filled_exact; [auto | apply Hbw | apply Hbw]. }
  split; [| split; [exact Hname | split; [| split; [exact Hfilled | split]]]].
  - unfold nameCell. apply pad_length. lia.
  - unfold bar, padEnd. rewrite length_app, Nat2Z.inj_add.
    assert (Hf : (0 <= filled compact tiny entry <= barWidth compact tiny)%Z).
    { rewrite Hfilled. destruct (avgRemaining entry) as [avg |]; [| lia].
      apply roundedShare_range; [auto | lia]. }
    rewrite String_repeat_length by lia.
    rewrite String_repeat_length; lia.
  - unfold score. apply pad_fits.
    unfold pct, scoreWidth. destruct (avgRemaining entry) as [avg |] eqn:Ha.
    + pose proof (upto_forall _ 100 decimal_short_upto avg (Havg avg eq_refl)) as Hlen.
      apply Nat.leb_le in Hlen. rewrite length_app.
      replace (length (lit "%")) with 1%nat by (vm_compute; reflexivity). lia.
    + vm_compute. discriminate.
  - intros Hshow. unfold showStatus in Hshow. destruct tiny; [discriminate |].
    eexists. split; [| reflexivity].
    unfold Panels.statusText. apply pad_fits.
    unfold statusWidth.
    destruct (section entry) as [s |]; [destruct (StatusModel.status s) |];
      destruct compact; vm_compute; discriminate.
Qed.

Lemma provider_row_cells_witness :
  let entries := buildProviderSummaries asciiLower Samples.three SummarySamples.sections in
  map (fun entry => (bar false false entry, score entry)) entries
  = [(repeat MIDDLE_DOT 14, lit "  n/a");
     (repeat BLOCK 8 ++ repeat MIDDLE_DOT 6, lit "  60%");
     (repeat MIDDLE_DOT 14, lit "  n/a")]
  /\ Forall (fun entry => Z.of_nat (length (bar false false entry)) = 14%Z) entries.
Proof.
  intros entries. split; [vm_compute; reflexivity |].
  apply Forall_forall. intros entry Hin.
  destruct (provider_row_cells false false asciiLower Samples.three
              SummarySamples.sections entry Hin) as [_ [_ [Hbar _]]].
  exact Hbar.
Defined.

(** X14.  The meter of the blessed board is exactly [width] cells wide for
    every integer percentage, at every width up to 28 other than 25 (the
    board draws it 20, 24 and 28 wide): the filled part is the percentage,
    clamped to [0, 100], as a share of the width, rounded, and the rest is
    shade. *)
Theorem meter_is_exact percent width :
  (0 <= width <= 28)%Z -> width <> 25%Z ->
  let filledCells := roundedShare (Z.max 0 (Z.min 100 percent)) width in
  buildMeter percent width
  = repeat BLOCK (Z.to_nat filledCells)
    ++ repeat LIGHT_SHADE (Z.to_nat (width - filledCells))
  /\ Z.of_nat (length (buildMeter percent width)) = width
  /\ (0 <= filledCells <= width)%Z.
Proof.
  intros Hw Hne filledCells.
  assert (Hr : (0 <= filledCells <= width)%Z)
    by (apply roundedShare_range; lia).
  assert (Hm : buildMeter percent width
               = repeat BLOCK (Z.to_nat filledCells)
                 ++ repeat LIGHT_SHADE (Z.to_nat (width - filledCells))).
  { unfold buildMeter. rewrite filled_exact by lia. fold filledCells.
    unfold String_repeat. rewrite Z.max_r by lia. reflexivity. }
  split; [exact Hm |]. split; [| exact Hr].
  rewrite Hm, length_app, !repeat_length. lia.
Qed.

Lemma meter_is_exact_witness :
  buildMeter 57 28 = repeat BLOCK 16 ++ repeat LIGHT_SHADE 12
  /\ buildMeter 250 20 = repeat BLOCK 20.
Proof.
  destruct (meter_is_exact 57 28 ltac:(lia) ltac:(lia)) as [H1 _].
  destruct (meter_is_exact 250 20 ltac:(lia) ltac:(lia)) as [H2 _].
  split; [rewrite H1 | rewrite H2]; vm_compute; reflexivity.
Defined.

Lemma split_lines_count content :
  length (split_lines content) = S (count_occ N.eq_dec content LF).
Proof.
  induction content as [| c content IH]; simpl; [reflexivity |].
  destruct (N.eqb_spec c LF) as [-> | Hne].
  - destruct (N.eq_dec LF LF); [| contradiction]. simpl. now rewrite IH.
  - destruct (N.eq_dec c LF); [contradiction |].
    pose proof (StringFacts.split_lines_cons_nonempty content) as Hnil.
    destruct (split_lines content); [contradiction |]. exact IH.
Qed.

(** X15.  [countLines] is 0 for the empty content and otherwise one more
    than the number of newlines: a trailing newline counts a last, empty
    line. *)
Theorem countLines_counts content :
  (content = [] -> countLines content = 0%Z)
  /\ (content <> [] ->
      countLines content = Z.of_nat (S (count_occ N.eq_dec content LF)))
  /\ countLines (content ++ [LF])
     = Z.of_nat (S (S (count_occ N.eq_dec content LF))).
Proof.
  split; [| split].
  - intros ->. reflexivity.
  - intros Hne. unfold countLines.
    destruct content; [congruence |]. simpl truthy. cbv iota beta.
    simpl negb. cbv iota. now rewrite split_lines_count.
  - unfold countLines.
    destruct (content ++ [LF]) as [| c rest] eqn:E.
    + destruct content; discriminate E.
    + simpl truthy. simpl negb. cbv iota. rewrite <- E.
      rewrite split_lines_count, count_occ_app. simpl.
      destruct (N.eq_dec LF LF); [| contradiction]. f_equal. lia.
Qed.

Lemma countLines_counts_witness :
  countLines (lit "a" ++ [LF] ++ lit "b") = 2%Z /\ countLines [] = 0%Z.
Proof.
  destruct (countLines_counts (lit "a" ++ [LF] ++ lit "b")) as [_ [H _]].
  destruct (countLines_counts []) as [H0 _].
  split; [| now apply H0].
  rewrite H; [vm_compute; reflexivity | vm_compute; discriminate].
Defined.

End BarFacts.

(** ** The responsive layout of the blessed board *)

Module Layout.

Import Board Ranges RangeFacts.

(** X16.  The layout mode is decided by the size of the screen alone:
    studio from 155 columns and 34 rows, dual from 120 columns otherwise,
    focus below 98 columns and stack between.  The insights rail is shown in
    studio mode only, the active panel is always shown, the other panel is
    hidden in focus mode only, and the layout never changes which panel is
    active. *)
Theorem layout_mode_by_size cols rows copilotLines codexLines w :
  let w' := applyResponsiveLayout cols rows copilotLines codexLines w in
  activePanel w' = activePanel w
  /\ (layoutMode w' = studio <-> (155 <= cols /\ 34 <= rows)%Z)
  /\ (layoutMode w' = dual <-> (120 <= cols /\ ~ (155 <= cols /\ 34 <= rows))%Z)
  /\ (layoutMode w' = stack <-> (98 <= cols < 120)%Z)
  /\ (layoutMode w' = focus <-> (cols < 98)%Z)
  /\ (hidden (insights w') = false <-> layoutMode w' = studio)
  /\ hidden (panelBox (activePanel w) w') = false
  /\ (hidden (panelBox (other (activePanel w)) w') = true
      <-> layoutMode w' = focus).
Proof.
  intros w'. unfold w', applyResponsiveLayout.
  destruct (Z.leb_spec 155 cols) as [H155 | H155];
    destruct (Z.leb_spec 34 rows) as [H34 | H34];
    destruct (Z.leb_spec 120 cols) as [H120 | H120];
    destruct (Z.ltb_spec cols 98) as [H98 | H98];
    try lia; cbv [andb];
    destruct (activePanel w) eqn:Ea; simpl;
    repeat (split; try reflexivity; try lia; try discriminate; try (intros; exfalso; lia)).
Qed.

Lemma layout_mode_by_size_witness :
  layoutMode (applyResponsiveLayout 100 30 0 0 initial) = stack
  /\ hidden (insights (applyResponsiveLayout 100 30 0 0 initial)) = true.
Proof.
  destruct (layout_mode_by_size 100 30 0 0 initial)
    as [_ [_ [_ [Hstack [_ [Hins _]]]]]].
  assert (Hm : layoutMode (applyResponsiveLayout 100 30 0 0 initial) = stack)
    by (apply Hstack; lia).
  split; [exact Hm |].
  destruct (hidden (insights (applyResponsiveLayout 100 30 0 0 initial)));
    [reflexivity |].
  rewrite (proj1 Hins eq_refl) in Hm. discriminate.
Defined.

(** X17.  In stack mode the top panel is at least 8 rows high whatever the
    two line counts, the second panel starts right below it and the two
    heights add up to the body height.  From 24 rows the second panel has at
    least 8 rows as well and the board fills the screen exactly; below 16
    rows it is left with no row at all. *)
Theorem stack_heights cols rows copilotLines codexLines w :
  (98 <= cols < 120)%Z ->
  let w' := applyResponsiveLayout cols rows copilotLines codexLines w in
  exists topHeight bottomHeight,
    height (copilotPanel w') = Some topHeight
    /\ height (codexPanel w') = Some bottomHeight
    /\ top (copilotPanel w') = bodyTop
    /\ top (codexPanel w') = (bodyTop + topHeight)%Z
    /\ (topHeight + bottomHeight = bodyHeight rows)%Z
    /\ (8 <= topHeight)%Z
    /\ (24 <= rows ->
        8 <= bottomHeight /\ bodyTop + topHeight + bottomHeight + 1 = rows)%Z
    /\ (rows < 16 -> topHeight = 8 /\ bottomHeight = 0)%Z.
Proof.
  intros Hc w'. unfold w', applyResponsiveLayout.
  destruct (Z.leb_spec 155 cols); [lia |]. cbv [andb].
  destruct (Z.leb_spec 120 cols); [lia |].
  destruct (Z.ltb_spec cols 98); [lia |].
  cbv zeta. cbn [height top copilotPanel codexPanel show place].
  exists (stackTop rows copilotLines codexLines),
         (bodyHeight rows - stackTop rows copilotLines codexLines)%Z.
  split; [reflexivity |]. split; [reflexivity |].
  split; [reflexivity |]. split; [reflexivity |].
  unfold stackTop, bodyHeight, bodyTop. cbv zeta.
  set (x := Math_round _). clearbody x.
  repeat split; lia.
Qed.

Lemma stack_heights_witness :
  let w' := applyResponsiveLayout 100 30 40 10 initial in
  height (copilotPanel w') = Some 14%Z /\ height (codexPanel w') = Some 8%Z.
Proof.
  destruct (stack_heights 100 30 40 10 initial ltac:(lia))
    as [t [b [Ht [Hb [_ [_ [Hsum [Hmin [Hbig _]]]]]]]]].
  cbv zeta. rewrite Ht, Hb.
  assert (E : t = 14%Z).
  { vm_compute in Ht. now injection Ht. }
  subst t. unfold bodyHeight, bodyTop in Hsum. split; [reflexivity | f_equal; lia].
Defined.

Lemma geometry_upto :
  forallb (fun n =>
             Z.eqb (Math_floor (Number_of_Z n * 0.3)%float) (3 * n / 10)
             && Z.eqb (Math_floor (Number_of_Z n / 2)%float) (n / 2)
             && Z.eqb (Math_floor (Number_of_Z n * 0.45)%float) (45 * n / 100))
          (upto 500)
  = true.
Proof. vm_compute. reflexivity. Qed.

Lemma geometry_exact n :
  (0 <= n <= 500)%Z ->
  Math_floor (Number_of_Z n * 0.3)%float = (3 * n / 10)%Z
  /\ Math_floor (Number_of_Z n / 2)%float = (n / 2)%Z
  /\ Math_floor (Number_of_Z n * 0.45)%float = (45 * n / 100)%Z.
Proof.
  intros Hn. pose proof (upto_forall _ 500 geometry_upto n Hn) as H.
  cbv beta in H. apply andb_true_iff in H. destruct H as [H H3].
  apply andb_true_iff in H. destruct H as [H1 H2].
  apply Z.eqb_eq in H1, H2, H3. auto.
Qed.

(** X18.  On screens of up to 500 columns and rows the wide layouts tile
    the body of the screen.  In studio mode the rail takes three tenths of
    the columns, rounded down, the two panels share the rest, one above the
    other, the upper one taking 45 percent of the body, rounded down, and
    both have rows.  In dual mode the panels stand side by side, the right
    one being the wider by at most one column. *)
Theorem wide_layouts_tile cols rows copilotLines codexLines w :
  (120 <= cols <= 500)%Z -> (0 <= rows <= 500)%Z ->
  let w' := applyResponsiveLayout cols rows copilotLines codexLines w in
  let body := bodyHeight rows in
  ((155 <= cols /\ 34 <= rows)%Z ->
   let rail := (3 * cols / 10)%Z in
   let upper := (45 * body / 100)%Z in
   width (insights w') = Cells rail
   /\ left (insights w') = Cells (cols - rail)
   /\ height (insights w') = Some body
   /\ width (copilotPanel w') = Cells (cols - rail)
   /\ width (codexPanel w') = Cells (cols - rail)
   /\ height (copilotPanel w') = Some upper
   /\ height (codexPanel w') = Some (body - upper)%Z
   /\ top (codexPanel w') = (top (copilotPanel w') + upper)%Z
   /\ (46 <= rail < cols /\ 11 <= upper < body /\ body = rows - 8)%Z)
  /\ (~ (155 <= cols /\ 34 <= rows)%Z ->
      let half := (cols / 2)%Z in
      left (copilotPanel w') = Cells 0
      /\ width (copilotPanel w') = Cells half
      /\ left (codexPanel w') = Cells half
      /\ width (codexPanel w') = Cells (cols - half)
      /\ height (copilotPanel w') = Some body
      /\ height (codexPanel w') = Some body
      /\ top (copilotPanel w') = top (codexPanel w')
      /\ (0 <= (cols - half) - half <= 1)%Z).
Proof.
  intros Hc Hr w' body. unfold w', applyResponsiveLayout.
  assert (Hb : (0 <= bodyHeight rows <= 500)%Z) by (unfold bodyHeight, bodyTop; lia).
  destruct (geometry_exact cols ltac:(lia)) as [Hrail [Hhalf _]].
  destruct (geometry_exact (bodyHeight rows) Hb) as [_ [_ Hupper]].
  split.
  - intros [H155 H34].
    destruct (Z.leb_spec 155 cols); [| lia].
    destruct (Z.leb_spec 34 rows); [| lia].
    cbv [andb]. cbv zeta. cbn [height top left width insights copilotPanel codexPanel show hide place].
    unfold railWidth, studioTop. rewrite Hrail, Hupper. fold body.
    assert (H46 : (46 <= 3 * cols / 10)%Z)
      by (apply Z.div_le_lower_bound; lia).
    assert (Hlt : (3 * cols / 10 < cols)%Z)
      by (apply Z.div_lt_upper_bound; lia).
    assert (Hbody : body = (rows - 8)%Z)
      by (unfold body, bodyHeight, bodyTop; lia).
    assert (H11 : (11 <= 45 * body / 100)%Z)
      by (apply Z.div_le_lower_bound; lia).
    assert (Hub : (45 * body / 100 < body)%Z)
      by (apply Z.div_lt_upper_bound; lia).
    rewrite !Z.max_r by lia.
    repeat split; try reflexivity; lia.
  - intros Hnot.
    assert (E : ((155 <=? cols) && (34 <=? rows))%Z = false).
    { destruct (Z.leb_spec 155 cols); destruct (Z.leb_spec 34 rows);
        try reflexivity. lia. }
    rewrite E. destruct (Z.leb_spec 120 cols); [| lia].
    cbv zeta. cbn [height top left width insights copilotPanel codexPanel show hide place].
    unfold leftWidth. rewrite Hhalf.
    repeat split; try reflexivity.
    + pose proof (Z.div_mod cols 2 ltac:(lia)).
      pose proof (Z.mod_pos_bound cols 2 ltac:(lia)). lia.
    + pose proof (Z.div_mod cols 2 ltac:(lia)).
      pose proof (Z.mod_pos_bound cols 2 ltac:(lia)). lia.
Qed.

Lemma wide_layouts_tile_witness :
  width (insights (applyResponsiveLayout 160 40 0 0 initial)) = Cells 48
  /\ width (codexPanel (applyResponsiveLayout 121 30 0 0 initial)) = Cells 61.
Proof.
  destruct (wide_layouts_tile 160 40 0 0 initial ltac:(lia) ltac:(lia)) as [Hs _].
  destruct (wide_layouts_tile 121 30 0 0 initial ltac:(lia) ltac:(lia)) as [_ Hd].
  split.
  - destruct (Hs ltac:(lia)) as [H _]. exact H.
  - destruct (Hd ltac:(lia)) as [_ [_ [_ [H _]]]]. exact H.
Defined.

(** X25.  Laying the board out again changes nothing, so repainting is
    safe at any time.  The [tab] key only moves the focus: from 98 columns
    on the boxes stay as they are, and below 98 columns the next layout
    shows the newly focused panel over the whole body and hides the other
    one; two [tab]s restore the focus. *)
Theorem layout_is_stable cols rows copilotLines codexLines w :
  let layout := applyResponsiveLayout cols rows copilotLines codexLines in
  layout (layout w) = layout w
  /\ activePanel (switchPanel (switchPanel w)) = activePanel w
  /\ ((98 <= cols)%Z -> layout (switchPanel (layout w)) = switchPanel (layout w))
  /\ ((cols < 98)%Z ->
      let w' := layout (switchPanel (layout w)) in
      let shown := panelBox (other (activePanel w)) w' in
      activePanel w' = other (activePanel w)
      /\ hidden shown = false
      /\ hidden (panelBox (activePanel w) w') = true
      /\ top shown = bodyTop /\ left shown = Cells 0
      /\ width shown = Percent 100 /\ height shown = Some (bodyHeight rows)).
Proof.
  intros layout. unfold layout, applyResponsiveLayout.
  destruct (Z.leb_spec 155 cols) as [H155 | H155];
    destruct (Z.leb_spec 34 rows) as [H34 | H34];
    destruct (Z.leb_spec 120 cols) as [H120 | H120];
    destruct (Z.ltb_spec cols 98) as [H98 | H98];
    try lia; cbv [andb];
    destruct w as [m a cp cx ins]; destruct a;
    cbn [activePanel copilotPanel codexPanel insights layoutMode switchPanel
         panelBox other show hide place top left width height hidden];
    (split; [reflexivity |]); (split; [reflexivity |]);
    (split; [intros; try lia; reflexivity |]);
    intros; try lia; repeat split; reflexivity.
Qed.

Lemma layout_is_stable_witness :
  let w' := applyResponsiveLayout 80 24 0 0
              (switchPanel (applyResponsiveLayout 80 24 0 0 initial)) in
  hidden (codexPanel w') = false /\ hidden (copilotPanel w') = true.
Proof.
  destruct (layout_is_stable 80 24 0 0 initial) as [_ [_ [_ H]]].
  destruct (H ltac:(lia)) as [_ [Hshown [Hhidden _]]].
  split; [exact Hshown | exact Hhidden].
Defined.

End Layout.

(** ** The overall status of a fan-out *)

Module Outcome.

Import Query StatusModel Spec Blocks QueryFacts.

Lemma firstRejection_none providers :
  firstRejection providers = None ->
  exists results, Forall2 settledWith providers results.
Proof.
  induction providers as [| p ps IH]; simpl; intros H.
  - exists []. constructor.
  - destruct (query p) as [r | t e] eqn:E.
    + destruct (IH H) as [rs Hrs]. exists (r :: rs). now constructor.
    + destruct (firstRejection ps) as [[t' e'] |];
        [destruct (t' <? t)%nat |]; discriminate.
Qed.

Lemma failureCount_zero providers results :
  Forall2 settledWith providers results ->
  failureCount results = 0 <-> Forall succeeds providers.
Proof.
  induction 1 as [| p r ps rs Hp _ IH].
  - split; [constructor | reflexivity].
  - unfold settledWith in Hp. unfold failureCount in *. simpl.
    destruct r as [output | error]; simpl.
    + rewrite IH. split.
      * intros Hall. constructor; [now exists output | exact Hall].
      * intros Hall. now inversion Hall.
    + split; [discriminate |].
      intros Hall. inversion Hall as [| ? ? [output Ho] _]; subst.
      rewrite Hp in Ho. discriminate.
Qed.

Lemma rejected_not_all providers t e :
  firstRejection providers = Some (t, e) -> ~ Forall succeeds providers.
Proof.
  induction providers as [| p ps IH]; simpl; [discriminate |].
  intros H Hall. inversion Hall as [| ? ? [output Ho] Hps]; subst.
  rewrite Ho in H. exact (IH H Hps).
Qed.

(** X19.  The overall status of a fan-out is [ok] exactly when every
    provider's query promise is fulfilled with a success, and [error] in
    every other case (a failure outcome or a rejection): it is never left
    idle or loading.  The time of the update is recorded exactly when no
    promise rejects, and the run-once program exits with code 0 exactly
    when the status is [ok]. *)
Theorem overall_status_ok_iff now providers :
  let snapshot := queryProviders now providers in
  (Types.status snapshot = St_ok <-> Forall succeeds providers)
  /\ (Types.status snapshot = St_error <-> ~ Forall succeeds providers)
  /\ (lastUpdated snapshot = Some now
      <-> exists results, Forall2 settledWith providers results)
  /\ (Types.status snapshot = St_ok -> message snapshot = [])
  /\ (last (Once.onceMain now providers) (Exit 2) = Exit 0
      <-> Forall succeeds providers).
Proof.
  intros snapshot.
  assert (Hstatus : (Types.status snapshot = St_ok <-> Forall succeeds providers)
                    /\ (Types.status snapshot = St_ok
                        \/ Types.status snapshot = St_error)
                    /\ (lastUpdated snapshot = Some now
                        <-> exists results, Forall2 settledWith providers results)
                    /\ (Types.status snapshot = St_ok -> message snapshot = [])).
  { destruct (firstRejection providers) as [[t e] |] eqn:Hrej.
    - assert (Hsnap : snapshot = mkAppState None St_error [] (thrownText e)).
      { unfold snapshot, queryProviders, Promise_all. now rewrite Hrej. }
      rewrite Hsnap. simpl. split; [| split; [| split]].
      + split; [discriminate |].
        intros Hall. exfalso. exact (rejected_not_all _ _ _ Hrej Hall).
      + now right.
      + split; [discriminate |]. intros [results Hres].
        rewrite (firstRejection_fulfilled _ _ Hres) in Hrej. discriminate.
      + discriminate.
    - destruct (firstRejection_none _ Hrej) as [results Hres].
      unfold snapshot. rewrite (queryProviders_fulfilled now _ _ Hres). simpl.
      pose proof (failureCount_zero _ _ Hres) as Hzero.
      destruct (failureCount results) as [| n] eqn:En; simpl.
      + split; [| split; [| split]].
        * split; [intros _; now apply Hzero | reflexivity].
        * now left.
        * split; [intros _; now exists results | reflexivity].
        * reflexivity.
      + split; [| split; [| split]].
        * split; [discriminate |]. intros Hall. apply Hzero in Hall. discriminate.
        * now right.
        * split; [intros _; now exists results | reflexivity].
        * discriminate. }
  destruct Hstatus as [Hok [Htwo [Htime Hmsg]]].
  split; [exact Hok |]. split; [| split; [exact Htime | split; [exact Hmsg |]]].
  - rewrite <- Hok. destruct Htwo as [H | H]; rewrite H; split;
      congruence.
  - rewrite <- Hok. unfold Once.onceMain. fold snapshot. simpl.
    destruct Htwo as [H | H]; rewrite H; simpl; split; congruence.
Qed.

Lemma overall_status_ok_iff_witness :
  Types.status (queryProviders Samples.noon [Samples.copilot; Samples.gemini]) = St_ok
  /\ message (queryProviders Samples.noon [Samples.copilot; Samples.gemini]) = [].
Proof.
  destruct (overall_status_ok_iff Samples.noon [Samples.copilot; Samples.gemini])
    as [Hok [_ [_ [Hmsg _]]]].
  assert (H : Types.status (queryProviders Samples.noon
                              [Samples.copilot; Samples.gemini]) = St_ok).
  { apply Hok. repeat constructor; eexists; reflexivity. }
  split; [exact H | exact (Hmsg H)].
Defined.

End Outcome.

(** ** From the fan-out to the rows of the provider list *)

Module Composition.

Import Query StatusModel Spec Blocks StringFacts ParserFacts QueryFacts RoundTrip.

Section Grouped.

Variable nameOf : jsstring -> jsstring.

Lemma grouped_plain body rest :
  Forall (fun l => isMarker l = false) body ->
  grouped nameOf (body ++ rest)
  = (body ++ fst (grouped nameOf rest), snd (grouped nameOf rest)).
Proof.
  induction 1 as [| l ls Hl _ IH]; simpl.
  - now destruct (grouped nameOf rest).
  - rewrite IH, Hl. reflexivity.
Qed.

Lemma grouped_block marker body rest :
  isMarker marker = true ->
  Forall (fun l => isMarker l = false) body ->
  fst (grouped nameOf rest) = [] ->
  grouped nameOf (marker :: body ++ rest)
  = ([], (nameOf marker, body) :: snd (grouped nameOf rest)).
Proof.
  intros Hm Hb Hrest. simpl. rewrite (grouped_plain _ _ Hb), Hm, Hrest.
  now rewrite app_nil_r.
Qed.

End Grouped.

Lemma block_body entry :
  wellFormed entry ->
  split_lines (blockOf entry) = markerLine entry :: split_lines (bodyOf entry)
  /\ Forall (fun l => isMarker l = false) (split_lines (bodyOf entry)).
Proof.
  intros [Hlabel Hfree]. destruct entry as [p r]. simpl in *.
  assert (Hsplit : forall text,
             split_lines (lit "## " ++ label p ++ [LF] ++ text)
             = markerLine (p, r) :: split_lines text).
  { intros text.
    change (lit "## " ++ label p ++ [LF] ++ text)
      with (lit "## " ++ label p ++ LF :: text).
    rewrite app_assoc, split_lines_app.
    rewrite (split_lines_single (lit "## " ++ label p)
               (markerLine_no_LF (p, r) Hlabel)).
    reflexivity. }
  unfold blockOf, bodyOf. simpl. destruct r as [output | error].
  - split; [apply Hsplit | exact Hfree].
  - split; [apply Hsplit |].
    unfold markerFree in Hfree. simpl in Hfree.
    rewrite split_lines_prefix
      by (rewrite lit_error; simpl; intros H;
          repeat (destruct H as [H | H]; [discriminate H |]); exact H).
    pose proof (split_lines_cons_nonempty error) as Hne.
    destruct (split_lines error) as [| l ls]; [contradiction |].
    inversion Hfree as [| ? ? _ Hls]; subst. simpl.
    constructor; [| exact Hls].
    rewrite lit_error. reflexivity.
Qed.

(** The grouping of the lines of the joined blocks. *)
Lemma grouped_blocks entries :
  Forall wellFormed entries ->
  entries <> [] ->
  grouped (fun line => trim (remainder line))
          (split_lines (join [LF; LF] (map blockOf entries)))
  = ([], map shape (expectedSections entries)).
Proof.
  induction 1 as [| e rest He Hrest IH]; intros Hne; [congruence |].
  destruct (block_body e He) as [Hb Hplain].
  destruct rest as [| e2 rest].
  - simpl map. simpl join. rewrite Hb.
    rewrite <- (app_nil_r (split_lines (bodyOf e))) at 1.
    rewrite grouped_block;
      [| apply isMarker_markerLine | exact Hplain | reflexivity].
    simpl. rewrite name_of_markerLine, app_nil_r. reflexivity.
  - change (map blockOf (e :: e2 :: rest))
      with (blockOf e :: blockOf e2 :: map blockOf rest).
    rewrite split_lines_joined, Hb.
    change (blockOf e2 :: map blockOf rest) with (map blockOf (e2 :: rest)).
    specialize (IH ltac:(discriminate)).
    change ((markerLine e :: split_lines (bodyOf e))
            ++ [] :: split_lines (join [LF; LF] (map blockOf (e2 :: rest))))
      with (markerLine e
            :: split_lines (bodyOf e)
               ++ ([] :: split_lines (join [LF; LF] (map blockOf (e2 :: rest))))).
    change (split_lines (bodyOf e)
            ++ [] :: split_lines (join [LF; LF] (map blockOf (e2 :: rest))))
      with (split_lines (bodyOf e)
            ++ [[]] ++ split_lines (join [LF; LF] (map blockOf (e2 :: rest)))).
    rewrite app_assoc.
    rewrite grouped_block.
    + rewrite IH. simpl. rewrite name_of_markerLine. reflexivity.
    + apply isMarker_markerLine.
    + apply Forall_app. split; [exact Hplain |].
      constructor; [| constructor]. vm_compute. reflexivity.
    + now rewrite IH.
Qed.

Lemma plain_shape secs :
  Forall (fun s => status s = Sec_ok) secs -> map plain (map shape secs) = secs.
Proof.
  induction 1 as [| s rest Hs _ IH]; simpl; [reflexivity |].
  rewrite IH. f_equal. destruct s as [n l st]. simpl in *. now subst.
Qed.

Lemma expected_ok entries :
  Forall (fun s => status s = Sec_ok) (expectedSections entries).
Proof.
  induction entries as [| e rest IH]; simpl; constructor; auto.
Qed.

Lemma parse_blocks entries :
  Forall wellFormed entries ->
  parseSections (join [LF; LF] (map blockOf entries))
  = map classify (expectedSections entries).
Proof.
  intros Hwf. destruct entries as [| e rest]; [reflexivity |].
  rewrite parseSections_unfold.
  pose proof (content_nonblank (e :: rest) ltac:(discriminate)) as Hnb.
  destruct (trim (join [LF; LF] (map blockOf (e :: rest)))) eqn:Et;
    [contradiction |].
  simpl truthy. cbv iota.
  rewrite (grouped_blocks _ Hwf ltac:(discriminate)).
  unfold closing. cbn [fst snd].
  now rewrite plain_shape by apply expected_ok.
Qed.

Lemma classify_failed entry rest n error :
  snd entry = Failure error ->
  status (classify {| name := n;
                      lines := split_lines (bodyOf entry) ++ rest;
                      status := Sec_ok |})
  = Sec_error.
Proof.
  intros Hfail. unfold classify, bodyOf. rewrite Hfail. cbn [lines].
  assert (Hex : existsb (fun line => startsWith (lit "ERROR:") line
                                     || includes (lit "unavailable") line)
                        (split_lines (lit "ERROR: " ++ error) ++ rest) = true).
  { rewrite split_lines_prefix
      by (rewrite lit_error; simpl; intros H;
          repeat (destruct H as [H | H]; [discriminate H |]); exact H).
    cbn [app existsb]. apply orb_true_iff. left. apply orb_true_iff. left.
    apply startsWith_beginsWith. rewrite lit_error.
    eexists. change (lit "ERROR:") with [69; 82; 82; 79; 82; 58]%N.
    reflexivity. }
  rewrite Hex. reflexivity.
Qed.

Lemma expected_failed entries :
  Forall2 (fun entry s => failed (snd entry) = true -> status s = Sec_error)
          entries (map classify (expectedSections entries)).
Proof.
  induction entries as [| e rest IH]; simpl; constructor; [| exact IH].
  intros Hf. destruct (snd e) as [output | error] eqn:Er; [discriminate |].
  exact (classify_failed e _ _ _ Er).
Qed.

(** X20.  When every query promise is fulfilled, no label contains a
    newline and no text holds a line starting with "## ", the parser reads
    back from the content exactly one section per provider: it is named by
    the trimmed label, its lines are the lines of the provider's output (or
    of "ERROR: " followed by its error), followed by one blank line for
    every provider but the last, and its status is the classification of
    these lines.  In particular the section of a provider that failed has
    status [error]. *)
Theorem fanout_sections_read_back now providers results :
  Forall2 settledWith providers results ->
  Forall (fun p => ~ In LF (label p)) providers ->
  Forall (fun r => markerFree (textOf r)) results ->
  let sections := parseSections (content (queryProviders now providers)) in
  sections = map classify (expectedSections (combine providers results))
  /\ length sections = length providers
  /\ Forall2 (fun r s => failed r = true -> status s = Sec_error)
             results sections.
Proof.
  intros Hset Hlabels Hfree sections.
  assert (Hs : sections
               = map classify (expectedSections (combine providers results))).
  { unfold sections. rewrite (queryProviders_fulfilled now _ _ Hset).
    cbn [content]. apply parse_blocks. now apply wellFormed_combine. }
  pose proof (Forall2_length Hset) as Hlen.
  split; [exact Hs |]. rewrite Hs. split.
  - rewrite length_map. clear - Hlen. revert results Hlen.
    induction providers as [| p ps IH]; intros [| r rs] Hlen;
      simpl in *; try discriminate; [reflexivity |].
    f_equal. apply IH. now injection Hlen.
  - pose proof (expected_failed (combine providers results)) as Hall.
    clear - Hall Hlen. revert results Hlen Hall.
    induction providers as [| p ps IH]; intros [| r rs] Hlen Hall;
      simpl in *; try discriminate; [constructor |].
    inversion Hall as [| ? ? ? ? Hhead Htail]; subst.
    constructor; [exact Hhead | apply IH; [now injection Hlen | exact Htail]].
Qed.

Lemma fanout_sections_read_back_witness :
  map (fun s => (name s, lines s, status s))
      (parseSections (content (queryProviders Samples.noon Samples.three)))
  = [(lit "Copilot", [lit "Plan         pro"; []], Sec_ok);
     (lit "Codex", [lit "ERROR: timeout"; []], Sec_error);
     (lit "Gemini", [lit "Quota        skipped (no token)"], Sec_warning)].
Proof.
  assert (Hset : Forall2 settledWith Samples.three Samples.threeResults)
    by (repeat constructor).
  assert (Hlabels : Forall (fun p => ~ In LF (label p)) Samples.three).
  { repeat constructor; vm_compute; intros H;
      repeat (destruct H as [H | H]; [discriminate H |]); exact H. }
  assert (Hfree : Forall (fun r => markerFree (textOf r)) Samples.threeResults).
  { repeat constructor. }
  destruct (fanout_sections_read_back Samples.noon Samples.three
              Samples.threeResults Hset Hlabels Hfree) as [-> _].
  vm_compute. reflexivity.
Defined.

Section Pairing.

Variable toLowerCase : jsstring -> jsstring.

Lemma find_own sections s :
  NoDup (map (fun x => toLowerCase (name x)) sections) ->
  In s sections ->
  getProviderSection toLowerCase sections (name s) = Some s.
Proof.
  unfold getProviderSection.
  induction sections as [| x rest IH]; intros Hnd Hin; [contradiction |].
  inversion Hnd as [| ? ? Hnotin Hrest]; subst. simpl.
  destruct (JS.eqb (toLowerCase (name x)) (toLowerCase (name s))) eqn:E.
  - destruct Hin as [-> | Hin]; [reflexivity |].
    apply Summary.eqb_eq in E. exfalso. apply Hnotin. rewrite E.
    apply in_map_iff. now exists s.
  - destruct Hin as [-> | Hin].
    + assert (JS.eqb (toLowerCase (name s)) (toLowerCase (name s)) = true)
        by now apply Summary.eqb_eq.
      congruence.
    + exact (IH Hrest Hin).
Qed.

Lemma sections_by_key providers sections :
  Forall2 (fun p s => name s = trim (label p)) providers sections ->
  map (fun s => toLowerCase (name s)) sections = map (key toLowerCase) providers.
Proof.
  induction 1 as [| p s ps ss Hp _ IH]; simpl; [reflexivity |].
  unfold key at 1. now rewrite Hp, IH.
Qed.

Lemma summaries_own providers sections :
  Forall2 (fun p s => name s = label p) providers sections ->
  NoDup (map (fun x => toLowerCase (name x)) sections) ->
  map section (buildProviderSummaries toLowerCase providers sections)
  = map Some sections.
Proof.
  intros Hnames Hnd. unfold buildProviderSummaries. rewrite map_map. cbn [section].
  assert (Hgen : forall ps ss,
             Forall2 (fun p s => name s = label p) ps ss ->
             incl ss sections ->
             map (fun p => getProviderSection toLowerCase sections (label p)) ps
             = map Some ss).
  { induction 1 as [| p s ps ss Hp _ IH]; intros Hincl; simpl; [reflexivity |].
    rewrite <- Hp, find_own; [| exact Hnd | apply Hincl; now left].
    f_equal. apply IH. intros x Hx. apply Hincl. now right. }
  apply Hgen; [exact Hnames | apply incl_refl].
Qed.

End Pairing.

Lemma expected_names providers : forall results,
  length providers = length results ->
  Forall2 (fun p s => name s = trim (label p)) providers
          (map classify (expectedSections (combine providers results))).
Proof.
  induction providers as [| p ps IH]; intros [| r rs] Hlen;
    simpl in *; try discriminate; constructor.
  - unfold classify. cbn [lines name].
    destruct (existsb _ _); [reflexivity |].
    destruct (existsb _ _); reflexivity.
  - apply IH. now injection Hlen.
Qed.

(** X21.  From the fan-out to the provider list: when every query promise
    is fulfilled, the labels carry no surrounding white space and no
    newline, they differ from one another even after lower-casing, and no
    text holds a line starting with "## ", every provider's summary holds
    the provider's own section, the one parsed from its block, so that a
    provider that failed is listed with status [error]. *)
Theorem summaries_hold_own_sections toLowerCase now providers results :
  Forall2 settledWith providers results ->
  Forall (fun p => ~ In LF (label p) /\ trim (label p) = label p) providers ->
  NoDup (map (fun p => toLowerCase (label p)) providers) ->
  Forall (fun r => markerFree (textOf r)) results ->
  let sections := parseSections (content (queryProviders now providers)) in
  let summaries := buildProviderSummaries toLowerCase providers sections in
  map section summaries = map Some sections
  /\ map provider summaries = providers
  /\ Forall2 (fun r sm =>
                failed r = true ->
                option_map status (section sm) = Some Sec_error)
             results summaries.
Proof.
  intros Hset Hlabels Hnd Hfree sections summaries.
  assert (Hlf : Forall (fun p => ~ In LF (label p)) providers)
    by (eapply Forall_impl; [| exact Hlabels]; intros p [H _]; exact H).
  assert (Hs : sections
               = map classify (expectedSections (combine providers results))).
  { unfold sections. rewrite (queryProviders_fulfilled now _ _ Hset).
    cbn [content]. apply parse_blocks. now apply wellFormed_combine. }
  pose proof (Forall2_length Hset) as Hlen.
  pose proof (expected_names providers results Hlen) as Hnames.
  rewrite <- Hs in Hnames.
  assert (Hown : map section summaries = map Some sections).
  { apply summaries_own.
    - clear - Hnames Hlabels. induction Hnames as [| p s ps ss Hp _ IH];
        constructor.
      + inversion Hlabels as [| ? ? [_ Ht] _]; subst. now rewrite Hp.
      + apply IH. now inversion Hlabels.
    - rewrite (sections_by_key toLowerCase _ _ Hnames).
      assert (E : map (key toLowerCase) providers
                  = map (fun p => toLowerCase (label p)) providers).
      { apply map_ext_in. intros p Hp. unfold key.
        rewrite Forall_forall in Hlabels. now rewrite (proj2 (Hlabels p Hp)). }
      now rewrite E. }
  split; [exact Hown |]. split.
  - unfold summaries, buildProviderSummaries. rewrite map_map. apply map_id.
  - assert (Hfail : Forall2 (fun r s => failed r = true -> status s = Sec_error)
                            results sections).
    { rewrite Hs.
      pose proof (expected_failed (combine providers results)) as Hall.
      clear - Hall Hlen. revert results Hlen Hall.
      induction providers as [| p ps IH]; intros [| r rs] Hlen Hall;
        simpl in *; try discriminate; [constructor |].
      inversion Hall as [| ? ? ? ? Hhead Htail]; subst.
      constructor; [exact Hhead | apply IH; [now injection Hlen | exact Htail]]. }
    clear - Hfail Hown. revert Hown. generalize summaries as sms.
    induction Hfail as [| r s rs ss Hr _ IH]; intros [| sm sms] Hown;
      simpl in Hown; try discriminate; constructor.
    + intros Hf. injection Hown as Hhead _. rewrite Hhead. simpl.
      now rewrite (Hr Hf).
    + apply IH. now injection Hown.
Qed.

Lemma summaries_hold_own_sections_witness :
  map (fun sm => option_map status (section sm))
      (buildProviderSummaries asciiLower Samples.three
         (parseSections (content (queryProviders Samples.noon Samples.three))))
  = [Some Sec_ok; Some Sec_error; Some Sec_warning].
Proof.
  assert (Hset : Forall2 settledWith Samples.three Samples.threeResults)
    by (repeat constructor).
  assert (Hlabels : Forall (fun p => ~ In LF (label p) /\ trim (label p) = label p)
                           Samples.three).
  { repeat constructor; try (vm_compute; reflexivity); vm_compute; intros H;
      repeat (destruct H as [H | H]; [discriminate H |]); exact H. }
  assert (Hnd : NoDup (map (fun p => asciiLower (label p)) Samples.three)).
  { vm_compute. repeat constructor; simpl; intros H;
      repeat (destruct H as [H | H]; [discriminate H |]); exact H. }
  assert (Hfree : Forall (fun r => markerFree (textOf r)) Samples.threeResults).
  { repeat constructor. }
  destruct (summaries_hold_own_sections asciiLower Samples.noon Samples.three
              Samples.threeResults Hset Hlabels Hnd Hfree) as [Hown _].
  rewrite <- (map_map section (option_map status)), Hown.
  vm_compute. reflexivity.
Defined.

End Composition.

(** ** The clock of the header *)

Module ClockFacts.

Import StatusModel Clock.

Lemma twoDigits_upto :
  forallb (fun k => JS.eqb (padStart2 (String_of_N (N.of_nat k)))
                           (twoDigits (N.of_nat k)))
          (seq 0 100)
  = true.
Proof. vm_compute. reflexivity. Qed.

Lemma padStart2_twoDigits n :
  (n < 100)%N -> padStart2 (String_of_N n) = twoDigits n.
Proof.
  intros Hn. pose proof twoDigits_upto as H. rewrite forallb_forall in H.
  specialize (H (N.to_nat n)). rewrite N2Nat.id in H.
  apply Summary.eqb_eq, H, in_seq. lia.
Qed.

Lemma twoDigits_inj n n' : twoDigits n = twoDigits n' -> n = n'.
Proof.
  unfold twoDigits. intros H.
  assert (Hq : (48 + n / 10 = 48 + n' / 10)%N)
    by exact (f_equal (fun l => nth 0 l 0%N) H).
  assert (Hr : (48 + n mod 10 = 48 + n' mod 10)%N)
    by exact (f_equal (fun l => nth 1 l 0%N) H).
  apply N.add_cancel_l in Hq, Hr.
  rewrite (N.div_mod n 10), (N.div_mod n' 10) by discriminate.
  now rewrite Hq, Hr.
Qed.

Lemma formatClock_digits d :
  (getHours d < 100)%N -> (getMinutes d < 100)%N -> (getSeconds d < 100)%N ->
  formatClock (Some d)
  = twoDigits (getHours d) ++ [COLON] ++ twoDigits (getMinutes d)
    ++ [COLON] ++ twoDigits (getSeconds d).
Proof.
  intros Hh Hm Hs. unfold formatClock.
  rewrite !padStart2_twoDigits by assumption. reflexivity.
Qed.

(** X22.  The clock of the header is always eight characters,
    "HH:MM:SS" with two decimal digits per field, for every time of day
    (any fields below 100); it differs from the "never" of a missing time,
    both entry points print it alike, and two times print alike only when
    their hours, minutes and seconds agree. *)
Theorem clock_is_fixed_width d :
  (getHours d < 100)%N -> (getMinutes d < 100)%N -> (getSeconds d < 100)%N ->
  formatClock (Some d)
  = twoDigits (getHours d) ++ [COLON] ++ twoDigits (getMinutes d)
    ++ [COLON] ++ twoDigits (getSeconds d)
  /\ length (formatClock (Some d)) = 8
  /\ formatClock (Some d) <> formatClock None
  /\ Legacy.formatTime (Some d) = formatClock (Some d)
  /\ (forall d',
        (getHours d' < 100)%N -> (getMinutes d' < 100)%N ->
        (getSeconds d' < 100)%N ->
        formatClock (Some d') = formatClock (Some d) ->
        getHours d' = getHours d /\ getMinutes d' = getMinutes d
        /\ getSeconds d' = getSeconds d).
Proof.
  intros Hh Hm Hs.
  pose proof (formatClock_digits d Hh Hm Hs) as E.
  split; [exact E |]. split; [now rewrite E |]. split; [| split].
  - intros H. apply (f_equal (@length N)) in H. rewrite E in H.
    vm_compute in H. discriminate.
  - reflexivity.
  - intros d' Hh' Hm' Hs' Heq.
    rewrite E, (formatClock_digits d' Hh' Hm' Hs') in Heq.
    split; [| split]; apply twoDigits_inj.
    + exact (f_equal (firstn 2) Heq).
    + exact (f_equal (fun l => firstn 2 (skipn 3 l)) Heq).
    + exact (f_equal (skipn 6) Heq).
Qed.

Lemma clock_is_fixed_width_witness :
  formatClock (Some Samples.noon) = lit "12:00:05".
Proof.
  destruct (clock_is_fixed_width Samples.noon) as [E _];
    [vm_compute; reflexivity | vm_compute; reflexivity
     | vm_compute; reflexivity |].
  rewrite E. vm_compute. reflexivity.
Defined.

End ClockFacts.

(** ** The quota lines of the providers, read back by the status model *)

Module ReadBack.

Import StatusModel Spec ProviderLines Ranges RangeFacts PatternFacts.

Lemma matchFrom_unfold prev s :
  matchFrom prev s
  = match matchHere prev s with
    | Some d => Some d
    | None =>
        match s with
        | [] => None
        | c :: s' => matchFrom (Some c) s'
        end
    end.
Proof. destruct s; reflexivity. Qed.

Lemma percentThenRest_head rest :
  percentThenRest rest = true -> exists tail, rest = PERCENT :: tail.
Proof.
  destruct rest as [| c tail]; simpl; [discriminate |].
  intros H. apply andb_true_iff in H. destruct H as [H _].
  apply N.eqb_eq in H. subst. now exists tail.
Qed.

(** No match starts before the first percent sign unless its digits end
    right at it. *)
Lemma matchHere_before_space prev p c rest :
  ~ In PERCENT p -> c <> PERCENT -> isDigit c = false ->
  matchHere prev (p ++ c :: rest) = None.
Proof.
  intros Hp Hc Hd. destruct (matchHere prev (p ++ c :: rest)) as [d |] eqn:E;
    [| reflexivity].
  exfalso. apply matchHere_spec in E.
  destruct E as [_ [_ [Hdigits [tail [Hs Hrest]]]]].
  destruct (percentThenRest_head _ Hrest) as [tail' ->].
  apply app_eq_app in Hs. destruct Hs as [l [[Hl1 Hl2] | [Hl1 Hl2]]].
  - destruct l as [| x l]; simpl in Hl2.
    + injection Hl2 as Hx _. congruence.
    + injection Hl2 as Hx _. subst x. apply Hp. rewrite Hl1.
      apply in_or_app. right. now left.
  - destruct l as [| x l]; simpl in Hl2.
    + injection Hl2 as Hx _. congruence.
    + injection Hl2 as Hx _. subst x.
      rewrite Hl1, forallb_app in Hdigits. apply andb_true_iff in Hdigits.
      destruct Hdigits as [_ Hdigits]. simpl in Hdigits.
      apply andb_true_iff in Hdigits. destruct Hdigits as [Hdigits _].
      congruence.
Qed.

Lemma matchFrom_skip p : forall prev c rest,
  ~ In PERCENT p -> c <> PERCENT -> isDigit c = false ->
  matchFrom prev (p ++ c :: rest) = matchFrom (Some c) rest.
Proof.
  induction p as [| x p IH]; intros prev c rest Hp Hc Hd.
  - rewrite matchFrom_unfold.
    rewrite (matchHere_before_space prev [] c rest Hp Hc Hd). reflexivity.
  - rewrite matchFrom_unfold.
    rewrite (matchHere_before_space prev (x :: p) c rest Hp Hc Hd).
    simpl. apply IH; auto. intros H. apply Hp. now right.
Qed.

Lemma matchHere_no_percent prev s :
  ~ In PERCENT s -> matchHere prev s = None.
Proof.
  intros Hs. destruct (matchHere prev s) as [d |] eqn:E; [| reflexivity].
  exfalso. apply matchHere_spec in E.
  destruct E as [_ [_ [_ [tail [-> Hrest]]]]].
  destruct (percentThenRest_head _ Hrest) as [tail' ->].
  apply Hs, in_or_app. right. now left.
Qed.

(** A line without a percent sign carries no percentage. *)
Lemma matchRemaining_no_percent line :
  ~ In PERCENT line -> matchRemaining line = None.
Proof.
  unfold matchRemaining. generalize (@None N).
  induction line as [| c line IH]; intros prev Hl; rewrite matchFrom_unfold;
    rewrite (matchHere_no_percent _ _ Hl); [reflexivity |].
  apply IH. intros H. apply Hl. now right.
Qed.

Lemma ignoringCase_refl pat : ignoringCase pat pat.
Proof. induction pat; constructor; auto. Qed.

(** The shape every provider gives its quota line: text without a percent
    sign, a space, the digits, "% remaining" and a tail that does not go on
    with a word character. *)
Lemma quota_line prefix d suffix :
  ~ In PERCENT prefix ->
  1 <= length d <= 3 -> forallb isDigit d = true ->
  isWordAt (hd_error suffix) = false ->
  matchRemaining (prefix ++ 32%N :: d ++ [PERCENT; 32%N] ++ lit "remaining" ++ suffix)
  = Some d.
Proof.
  intros Hp Hlen Hd Hsuffix. unfold matchRemaining.
  rewrite matchFrom_skip; [| exact Hp | discriminate | reflexivity].
  rewrite matchFrom_unfold.
  assert (E : matchHere (Some 32%N)
                (d ++ [PERCENT; 32%N] ++ lit "remaining" ++ suffix) = Some d).
  { apply matchHere_spec. split; [reflexivity |]. split; [exact Hlen |].
    split; [exact Hd |]. eexists. split; [reflexivity |].
    apply percent_spec. exists [32%N], (lit "remaining"), suffix.
    split; [reflexivity |]. split; [discriminate |]. split; [reflexivity |].
    split; [apply ignoringCase_refl | exact Hsuffix]. }
  now rewrite E.
Qed.

Lemma decimal_upto :
  forallb (fun v =>
             forallb isDigit (String_of_Z v)
             && (1 <=? length (String_of_Z v))%nat
             && (length (String_of_Z v) <=? 3)%nat
             && Z.eqb (Number_of_digits (String_of_Z v)) v)
          (upto 100)
  = true.
Proof. vm_compute. reflexivity. Qed.

Lemma decimal_digits v :
  (0 <= v <= 100)%Z ->
  forallb isDigit (String_of_Z v) = true
  /\ 1 <= length (String_of_Z v) <= 3
  /\ Number_of_digits (String_of_Z v) = v.
Proof.
  intros Hv. pose proof (upto_forall _ 100 decimal_upto v Hv) as H.
  cbv beta in H.
  apply andb_true_iff in H. destruct H as [H H4].
  apply andb_true_iff in H. destruct H as [H H3].
  apply andb_true_iff in H. destruct H as [H1 H2].
  apply Nat.leb_le in H2, H3. apply Z.eqb_eq in H4. auto.
Qed.

Lemma repeat_no_percent c n : c <> PERCENT -> ~ In PERCENT (repeat c n).
Proof. intros Hc H. apply repeat_spec in H. congruence. Qed.

Lemma bar_no_percent percent width : ~ In PERCENT (bar percent width).
Proof.
  unfold bar, String_repeat. cbv zeta. intros H.
  repeat (apply in_app_or in H; destruct H as [H | H]).
  - vm_compute in H. destruct H as [H | H]; [discriminate H | exact H].
  - revert H. apply repeat_no_percent. discriminate.
  - revert H. apply repeat_no_percent. discriminate.
  - vm_compute in H. destruct H as [H | H]; [discriminate H | exact H].
Qed.

Lemma lit_space : lit " " = [32%N].
Proof. vm_compute. reflexivity. Qed.

Lemma lit_tier_tail :
  lit "% remaining (" = [PERCENT; 32%N] ++ lit "remaining" ++ [32%N; 40%N].
Proof. vm_compute. reflexivity. Qed.

Lemma lit_window_tail :
  lit "% remaining" = [PERCENT; 32%N] ++ lit "remaining" ++ [].
Proof. vm_compute. reflexivity. Qed.

Lemma extract_lines n st ls :
  extractRemainingPercents (Some {| name := n; lines := ls; status := st |})
  = percentsList ls.
Proof. apply Summary.extract_percentsList. Qed.

Lemma percentsList_app a b : percentsList (a ++ b) = percentsList a ++ percentsList b.
Proof. unfold percentsList. apply flat_map_app. Qed.

Lemma percentsList_plain ls :
  Forall (fun l => ~ In PERCENT l) ls -> percentsList ls = [].
Proof.
  induction 1 as [| l ls Hl _ IH]; simpl; [reflexivity |].
  now rewrite (matchRemaining_no_percent _ Hl), IH.
Qed.

Lemma percentsList_one line d :
  matchRemaining line = Some d ->
  percentsList [line] = [clampPercent (Number_of_digits d)].
Proof. intros H. simpl. now rewrite H. Qed.

Lemma normalizePercentUsed_range raw :
  (0 <= normalizePercentUsed raw <= 100)%Z.
Proof.
  unfold normalizePercentUsed.
  destruct (negb (PrimFloat.is_finite raw)); [lia |].
  destruct (raw <=? 1)%float; lia.
Qed.

Lemma tierLine_match label usedRatio used total :
  ~ In PERCENT label ->
  matchRemaining (tierLine label usedRatio used total)
  = Some (String_of_Z (Z.max 0 (100 - normalizePercentUsed usedRatio))).
Proof.
  intros Hlabel. unfold tierLine. cbv zeta.
  set (remaining := Z.max 0 (100 - normalizePercentUsed usedRatio)).
  pose proof (normalizePercentUsed_range usedRatio) as Hr.
  destruct (decimal_digits remaining ltac:(lia)) as [Hd [Hlen _]].
  rewrite lit_tier_tail, !lit_space.
  replace (padEnd label 12 SPACE ++ [32%N] ++ bar remaining 22 ++ [32%N]
           ++ String_of_Z remaining
           ++ ([PERCENT; 32%N] ++ lit "remaining" ++ [32%N; 40%N])
           ++ used ++ lit "/" ++ total ++ lit ")")
    with ((padEnd label 12 SPACE ++ [32%N] ++ bar remaining 22)
          ++ 32%N :: String_of_Z remaining ++ [PERCENT; 32%N] ++ lit "remaining"
          ++ ([32%N; 40%N] ++ used ++ lit "/" ++ total ++ lit ")"))
    by (rewrite <- !app_assoc; reflexivity).
  apply quota_line; [| exact Hlen | exact Hd | reflexivity].
  intros H. unfold padEnd, String_repeat in H.
  apply in_app_or in H. destruct H as [H | H].
  - apply in_app_or in H. destruct H as [H | H]; [contradiction |].
    revert H. apply repeat_no_percent. discriminate.
  - destruct H as [H | H]; [discriminate H |].
    revert H. apply bar_no_percent.
Qed.

(** X23.  The status model reads back what the Droid provider writes: on
    the line [tierLine] builds for a tier, whatever the used ratio (any
    binary64 value) and the token counts, the pattern captures the
    remaining percentage the line was built from, which lies in
    [0, 100]; so a section with the lines of the two tiers among lines
    without a percent sign has the rounded mean of the two as its
    average-remaining. *)
Theorem tier_lines_read_back label1 ratio1 used1 total1
        label2 ratio2 used2 total2 before after n st :
  ~ In PERCENT label1 -> ~ In PERCENT label2 ->
  Forall (fun l => ~ In PERCENT l) before ->
  Forall (fun l => ~ In PERCENT l) after ->
  let remaining1 := Z.max 0 (100 - normalizePercentUsed ratio1) in
  let remaining2 := Z.max 0 (100 - normalizePercentUsed ratio2) in
  let section :=
    {| name := n;
       lines := before ++ [tierLine label1 ratio1 used1 total1;
                           tierLine label2 ratio2 used2 total2] ++ after;
       status := st |} in
  (0 <= remaining1 <= 100)%Z /\ (0 <= remaining2 <= 100)%Z
  /\ matchRemaining (tierLine label1 ratio1 used1 total1)
     = Some (String_of_Z remaining1)
  /\ extractRemainingPercents (Some section) = [remaining1; remaining2]
  /\ averageRemaining (Some section) = Some ((remaining1 + remaining2 + 1) / 2)%Z.
Proof.
  intros Hl1 Hl2 Hbefore Hafter remaining1 remaining2 section.
  pose proof (normalizePercentUsed_range ratio1) as Hr1.
  pose proof (normalizePercentUsed_range ratio2) as Hr2.
  assert (Hx : extractRemainingPercents (Some section) = [remaining1; remaining2]).
  { unfold section. rewrite extract_lines.
    change [tierLine label1 ratio1 used1 total1; tierLine label2 ratio2 used2 total2]
      with ([tierLine label1 ratio1 used1 total1]
            ++ [tierLine label2 ratio2 used2 total2]).
    rewrite !percentsList_app.
    rewrite (percentsList_plain _ Hbefore), (percentsList_plain _ Hafter).
    rewrite (percentsList_one _ _ (tierLine_match label1 ratio1 used1 total1 Hl1)).
    rewrite (percentsList_one _ _ (tierLine_match label2 ratio2 used2 total2 Hl2)).
    fold remaining1 remaining2.
    destruct (decimal_digits remaining1 ltac:(lia)) as [_ [_ ->]].
    destruct (decimal_digits remaining2 ltac:(lia)) as [_ [_ ->]].
    unfold clampPercent. simpl. f_equal; [lia | f_equal; lia]. }
  split; [lia |]. split; [lia |].
  split; [now apply tierLine_match |]. split; [exact Hx |].
  unfold averageRemaining. rewrite Hx. cbn [length Nat.eqb fold_left].
  unfold roundedQuotient. f_equal.
  change (Z.of_nat 2) with 2%Z.
  replace (2 * (0 + remaining1 + remaining2) + 2)%Z
    with ((remaining1 + remaining2 + 1) * 2)%Z by lia.
  change (2 * 2)%Z with (2 * 2)%Z.
  rewrite Z.div_mul_cancel_r by lia. reflexivity.
Qed.

Lemma tier_lines_read_back_witness :
  averageRemaining
    (Some {| name := lit "Droid";
             lines := [lit "Provider     Factory Droid"; []]
                      ++ [tierLine (lit "Standard") 0.25 (lit "250") (lit "1000");
                          tierLine (lit "Premium") 90 (lit "9") (lit "10")]
                      ++ [[]];
             status := Sec_ok |})
  = Some 43%Z.
Proof.
  assert (Hno : forall l : jsstring, forallb (fun c => negb (c =? PERCENT)%N) l = true ->
                                     ~ In PERCENT l).
  { intros l Hl Hin. rewrite forallb_forall in Hl. specialize (Hl _ Hin).
    rewrite N.eqb_refl in Hl. discriminate. }
  destruct (tier_lines_read_back (lit "Standard") 0.25 (lit "250") (lit "1000")
              (lit "Premium") 90 (lit "9") (lit "10")
              [lit "Provider     Factory Droid"; []] [[]] (lit "Droid") Sec_ok)
    as [_ [_ [_ [_ Havg]]]].
  - apply Hno. vm_compute. reflexivity.
  - apply Hno. vm_compute. reflexivity.
  - repeat constructor; apply Hno; vm_compute; reflexivity.
  - repeat constructor; apply Hno; vm_compute; reflexivity.
  - etransitivity; [exact Havg | vm_compute; reflexivity].
Defined.

Lemma progressBar_no_percent percent width : ~ In PERCENT (progressBar percent width).
Proof.
  unfold progressBar, String_repeat. cbv zeta. intros H.
  repeat (apply in_app_or in H; destruct H as [H | H]).
  - vm_compute in H. destruct H as [H | H]; [discriminate H | exact H].
  - revert H. apply repeat_no_percent. discriminate.
  - revert H. apply repeat_no_percent. discriminate.
  - vm_compute in H. destruct H as [H | H]; [discriminate H | exact H].
Qed.

(** The "used N%" line of a window carries no remaining percentage. *)
Lemma used_line_upto :
  forallb (fun v =>
             match matchRemaining (lit "used " ++ String_of_Z v ++ lit "%") with
             | None => true
             | Some _ => false
             end)
          (upto 100)
  = true.
Proof. vm_compute. reflexivity. Qed.

Lemma used_line_plain v :
  (0 <= v <= 100)%Z ->
  matchRemaining (lit "used " ++ String_of_Z v ++ lit "%") = None.
Proof.
  intros Hv. pose proof (upto_forall _ 100 used_line_upto v Hv) as H.
  cbv beta in H.
  destruct (matchRemaining (lit "used " ++ String_of_Z v ++ lit "%"));
    [discriminate | reflexivity].
Qed.

Lemma literal_line_plain (head tail : jsstring) :
  forallb (fun c => negb (c =? PERCENT)%N) head = true ->
  ~ In PERCENT tail -> ~ In PERCENT (head ++ tail).
Proof.
  intros Hh Ht H. apply in_app_or in H. destruct H as [H | H]; [| auto].
  rewrite forallb_forall in Hh. specialize (Hh _ H).
  rewrite N.eqb_refl in Hh. discriminate.
Qed.

(** X24.  The status model reads back what the Codex provider writes: of
    the five lines [formatWindow] builds for a rate-limit window, only the
    progress line carries a remaining percentage, and it is the one the
    line was built from, between 0 and 100; the "used N%" line is not
    mistaken for it.  So a section holding one window among lines without
    a percent sign has that percentage as its average-remaining. *)
Theorem window_lines_read_back windowLabel resetsIn resetAt used_percent
        before after n st :
  PrimFloat.is_finite used_percent = true ->
  ~ In PERCENT windowLabel -> ~ In PERCENT resetsIn -> ~ In PERCENT resetAt ->
  Forall (fun l => ~ In PERCENT l) before ->
  Forall (fun l => ~ In PERCENT l) after ->
  let remaining := remainPercent used_percent in
  let section :=
    {| name := n;
       lines := before
                ++ formatWindow windowLabel resetsIn resetAt used_percent
                ++ after;
       status := st |} in
  (0 <= remaining <= 100)%Z
  /\ map matchRemaining (formatWindow windowLabel resetsIn resetAt used_percent)
     = [None; Some (String_of_Z remaining); None; None; None]
  /\ extractRemainingPercents (Some section) = [remaining]
  /\ averageRemaining (Some section) = Some remaining.
Proof.
  intros _ Hlabel Hresets Hreset Hbefore Hafter remaining section.
  assert (Hr : (0 <= remaining <= 100)%Z)
    by (unfold remaining, remainPercent; lia).
  destruct (decimal_digits remaining Hr) as [Hd [Hlen Hnum]].
  assert (Hlines : map matchRemaining
                     (formatWindow windowLabel resetsIn resetAt used_percent)
                   = [None; Some (String_of_Z remaining); None; None; None]).
  { unfold formatWindow. cbv zeta. fold remaining. cbn [map].
    rewrite (matchRemaining_no_percent _ Hlabel).
    rewrite used_line_plain by lia.
    rewrite (matchRemaining_no_percent (lit "resets in " ++ resetsIn))
      by (apply literal_line_plain; [vm_compute; reflexivity | exact Hresets]).
    rewrite (matchRemaining_no_percent (lit "reset at " ++ resetAt))
      by (apply literal_line_plain; [vm_compute; reflexivity | exact Hreset]).
    rewrite lit_window_tail, lit_space.
    replace (progressBar remaining 24 ++ [32%N] ++ String_of_Z remaining
             ++ [PERCENT; 32%N] ++ lit "remaining" ++ [])
      with (progressBar remaining 24
            ++ 32%N :: String_of_Z remaining ++ [PERCENT; 32%N]
            ++ lit "remaining" ++ [])
      by reflexivity.
    rewrite quota_line;
      [reflexivity | apply progressBar_no_percent | exact Hlen | exact Hd
       | reflexivity]. }
  assert (Hx : extractRemainingPercents (Some section) = [remaining]).
  { unfold section. rewrite extract_lines, !percentsList_app.
    rewrite (percentsList_plain _ Hbefore), (percentsList_plain _ Hafter).
    unfold formatWindow in Hlines |- *. cbv zeta in Hlines |- *.
    cbn [map] in Hlines. injection Hlines as H1 H2 H3 H4 H5.
    unfold percentsList. cbn [flat_map]. rewrite H1, H2, H3, H4, H5.
    cbn [app]. fold remaining. rewrite Hnum. unfold clampPercent.
    f_equal. lia. }
  split; [exact Hr |]. split; [exact Hlines |]. split; [exact Hx |].
  unfold averageRemaining. rewrite Hx. cbn [length Nat.eqb fold_left].
  unfold roundedQuotient. f_equal. change (Z.of_nat 1) with 1%Z.
  replace (2 * (0 + remaining) + 1)%Z with (1 + remaining * 2)%Z by lia.
  rewrite Z.div_add by lia. simpl. lia.
Qed.

Lemma window_lines_read_back_witness :
  extractRemainingPercents
    (Some {| name := lit "Codex";
             lines := [lit "Plan       plus"; []]
                      ++ formatWindow (lit "7-day window") (lit "2h 5m")
                           (lit "2026-01-01 12:00:00Z") 37.5
                      ++ [];
             status := Sec_ok |})
  = [63%Z].
Proof.
  assert (Hno : forall l : jsstring, forallb (fun c => negb (c =? PERCENT)%N) l = true ->
                                     ~ In PERCENT l).
  { intros l Hl Hin. rewrite forallb_forall in Hl. specialize (Hl _ Hin).
    rewrite N.eqb_refl in Hl. discriminate. }
  destruct (window_lines_read_back (lit "7-day window") (lit "2h 5m")
              (lit "2026-01-01 12:00:00Z") 37.5
              [lit "Plan       plus"; []] [] (lit "Codex") Sec_ok)
    as [_ [_ [Hx _]]].
  - vm_compute. reflexivity.
  - apply Hno. vm_compute. reflexivity.
  - apply Hno. vm_compute. reflexivity.
  - apply Hno. vm_compute. reflexivity.
  - repeat constructor; apply Hno; vm_compute; reflexivity.
  - constructor.
  - etransitivity; [exact Hx | vm_compute; reflexivity].
Defined.

End ReadBack.
